(** * The combat resolution core of [theone], embedded in Rocq

    The development follows the JavaScript sources:
    - [src/services/CombatService.js], the class [CombatService];
    - [src/components/features/combat/CombatTurnManager.jsx];
    - [src/stores/characterStore.js], the character store.

    The sources hold the class [CombatService] twice: in
    [src/services/CombatService.js], and, in a fuller text, after the store
    in [src/stores/characterStore.js] (from line 714 on). The two texts
    agree on [createEnemiesFromEncounter], [rollInitiative], [rollDamage],
    [rollD20], [isDefeated] and [checkCombatEnd]. They differ on
    [getAttackBonus], and so on [executeAttack], whose text is the same but
    which calls the [getAttackBonus] of its own class; only the fuller one
    has [executeEntityAttack], the spells and the companion actions.
    [Module CombatService] embeds the fuller text; the [getAttackBonus] and
    the [executeAttack] of [src/services/CombatService.js], which the turn
    manager imports, are in [Module CombatServiceShort].

    Conventions of the embedding.
    - JavaScript numbers that hold counts, hit points, bonuses and die faces
      are [Z]; a field that the source tests for absence ([!x], [x ?? d],
      [x || d], [x === undefined]) is an [option]; a field that the source
      dereferences without a test is a plain field of the record.
    - An object used as a map (the [stats] of a character, the registries
      [enemyTemplates] and [items]) is a [gmap] with string keys; reading a
      key that is not there gives [undefined], and arithmetic on it is the
      [NotANumber] outcome.
    - [Math.random()] is a sequence [random : nat -> Q] of samples together
      with a cursor; a function that draws samples takes the cursor and
      returns the next one.
    - [throw] and the [TypeError] of a failed dereference are the
      [Throws] outcome; [console.error] / [console.warn] lines and the
      messages handed to [addCombatMessage] are returned as lists. *)

From Stdlib Require Import ZArith QArith Qround List String Ascii.
From Stdlib Require Import Permutation Sorted Lia.
From stdpp Require Import base gmap strings list pretty.

Local Open Scope Z_scope.

(* ===================================================================== *)
(** * Part I: definitions                                                 *)
(* ===================================================================== *)

(** ** JavaScript values shared by the three files *)

Module JS.

(** What a call does: it returns, it throws, or its result is [NaN]
    (an arithmetic operation on [undefined]). A caller that goes on with a
    [NaN] ([executeAttack] and [executeEnemyAttack] with the bonus of
    [services/CombatService.js]) carries it as [None]. *)
Inductive Outcome (A : Type) : Type :=
| Returns (a : A)
| Throws (error : string)
| NotANumber.
Arguments Returns {A} a.
Arguments Throws {A} error.
Arguments NotANumber {A}.

(** Template literals print numbers in decimal. *)
Definition showZ (z : Z) : string := pretty z.
Definition showNat (n : nat) : string := pretty n.

(** Truthiness of an optional string ([undefined] and [""] are falsy). *)
Definition truthyString (s : option string) : bool :=
  match s with
  | Some (String _ _) => true
  | _ => false
  end.

(** Truthiness of an optional number ([undefined] and [0] are falsy). *)
Definition truthyNumber (n : option Z) : bool :=
  match n with
  | Some z => negb (z =? 0)
  | None => false
  end.

(** [x || d] on an optional number. *)
Definition orElse (n : option Z) (d : Z) : Z :=
  if truthyNumber n then default d n else d.

(** [Math.ceil(n / 4)] on an integer [n]. *)
Definition ceilQuarter (n : Z) : Z := - ((- n) / 4).

End JS.
Export JS.

(** ** The data model *)

(** [type: 'player' | 'companion' | 'enemy'] *)
Inductive CombatantType : Type := Player | Companion | Enemy.

#[global] Instance CombatantType_eq_dec : EqDecision CombatantType.
Proof. solve_decision. Defined.

(** An attack, a weapon or an action of type ['attack']. *)
Record Attack : Type := mkAttack {
  attackName : string;
  attackBonus : option Z;        (* attack.attackBonus *)
  stat : option string;          (* attack.stat *)
  category : option string;      (* attack.category *)
  attackType : option string;    (* attack.type *)
  range : option Z;              (* attack.range *)
  damage : option string;        (* attack.damage, "NdM+B" *)
  damageDice : option string;    (* attack.damageDice *)
  damageBonus : option Z         (* attack.damageBonus *)
}.

(** An effect of an inventory item, [{ type, value }]. *)
Record Effect : Type := mkEffect {
  effectType : string;
  value : Z
}.

(** An inventory entry. *)
Record Item : Type := mkItem {
  item_id : option string;       (* item.id *)
  itemName : option string;      (* item.name *)
  nom : option string;           (* item.nom *)
  itemType : option string;      (* item.type *)
  consumable : bool;             (* item.consumable *)
  quantity : option Z;           (* item.quantity *)
  effects : option (list Effect) (* item.effects *)
}.

(** A character sheet, an enemy instance or a turn-order entry: the fields
    the embedded functions read or write. [stats] maps the name of an
    ability (['force'], ['dexterite'], ['constitution'], ...) to its score. *)
Record Character : Type := mkCharacter {
  id : string;
  name : string;
  type : CombatantType;
  level : option Z;
  stats : option (gmap string Z);
  currentHP : Z;
  maxHP : Z;
  ac : option Z;
  attacks : list Attack;
  image : string;
  isAlive : bool;
  initiative : Z;                (* written by rollInitiative only *)
  hitDice : Z;
  hitDiceType : option Z;
  inventory : list Item
}.

(** Modelled from the spec: [getModifier] of [utils/calculations], which is
    not among the sources; the spec gives
    [abilityModifier(score) = floor((score - 10) / 2)]. *)
Definition getModifier (score : Z) : Z := (score - 10) / 2.

(** ** Effects: [Math.random], the console and the combat log *)

(** A message handed to [addCombatMessage(text, type)] or pushed on
    [results.messages]. *)
Record Message : Type := mkMessage {
  text : string;
  messageType : option string
}.

(** What the functions act on besides their arguments: the number of
    [Math.random()] samples drawn so far, the lines written with
    [console.error] / [console.warn], and the messages given to the
    [addCombatMessage] callback. *)
Record World : Type := mkWorld {
  cursor : nat;
  console : list string;
  combatMessages : list Message
}.

Definition Eff (A : Type) : Type := World -> A * World.

Definition ret {A : Type} (a : A) : Eff A := fun w => (a, w).

Definition bind {A B : Type} (m : Eff A) (k : A -> Eff B) : Eff B :=
  fun w => let (a, w') := m w in k a w'.

Notation "'let*' x ':=' m 'in' k" := (bind m (fun x => k))
  (at level 10, x name, m at level 100, k at level 200).

(** Sequencing of calls that may throw. *)
Definition bindO {A B : Type} (m : Eff (Outcome A))
    (k : A -> Eff (Outcome B)) : Eff (Outcome B) :=
  fun w => let (r, w') := m w in
           match r with
           | Returns a => k a w'
           | Throws e => (Throws e, w')
           | NotANumber => (NotANumber, w')
           end.

Notation "'let?' x ':=' m 'in' k" := (bindO m (fun x => k))
  (at level 10, x name, m at level 100, k at level 200).

(** [console.error(line)] and [console.warn(line)] *)
Definition log (line : string) : Eff unit :=
  fun w => (tt, {| cursor := cursor w; console := console w ++ [line];
                   combatMessages := combatMessages w |}).

(** [addCombatMessage(text, type)] *)
Definition addCombatMessage (t : string) (ty : option string) : Eff unit :=
  fun w => (tt, {| cursor := cursor w; console := console w;
                   combatMessages := combatMessages w ++ [mkMessage t ty] |}).

(** ** The regular expression of [rollDamage] *)

Module DamageRegex.

(** [\d] *)
Definition isDigit (c : ascii) : bool :=
  (48 <=? nat_of_ascii c)%nat && (nat_of_ascii c <=? 57)%nat.

Definition isEmpty (s : string) : bool :=
  match s with
  | EmptyString => true
  | String _ _ => false
  end.

(** The longest prefix of digits, and what follows it: the greedy [\d+]
    (which, here, is never made to give a digit back: what has to follow
    it is not a digit). *)
Fixpoint takeDigits (s : string) : string * string :=
  match s with
  | String c rest =>
      if isDigit c
      then let (ds, r) := takeDigits rest in (String c ds, r)
      else (EmptyString, s)
  | EmptyString => (EmptyString, EmptyString)
  end.

(** A match of [(\d+)d(\d+)(\+(\d+))?] that starts at the first character:
    the groups 1, 2 and 4. *)
Definition matchHere (s : string) : option (string * string * option string) :=
  let (numDice, r1) := takeDigits s in
  if isEmpty numDice then None
  else match r1 with
       | String c r2 =>
           if Ascii.eqb c "d" then
             let (dieSize, r3) := takeDigits r2 in
             if isEmpty dieSize then None
             else match r3 with
                  | String c' r4 =>
                      if Ascii.eqb c' "+" then
                        let (bonus, _) := takeDigits r4 in
                        Some (numDice, dieSize,
                              if isEmpty bonus then None else Some bonus)
                      else Some (numDice, dieSize, None)
                  | EmptyString => Some (numDice, dieSize, None)
                  end
           else None
       | EmptyString => None
       end.

(** [damageString.match(/(\d+)d(\d+)(\+(\d+))?/)]: the regular expression
    has no anchor, so the match is the leftmost one. *)
Fixpoint matchRegex (s : string) : option (string * string * option string) :=
  match matchHere s with
  | Some groups => Some groups
  | None =>
      match s with
      | String _ rest => matchRegex rest
      | EmptyString => None
      end
  end.

Definition digitValue (c : ascii) : Z := Z.of_nat (nat_of_ascii c) - 48.

Fixpoint parseDigits (acc : Z) (s : string) : Z :=
  match s with
  | String c rest => parseDigits (10 * acc + digitValue c) rest
  | EmptyString => acc
  end.

(** [parseInt] on a captured group, which holds digits only. *)
Definition parseInt (s : string) : Z := parseDigits 0 s.

End DamageRegex.

(** ** [CombatService.js] *)

(** [results.damage.push({ targetId, damage })] *)
Record DamageEntry : Type := mkDamageEntry {
  targetId : string;
  damageDealt : Z
}.

(** [results = { damage: [], effects: [], messages }] *)
Record Results : Type := mkResults {
  resultsDamage : list DamageEntry;
  resultsEffects : list string;
  resultsMessages : list Message
}.

(** The target of [executeEntityAttack]: an entity ([name], [ac], ...) that
    may carry its character sheet under [target.character]. *)
Record Target : Type := mkTarget {
  entity : Character;
  character : option Character
}.

(** [{ success, damage, critical }] *)
Record EntityAttackResult : Type := mkEntityAttackResult {
  success : bool;
  resultDamage : Z;
  critical : option bool
}.

Module CombatService.

Import DamageRegex.

Section Dice.

(** The samples [Math.random()] returns, in order. *)
Variable random : nat -> Q.

(** [Math.floor(Math.random() * sides) + 1] *)
Definition rollDie (sides : Z) : Eff Z :=
  fun w => (Qfloor (random (cursor w) * inject_Z sides) + 1,
            {| cursor := S (cursor w); console := console w;
               combatMessages := combatMessages w |}).

Definition rollD20 : Eff Z := rollDie 20.
Definition rollD8 : Eff Z := rollDie 8.
Definition rollD10 : Eff Z := rollDie 10.

(** The [for] loop of [rollDamage]: [n] iterations left. *)
Fixpoint rollLoop (n : nat) (dieSize : Z) (total : Z) : Eff Z :=
  match n with
  | O => ret total
  | S n' => let* face := rollDie dieSize in
            rollLoop n' dieSize (total + face)
  end.

(** [rollDamage(damageString)] ([CombatService.js], lines 287-300) *)
Definition rollDamage (damageString : string) : Eff Z :=
  match matchRegex damageString with
  | None => ret 0
  | Some (numDice, dieSize, bonus) =>
      let* total := rollLoop (Z.to_nat (parseInt numDice))
                             (parseInt dieSize) 0 in
      ret (total + orElse (parseInt <$> bonus) 0)
  end.

(** [character.level ? Math.ceil(character.level / 4) + 1 : 2] *)
Definition proficiencyBonus (character : Character) : Z :=
  if truthyNumber (level character)
  then ceilQuarter (default 0 (level character)) + 1
  else 2.

(** The ability that governs an attack. *)
Definition governingStat (weapon : Attack) : string :=
  if truthyString (stat weapon) then default "force" (stat weapon)
  else if bool_decide (category weapon = Some "ranged")
          || bool_decide (attackType weapon = Some "ranged")
          || (truthyNumber (range weapon) && (1 <? default 0 (range weapon)))
  then "dexterite"
  else "force".

(** [getAttackBonus(character, weapon)], the fuller text
    ([characterStore.js], lines 1033-1065) *)
Definition getAttackBonus (character : Character) (weapon : Attack) : Eff Z :=
  match attackBonus weapon with
  | Some bonus => ret bonus
  | None =>
      match stats character with
      | None =>
          let* _ := log "❌ Character.stats manquant dans getAttackBonus:" in
          ret 0
      | Some st =>
          let stat := governingStat weapon in
          match st !! stat with
          | None =>
              let* _ := log ("❌ Stat " +:+ stat +:+ " manquante pour character:") in
              ret (proficiencyBonus character)
          | Some statValue =>
              ret (getModifier statValue + proficiencyBonus character)
          end
      end
  end.

Definition pushMessage (results : Results) (m : Message) : Results :=
  {| resultsDamage := resultsDamage results;
     resultsEffects := resultsEffects results;
     resultsMessages := resultsMessages results ++ [m] |}.

Definition pushDamage (results : Results) (d : DamageEntry) : Results :=
  {| resultsDamage := resultsDamage results ++ [d];
     resultsEffects := resultsEffects results;
     resultsMessages := resultsMessages results |}.

(** [totalAttack >= target.ac]; with [target.ac] undefined the
    comparison is false. *)
Definition reaches (totalAttack : Z) (armor : option Z) : bool :=
  match armor with
  | Some a => a <=? totalAttack
  | None => false
  end.

(** The body of the [targets.forEach] of [executeAttack], in the fuller
    text: the bonus is the [getAttackBonus] above. *)
Definition attackTarget (attacker : Character) (weapon : Attack)
    (results : Results) (target : Character) : Eff (Outcome Results) :=
  let* attackRoll := rollD20 in
  let* attackBonus := getAttackBonus attacker weapon in
  let totalAttack := attackRoll + attackBonus in
  let criticalHit := attackRoll =? 20 in
  let hit := reaches totalAttack (ac target) || criticalHit in
  if hit then
    match damage weapon with
    | None => ret (Throws "TypeError: damageString is undefined")
    | Some damageString =>
        let* rolled := rollDamage damageString in
        if criticalHit then
          let damage := rolled * 2 in
          ret (Returns (pushDamage
             (pushMessage results
                (mkMessage ("💥 Coup critique ! " +:+ name attacker +:+ " inflige "
                              +:+ showZ damage +:+ " dégâts à " +:+ name target +:+ " !")
                           (Some "critical")))
             (mkDamageEntry (id target) damage)))
        else
          let damage := rolled in
          ret (Returns (pushDamage
             (pushMessage results
                (mkMessage ("⚔️ " +:+ name attacker +:+ " touche " +:+ name target
                              +:+ " et inflige " +:+ showZ damage +:+ " dégâts")
                           (Some "hit")))
             (mkDamageEntry (id target) damage)))
    end
  else
    ret (Returns (pushMessage results
           (mkMessage ("❌ " +:+ name attacker +:+ " manque " +:+ name target +:+ " ("
                         +:+ showZ totalAttack +:+ " vs CA "
                         +:+ from_option showZ "undefined" (ac target) +:+ ")")
                      (Some "miss")))).

(** [executeAttack(attacker, weapon, targets, results)], the fuller text
    ([characterStore.js], lines 934-970) *)
Fixpoint executeAttack (attacker : Character) (weapon : Attack)
    (targets : list Character) (results : Results) : Eff (Outcome Results) :=
  match targets with
  | [] => ret (Returns results)
  | target :: rest =>
      let* r := attackTarget attacker weapon results target in
      match r with
      | Returns results' => executeAttack attacker weapon rest results'
      | Throws e => ret (Throws e)
      | NotANumber => ret NotANumber
      end
  end.

(** [executeEntityAttack(attacker, attack, target, addCombatMessage)]
    ([characterStore.js], lines 1138-1204).
    [getAttackBonus] returns a number in this embedding, so the
    [isNaN(attackBonus)] exit is not taken; [targetAC] is [NaN] when the
    character sheet of the target has no [ac]. *)
Definition executeEntityAttack (attacker : option Character)
    (attack : option Attack) (target : option Target)
    : Eff EntityAttackResult :=
  match attacker, attack, target with
  | Some attacker, Some attack, Some target =>
      let targetName := name (entity target) in
      let fallen :=
        match character target with
        | Some sheet => currentHP sheet <=? 0
        | None => false
        end in
      if fallen then
        let* _ := log ("⚠️ " +:+ name attacker +:+ " tente d'attaquer "
                         +:+ targetName +:+ " qui est déjà mort") in
        let* _ := addCombatMessage
                    (name attacker +:+ " réalise que " +:+ targetName
                       +:+ " est déjà tombé au combat.") None in
        ret (mkEntityAttackResult false 0 None)
      else
        let* attackRoll := rollD20 in
        let* attackBonus := getAttackBonus attacker attack in
        let totalAttack := attackRoll + attackBonus in
        let criticalHit := attackRoll =? 20 in
        let targetAC :=
          match character target with
          | Some sheet => ac sheet
          | None => Some (orElse (ac (entity target)) 10)
          end in
        match targetAC with
        | None =>
            let* _ := log "❌ Target AC est NaN pour:" in
            ret (mkEntityAttackResult false 0 None)
        | Some targetAC =>
            let hit := (targetAC <=? totalAttack) || criticalHit in
            if hit then
              let* rolled :=
                if truthyString (damageDice attack) then
                  let* r := rollDamage (default "" (damageDice attack)) in
                  ret (r + orElse (damageBonus attack) 0)
                else if truthyString (damage attack) then
                  rollDamage (default "" (damage attack))
                else ret 1 in
              if criticalHit then
                let damage := rolled * 2 in
                let* _ := addCombatMessage
                  ("💥 Coup critique ! " +:+ name attacker +:+ " utilise "
                     +:+ attackName attack +:+ " et inflige " +:+ showZ damage
                     +:+ " dégâts à " +:+ targetName +:+ " !")
                  (Some "critical") in
                ret (mkEntityAttackResult true damage (Some criticalHit))
              else
                let damage := rolled in
                let* _ := addCombatMessage
                  ("⚔️ " +:+ name attacker +:+ " utilise " +:+ attackName attack
                     +:+ " et inflige " +:+ showZ damage +:+ " dégâts à "
                     +:+ targetName)
                  (Some (if bool_decide (type attacker = Enemy)
                         then "enemy-hit" else "companion-hit")) in
                ret (mkEntityAttackResult true damage (Some criticalHit))
            else
              let* _ := addCombatMessage
                ("❌ " +:+ name attacker +:+ " manque " +:+ targetName +:+ " avec "
                   +:+ attackName attack +:+ " (" +:+ showZ totalAttack
                   +:+ " vs CA " +:+ showZ targetAC +:+ ")")
                (Some "miss") in
              ret (mkEntityAttackResult false 0 None)
        end
  | _, _, _ =>
      let* _ := log "❌ Paramètres manquants pour executeEntityAttack" in
      ret (mkEntityAttackResult false 0 None)
  end.

End Dice.

(** *** Encounter initialisation *)

(** [{ type, count }], one group of an encounter; [count] is a number of
    enemies, a natural number. *)
Record Encounter : Type := mkEncounter {
  encounterType : string;
  count : nat
}.

(** [encounterData]; [enemies] may be missing. *)
Record EncounterData : Type := mkEncounterData {
  enemies : option (list Encounter)
}.

(** An entry of [enemyTemplates] ([data/enemies], not among the sources):
    the fields [createEnemiesFromEncounter] reads, and [level], which the
    spread [...template] carries over. *)
Record EnemyTemplate : Type := mkEnemyTemplate {
  templateName : string;
  templateLevel : option Z;
  templateCurrentHP : option Z;
  templateMaxHP : option Z;
  templateAC : option Z;
  templateStats : option (gmap string Z);
  templateAttacks : option (list Attack);
  templateImage : option string
}.

Section Registry.

(** The registry [enemyTemplates], a parameter of the embedding. *)
Variable enemyTemplates : gmap string EnemyTemplate.

(** The object built by the [map] callback of
    [createEnemiesFromEncounter]. *)
Definition enemyInstance (encounter : Encounter) (encounterIndex : nat)
    (template : EnemyTemplate) (index : nat) : Character :=
  {| id := encounterType encounter +:+ "_" +:+ showNat encounterIndex
             +:+ "_" +:+ showNat index;
     name := if (1 <? count encounter)%nat
             then templateName template +:+ " " +:+ showNat (index + 1)
             else templateName template;
     type := Enemy;
     level := templateLevel template;
     stats := Some (default ∅ (templateStats template));
     currentHP := default (default 10 (templateMaxHP template))
                          (templateCurrentHP template);
     maxHP := default 10 (templateMaxHP template);
     ac := Some (default 10 (templateAC template));
     attacks := default [] (templateAttacks template);
     image := if truthyString (templateImage template)
              then default "" (templateImage template) else "";
     isAlive := true;
     initiative := 0;
     hitDice := 0;
     hitDiceType := None;
     inventory := [] |}.

(** The callback of the [flatMap]: the instances of one group. *)
Definition expandEncounter (encounter : Encounter) (encounterIndex : nat)
    : Eff (list Character) :=
  match enemyTemplates !! encounterType encounter with
  | None =>
      let* _ := log ("Template non trouvé pour: " +:+ encounterType encounter) in
      ret []
  | Some template =>
      ret (map (enemyInstance encounter encounterIndex template)
               (seq 0 (count encounter)))
  end.

(** [encounterData.enemies.flatMap(callback)], from index
    [encounterIndex] on. *)
Fixpoint expandEncounters (encounters : list Encounter)
    (encounterIndex : nat) : Eff (list Character) :=
  match encounters with
  | [] => ret []
  | encounter :: rest =>
      let* here := expandEncounter encounter encounterIndex in
      let* more := expandEncounters rest (S encounterIndex) in
      ret (here ++ more)
  end.

(** [createEnemiesFromEncounter(encounterData)]
    ([CombatService.js], lines 37-66) *)
Definition createEnemiesFromEncounter (encounterData : option EncounterData)
    : Eff (Outcome (list Character)) :=
  match encounterData with
  | Some {| enemies := Some (encounter :: rest) |} =>
      let* created := expandEncounters (encounter :: rest) 0 in
      ret (Returns created)
  | _ => ret (Throws "Aucun ennemi défini dans la rencontre")
  end.

End Registry.

(** The comparison function given to [sort] in [rollInitiative]. *)
Definition compareInitiative (a b : Character) : Z :=
  if initiative b =? initiative a then
    if bool_decide (type a = Player) then -1
    else if bool_decide (type b = Player) then 1
    else if bool_decide (type a = Companion) then -1
    else if bool_decide (type b = Companion) then 1
    else 0
  else initiative b - initiative a.

(** [Array.prototype.sort(compare)]. ECMAScript requires the sort to be
    stable and, for a consistent comparison function, its result to be
    ordered by it; that fixes the result, which is the one of this
    insertion sort: an element moves behind a later one only when
    [compare] says it is greater. *)
Fixpoint insertSorted {A : Type} (compare : A -> A -> Z) (x : A)
    (sorted : list A) : list A :=
  match sorted with
  | [] => [x]
  | y :: rest =>
      if 0 <? compare x y then y :: insertSorted compare x rest
      else x :: y :: rest
  end.

Definition sort {A : Type} (compare : A -> A -> Z) (l : list A) : list A :=
  fold_right (insertSorted compare) [] l.

(** [{ ...playerCharacter, id: 'player', type: 'player', initiative,
      isAlive: true }] *)
Definition playerEntry (c : Character) (init : Z) : Character :=
  {| id := "player"; name := name c; type := Player; level := level c;
     stats := stats c; currentHP := currentHP c; maxHP := maxHP c;
     ac := ac c; attacks := attacks c; image := image c; isAlive := true;
     initiative := init; hitDice := hitDice c;
     hitDiceType := hitDiceType c; inventory := inventory c |}.

(** [{ ...playerCompanion, id: 'companion', type: 'companion', initiative,
      isAlive: true }] *)
Definition companionEntry (c : Character) (init : Z) : Character :=
  {| id := "companion"; name := name c; type := Companion; level := level c;
     stats := stats c; currentHP := currentHP c; maxHP := maxHP c;
     ac := ac c; attacks := attacks c; image := image c; isAlive := true;
     initiative := init; hitDice := hitDice c;
     hitDiceType := hitDiceType c; inventory := inventory c |}.

(** [{ ...enemy, initiative }] *)
Definition enemyEntry (c : Character) (init : Z) : Character :=
  {| id := id c; name := name c; type := type c; level := level c;
     stats := stats c; currentHP := currentHP c; maxHP := maxHP c;
     ac := ac c; attacks := attacks c; image := image c;
     isAlive := isAlive c; initiative := init; hitDice := hitDice c;
     hitDiceType := hitDiceType c; inventory := inventory c |}.

Section Initiative.

Variable random : nat -> Q.

(** [this.rollD20() + getModifier(c.stats.dexterite)]: a [TypeError]
    without [c.stats], [NaN] without [c.stats.dexterite]. *)
Definition initiativeRoll (c : Character) : Eff (Outcome Z) :=
  let* d20 := rollD20 random in
  match stats c with
  | None => ret (Throws "TypeError: c.stats is undefined")
  | Some st =>
      match st !! "dexterite" with
      | None => ret NotANumber
      | Some dexterite => ret (Returns (d20 + getModifier dexterite))
      end
  end.

(** [enemies.forEach(enemy => combatants.push(...))] *)
Fixpoint pushEnemies (enemies : list Character) (combatants : list Character)
    : Eff (Outcome (list Character)) :=
  match enemies with
  | [] => ret (Returns combatants)
  | enemy :: rest =>
      let? enemyInit := initiativeRoll enemy in
      pushEnemies rest (combatants ++ [enemyEntry enemy enemyInit])
  end.

(** [rollInitiative(playerCharacter, playerCompanion, enemies)]
    ([CombatService.js], lines 71-123) *)
Definition rollInitiative (playerCharacter playerCompanion : option Character)
    (enemies : list Character) : Eff (Outcome (list Character)) :=
  match playerCharacter with
  | Some {| stats := None |} | None =>
      let* _ := log "CombatService: playerCharacter ou playerCharacter.stats manquant" in
      ret (Throws "Personnage joueur requis pour initialiser le combat")
  | Some playerCharacter =>
      let? playerInit := initiativeRoll playerCharacter in
      let combatants := [playerEntry playerCharacter playerInit] in
      let? combatants :=
        match playerCompanion with
        | Some playerCompanion =>
            let? companionInit := initiativeRoll playerCompanion in
            ret (Returns (combatants ++ [companionEntry playerCompanion companionInit]))
        | None => ret (Returns combatants)
        end in
      let? combatants := pushEnemies enemies combatants in
      ret (Returns (sort compareInitiative combatants))
  end.

End Initiative.

(** [isDefeated(character)] *)
Definition isDefeated (character : Character) : bool :=
  currentHP character <=? 0.

(** [checkCombatEnd(playerCharacter, playerCompanion, enemies)]
    ([CombatService.js], lines 319-333); the result is ['defeat'],
    ['victory'] or [null]. *)
Definition checkCombatEnd (playerCharacter : Character)
    (playerCompanion : option Character) (enemies : list Character)
    : option string :=
  let playerDefeated := isDefeated playerCharacter in
  let companionDefeated :=
    match playerCompanion with
    | Some c => isDefeated c
    | None => true
    end in
  let allEnemiesDefeated := forallb isDefeated enemies in
  if playerDefeated && companionDefeated then Some "defeat"
  else if allEnemiesDefeated then Some "victory"
  else None.

End CombatService.

(** The [getAttackBonus] of [src/services/CombatService.js], and the
    [executeAttack] that calls it. *)
Module CombatServiceShort.

(** [getAttackBonus(character, weapon)] ([CombatService.js], lines
    273-282): [character.stats] is dereferenced
    without a test, and [Math.ceil(character.level / 4)] and
    [getModifier] are [NaN] on [undefined]. *)
Definition getAttackBonus (character : Character) (weapon : Attack)
    : Outcome Z :=
  match stats character with
  | None => Throws "TypeError: character.stats is undefined"
  | Some st =>
      let ability :=
        if match range weapon with Some r => 5 <? r | None => false end
        then "dexterite" else "force" in
      match level character, st !! ability with
      | Some l, Some score => Returns (getModifier score + (ceilQuarter l + 1))
      | _, _ => NotANumber
      end
  end.

(** [attackRoll + attackBonus]: [None] stands for [NaN]. The callers draw
    the d20 before they ask for the bonus, and a bonus that throws ends
    them. *)
Definition totalOf (attackRoll : Z) (attackBonus : Z) : option Z :=
  Some (attackRoll + attackBonus).

(** [totalAttack >= target.ac]: false when [totalAttack] is [NaN] or
    [target.ac] is undefined. *)
Definition reaches (totalAttack : option Z) (armor : option Z) : bool :=
  match totalAttack with
  | Some total => CombatService.reaches total armor
  | None => false
  end.

(** A number in a template literal. *)
Definition showNumber (n : option Z) : string :=
  match n with
  | Some z => showZ z
  | None => "NaN"
  end.

Section Dice.

Variable random : nat -> Q.

(** What [executeAttack] does for one target once the d20 and the total
    are known. *)
Definition resolveAttack (attacker : Character) (weapon : Attack)
    (results : Results) (target : Character) (attackRoll : Z)
    (totalAttack : option Z) : Eff (Outcome Results) :=
  let criticalHit := attackRoll =? 20 in
  let hit := reaches totalAttack (ac target) || criticalHit in
  if hit then
    match damage weapon with
    | None => ret (Throws "TypeError: damageString is undefined")
    | Some damageString =>
        let* rolled := CombatService.rollDamage random damageString in
        if criticalHit then
          let damage := rolled * 2 in
          ret (Returns (CombatService.pushDamage
             (CombatService.pushMessage results
                (mkMessage ("💥 Coup critique ! " +:+ name attacker +:+ " inflige "
                              +:+ showZ damage +:+ " dégâts à " +:+ name target +:+ " !")
                           (Some "critical")))
             (mkDamageEntry (id target) damage)))
        else
          let damage := rolled in
          ret (Returns (CombatService.pushDamage
             (CombatService.pushMessage results
                (mkMessage ("⚔️ " +:+ name attacker +:+ " touche " +:+ name target
                              +:+ " et inflige " +:+ showZ damage +:+ " dégâts")
                           (Some "hit")))
             (mkDamageEntry (id target) damage)))
    end
  else
    ret (Returns (CombatService.pushMessage results
           (mkMessage ("❌ " +:+ name attacker +:+ " manque " +:+ name target +:+ " ("
                         +:+ showNumber totalAttack +:+ " vs CA "
                         +:+ from_option showZ "undefined" (ac target) +:+ ")")
                      (Some "miss")))).

(** The body of the [targets.forEach] of [executeAttack]
    ([CombatService.js], lines 220-252): the d20 is drawn, then the bonus
    is asked for, which may throw or be [NaN]. *)
Definition attackTarget (attacker : Character) (weapon : Attack)
    (results : Results) (target : Character) : Eff (Outcome Results) :=
  let* attackRoll := CombatService.rollD20 random in
  match getAttackBonus attacker weapon with
  | Throws e => ret (Throws e)
  | Returns attackBonus =>
      resolveAttack attacker weapon results target attackRoll
                    (totalOf attackRoll attackBonus)
  | NotANumber =>
      resolveAttack attacker weapon results target attackRoll None
  end.

(** [executeAttack(attacker, weapon, targets, results)]
    ([CombatService.js], lines 219-255) *)
Fixpoint executeAttack (attacker : Character) (weapon : Attack)
    (targets : list Character) (results : Results) : Eff (Outcome Results) :=
  match targets with
  | [] => ret (Returns results)
  | target :: rest =>
      let* r := attackTarget attacker weapon results target in
      match r with
      | Returns results' => executeAttack attacker weapon rest results'
      | Throws e => ret (Throws e)
      | NotANumber => ret NotANumber
      end
  end.

End Dice.

End CombatServiceShort.

(** ** [CombatTurnManager.jsx] *)

Module CombatTurnManager.

(** The [do ... while] loop of [skipToNextAliveCombatant]; [fuel] bounds
    the number of iterations. *)
Fixpoint skipLoop (fuel : nat) (turnOrder : list Character)
    (nextIndex attempts : nat) : option nat :=
  match fuel with
  | O => None
  | S fuel' =>
      let maxAttempts := length turnOrder in
      let nextIndex := ((nextIndex + 1) mod length turnOrder)%nat in
      let attempts := S attempts in
      if (maxAttempts <=? attempts)%nat then None
      else
        match turnOrder !! nextIndex with
        | Some nextCombatant =>
            if 0 <? currentHP nextCombatant then Some nextIndex
            else if (attempts <? maxAttempts)%nat
                 then skipLoop fuel' turnOrder nextIndex attempts
                 else None
        | None =>
            if (attempts <? maxAttempts)%nat
            then skipLoop fuel' turnOrder nextIndex attempts
            else None
        end
  end.

(** [skipToNextAliveCombatant()] ([CombatTurnManager.jsx], lines 37-58),
    for the props [currentTurn] and [turnOrder]; the result is an index or [null]. The loop is given more
    iterations than it can use (see [skipLoop_fuel]). *)
Definition skipToNextAliveCombatant (currentTurn : nat)
    (turnOrder : list Character) : option nat :=
  skipLoop (S (length turnOrder)) turnOrder currentTurn 0.

End CombatTurnManager.

(** ** [characterStore.js] *)

Module CharacterStore.

(** The part of the store that holds characters. *)
Record Store : Type := mkStore {
  playerCharacter : option Character;
  playerCompanion : option Character;
  selectedCharacter : option Character
}.

(** [{ ...character, currentHP: newHP, hitDice: character.hitDice - 1 }] *)
Definition withHitDieSpent (c : Character) (newHP : Z) : Character :=
  {| id := id c; name := name c; type := type c; level := level c;
     stats := stats c; currentHP := newHP; maxHP := maxHP c; ac := ac c;
     attacks := attacks c; image := image c; isAlive := isAlive c;
     initiative := initiative c; hitDice := hitDice c - 1;
     hitDiceType := hitDiceType c; inventory := inventory c |}.

(** [updatedCharacter.currentHP = hp] *)
Definition withCurrentHP (c : Character) (hp : Z) : Character :=
  {| id := id c; name := name c; type := type c; level := level c;
     stats := stats c; currentHP := hp; maxHP := maxHP c; ac := ac c;
     attacks := attacks c; image := image c; isAlive := isAlive c;
     initiative := initiative c; hitDice := hitDice c;
     hitDiceType := hitDiceType c; inventory := inventory c |}.

(** [{ ...character, inventory: newInventory }] *)
Definition withInventory (c : Character) (inv : list Item) : Character :=
  {| id := id c; name := name c; type := type c; level := level c;
     stats := stats c; currentHP := currentHP c; maxHP := maxHP c;
     ac := ac c; attacks := attacks c; image := image c;
     isAlive := isAlive c; initiative := initiative c;
     hitDice := hitDice c; hitDiceType := hitDiceType c;
     inventory := inv |}.

(** [targetCharacter === 'player' ? state.playerCharacter
      : state.playerCompanion] *)
Definition targeted (targetCharacter : string) (state : Store)
    : option Character :=
  if bool_decide (targetCharacter = "player")
  then playerCharacter state else playerCompanion state.

(** [set(syncCharacter({ playerCharacter: c }))] and
    [set({ playerCharacter: c, selectedCharacter: c })] *)
Definition setPlayer (state : Store) (c : Character) : Store :=
  {| playerCharacter := Some c; playerCompanion := playerCompanion state;
     selectedCharacter := Some c |}.

(** [set({ playerCompanion: c })] *)
Definition setCompanion (state : Store) (c : Character) : Store :=
  {| playerCharacter := playerCharacter state; playerCompanion := Some c;
     selectedCharacter := selectedCharacter state |}.

Definition setTargeted (targetCharacter : string) (state : Store)
    (c : Character) : Store :=
  if bool_decide (targetCharacter = "player")
  then setPlayer state c else setCompanion state c.

Section HitDice.

Variable random : nat -> Q.

(** [spendHitDie(targetCharacter)] ([characterStore.js], lines 122-150) *)
Definition spendHitDie (targetCharacter : string) (state : Store)
    : Eff (Outcome Store) :=
  match targeted targetCharacter state with
  | None => ret (Returns state)
  | Some character =>
      if hitDice character <=? 0 then ret (Returns state)
      else if maxHP character <=? currentHP character then ret (Returns state)
      else
        let hitDieSize := orElse (hitDiceType character) 8 in
        match stats character with
        | None => ret (Throws "TypeError: character.stats is undefined")
        | Some st =>
            match st !! "constitution" with
            | None => ret NotANumber
            | Some constitution =>
                let constitutionModifier := (constitution - 10) / 2 in
                let* roll := CombatService.rollDie random hitDieSize in
                let healing := Z.max 1 (roll + constitutionModifier) in
                let newHP := Z.min (maxHP character)
                                   (currentHP character + healing) in
                let updatedCharacter := withHitDieSpent character newHP in
                ret (Returns (setTargeted targetCharacter state updatedCharacter))
            end
        end
  end.

End HitDice.

(** [item.id || item.name || item.nom] *)
Definition itemKey (i : Item) : option string :=
  if truthyString (item_id i) then item_id i
  else if truthyString (itemName i) then itemName i
  else nom i.

(** [inventory.findIndex(item => key(item) === itemId)], [None] for -1. *)
Fixpoint findIndex (itemId : string) (inv : list Item) : option nat :=
  match inv with
  | [] => None
  | i :: rest =>
      if bool_decide (itemKey i = Some itemId) then Some O
      else S <$> findIndex itemId rest
  end.

(** [{ ...item, quantity: q }] *)
Definition withQuantity (i : Item) (q : Z) : Item :=
  {| item_id := item_id i; itemName := itemName i; nom := nom i;
     itemType := itemType i; consumable := consumable i;
     quantity := Some q; effects := effects i |}.

(** [removeItemFromInventory(itemId, targetCharacter, quantityToRemove)]
    ([characterStore.js], lines 476-509) *)
Definition removeItemFromInventory (itemId : string)
    (targetCharacter : string) (quantityToRemove : Z) (state : Store) : Store :=
  match targeted targetCharacter state with
  | None => state
  | Some character =>
      let currentInventory := inventory character in
      match findIndex itemId currentInventory with
      | None => state
      | Some itemIndex =>
          match currentInventory !! itemIndex with
          | None => state
          | Some item =>
              let currentQuantity := orElse (quantity item) 1 in
              let newInventory :=
                if currentQuantity <=? quantityToRemove
                then delete itemIndex currentInventory
                else <[itemIndex := withQuantity item (currentQuantity - quantityToRemove)]>
                       currentInventory in
              setTargeted targetCharacter state
                          (withInventory character newInventory)
          end
      end
  end.

(** [itemData.message]: a text, or a function without arguments, given
    by what its call does: it returns a text ([inl]) or throws an error
    with a message ([inr]). *)
Inductive ItemMessage : Type :=
| MessageText (text : string)
| MessageFunction (call : string + string).

(** An entry of [items] ([data/items], not among the sources): [use]
    returns the updated character or throws. *)
Record ItemData : Type := mkItemData {
  use : option (Character -> Character + string);
  dataType : option string;
  message : ItemMessage
}.

(** [{ success, message }] *)
Record UseResult : Type := mkUseResult {
  useSuccess : bool;
  useMessage : string
}.

(** The callback of [item.effects.forEach]: [character] is the character
    read from the store, [acc] holds [updatedCharacter] and [message]. *)
Definition applyEffect (character : Character)
    (acc : Character * string) (effect : Effect) : Eff (Character * string) :=
  if bool_decide (effectType effect = "heal") then
    let healAmount := value effect in
    ret (withCurrentHP (fst acc)
           (Z.min (maxHP character) (currentHP character + healAmount)),
         "Vous récupérez " +:+ showZ healAmount +:+ " PV")
  else
    let* _ := log ("Unknown item effect type: " +:+ effectType effect) in
    ret acc.

Fixpoint applyEffects (character : Character) (acc : Character * string)
    (effects : list Effect) : Eff (Character * string) :=
  match effects with
  | [] => ret acc
  | effect :: rest =>
      let* acc' := applyEffect character acc effect in
      applyEffects character acc' rest
  end.

Section Items.

(** The registry [items], a parameter of the embedding. *)
Variable items : gmap string ItemData.

Definition itemsAt (key : option string) : option ItemData :=
  key ≫= (items !!.).

(** [items[itemId] || items[item.id] || items[item.name] ||
      items[item.nom]] *)
Definition lookupItemData (itemId : string) (item : Item) : option ItemData :=
  match items !! itemId with
  | Some d => Some d
  | None =>
      match itemsAt (item_id item) with
      | Some d => Some d
      | None =>
          match itemsAt (itemName item) with
          | Some d => Some d
          | None => itemsAt (nom item)
          end
      end
  end.

(** [useItem(itemId, targetCharacter)] ([characterStore.js], lines
    511-589) *)
Definition useItem (itemId : string) (targetCharacter : string)
    (state : Store) : Eff (UseResult * Store) :=
  match targeted targetCharacter state with
  | None => ret (mkUseResult false "Personnage non trouvé", state)
  | Some character =>
      match find (fun i => bool_decide (itemKey i = Some itemId))
                 (inventory character) with
      | None => ret (mkUseResult false "Objet non trouvé dans l'inventaire", state)
      | Some item =>
          match lookupItemData itemId item with
          | Some {| use := Some useFn; dataType := ty; message := msg |} =>
              match useFn character with
              | inl updatedCharacter =>
                  let state1 := setTargeted targetCharacter state updatedCharacter in
                  let state2 :=
                    if bool_decide (ty = Some "consumable")
                    then removeItemFromInventory itemId targetCharacter 1 state1
                    else state1 in
                  match msg with
                  | MessageText message
                  | MessageFunction (inl message) =>
                      ret (mkUseResult true message, state2)
                  | MessageFunction (inr errorMessage) =>
                      let* _ := log "Erreur lors de l'utilisation de l'objet:" in
                      ret (mkUseResult false ("Erreur: " +:+ errorMessage),
                           state2)
                  end
              | inr errorMessage =>
                  let* _ := log "Erreur lors de l'utilisation de l'objet:" in
                  ret (mkUseResult false ("Erreur: " +:+ errorMessage), state)
              end
          | _ =>
              match effects item with
              | Some itemEffects =>
                  let message0 :=
                    (if truthyString (itemName item)
                     then default "" (itemName item)
                     else default "undefined" (nom item))
                    +:+ " utilisé" in
                  let* updated := applyEffects character (character, message0)
                                               itemEffects in
                  let state1 := setTargeted targetCharacter state (fst updated) in
                  let state2 :=
                    if consumable item
                       || bool_decide (itemType item = Some "consumable")
                    then removeItemFromInventory itemId targetCharacter 1 state1
                    else state1 in
                  ret (mkUseResult true (snd updated), state2)
              | None =>
                  ret (mkUseResult false "Cet objet ne peut pas être utilisé", state)
              end
          end
      end
  end.

End Items.

End CharacterStore.

(** ** Vocabulary of the statements *)

(** Sample characters used by the concrete lemmas. *)
Definition sampleCharacter (n : string) (t : CombatantType) (hp hpmax : Z)
    : Character :=
  {| id := n; name := n; type := t; level := Some 1;
     stats := Some {[ "force" := 14; "dexterite" := 12; "constitution" := 13 ]};
     currentHP := hp; maxHP := hpmax; ac := Some 12; attacks := [];
     image := ""; isAlive := true; initiative := 0;
     hitDice := 1; hitDiceType := Some 8; inventory := [] |}.

(** The defeat condition of the claim. *)
Definition defeatCondition (p : Character) (c : option Character) : Prop :=
  currentHP p <= 0 /\
  (c = None \/ exists c', c = Some c' /\ currentHP c' <= 0).

(** The victory condition of the claim. *)
Definition victoryCondition (enemies : list Character) : Prop :=
  Forall (fun e => currentHP e <= 0) enemies.

(** The entry at index [i] of a turn order is not alive. *)
Definition fallenAt (turnOrder : list Character) (i : nat) : Prop :=
  forall c, turnOrder !! i = Some c -> currentHP c <= 0.

(** The entry at index [i] of a turn order is alive. *)
Definition aliveAt (turnOrder : list Character) (i : nat) : Prop :=
  exists c, turnOrder !! i = Some c /\ 0 < currentHP c.

(** *** The pattern of a damage descriptor, as the specification words it *)

Module DamagePattern.

Import DamageRegex.

Fixpoint allDigits (s : string) : bool :=
  match s with
  | EmptyString => true
  | String c rest => isDigit c && allDigits rest
  end.

(** [\d+]: one digit or more. *)
Definition number (s : string) : Prop :=
  isEmpty s = false /\ allDigits s = true.

(** The words of [\d+d\d+(\+\d+)?]. *)
Inductive MatchesPattern : string -> Prop :=
| matches_dice (n m : string) :
    number n -> number m -> MatchesPattern (n +:+ "d" +:+ m)
| matches_dice_bonus (n m b : string) :
    number n -> number m -> number b ->
    MatchesPattern (n +:+ "d" +:+ m +:+ "+" +:+ b).

(** The descriptor matches the pattern: some part of it is a word of the
    pattern (the pattern carries no anchor). *)
Definition Occurs (s : string) : Prop :=
  exists pre w post, s = pre +:+ w +:+ post /\ MatchesPattern w.

(** No digit at the head of [s]. *)
Definition startsNonDigit (s : string) : Prop :=
  match s with
  | EmptyString => True
  | String c _ => isDigit c = false
  end.

End DamagePattern.

(** *** Dice *)

(** The face shown by a die of [sides] sides on the [i]-th sample. *)
Definition face (random : nat -> Q) (sides : Z) (i : nat) : Z :=
  Qfloor (random i * inject_Z sides) + 1.

(** The sum of [n] rolls of a die of [sides] sides, from sample [start] on. *)
Fixpoint sumOfRolls (random : nat -> Q) (sides : Z) (start n : nat) : Z :=
  match n with
  | O => 0
  | S n' => face random sides start + sumOfRolls random sides (S start) n'
  end.

(** The world after [n] more samples were drawn. *)
Definition advance (n : nat) (w : World) : World :=
  {| cursor := n + cursor w; console := console w;
     combatMessages := combatMessages w |}.

(** A sample sequence of [Math.random()]: every sample is 1/2, so that a d6
    shows 4 and a d20 shows 11. *)
Definition halves : nat -> Q := fun _ => 1 # 2.

(** A world in which nothing happened yet. *)
Definition freshWorld : World :=
  {| cursor := 0; console := []; combatMessages := [] |}.

(** *** Messages *)


(** The message [executeEntityAttack] gives for a target that has fallen. *)
Definition alreadyFallenMessage (attacker : Character) (target : Target)
    : Message :=
  mkMessage (name attacker +:+ " réalise que " +:+ name (entity target)
               +:+ " est déjà tombé au combat.")
            None.

(** *** Encounters *)

(** The enemy groups of an encounter; none when [encounterData] or its
    [enemies] is missing. *)
Definition encounterGroups (encounterData : option CombatService.EncounterData)
    : list CombatService.Encounter :=
  match encounterData with
  | Some {| CombatService.enemies := Some groups |} => groups
  | _ => []
  end.

(** The group's type key is in the registry. *)
Definition knownGroup (enemyTemplates : gmap string CombatService.EnemyTemplate)
    (g : CombatService.Encounter) : bool :=
  bool_decide (is_Some (enemyTemplates !! CombatService.encounterType g)).

(** The console line for a group whose type key is not in the registry. *)
Definition missingTemplateLine (g : CombatService.Encounter) : string :=
  "Template non trouvé pour: " +:+ CombatService.encounterType g.

(** A registry with one template, and an encounter of two goblins and of
    three creatures the registry does not know. *)
Definition sampleTemplates : gmap string CombatService.EnemyTemplate :=
  {[ "gobelin" :=
       CombatService.mkEnemyTemplate "Gobelin" None None (Some 7) (Some 13)
         (Some {[ "force" := 8; "dexterite" := 14 ]}) None None ]}.

Definition sampleEncounter : option CombatService.EncounterData :=
  Some (CombatService.mkEncounterData
          (Some [CombatService.mkEncounter "inconnu" 3;
                 CombatService.mkEncounter "gobelin" 2])).

(** *** Turn order *)



(** The dexterity score of a combatant, when it has one. *)
Definition dexterityOf (c : Character) : option Z :=
  stats c ≫= (fun st => st !! "dexterite").

Definition hasDexterity (c : Character) : Prop := is_Some (dexterityOf c).

(** The initiative of [c] when its d20 is the [i]-th sample: d20 plus the
    dexterity modifier. *)
Definition rolledInitiative (random : nat -> Q) (i : nat) (c : Character) : Z :=
  face random 20 i + getModifier (default 0 (dexterityOf c)).

(** The entries of the enemies, who roll from sample [start] on, in the
    order they are given. *)
Fixpoint enemyEntries (random : nat -> Q) (start : nat)
    (enemies : list Character) : list Character :=
  match enemies with
  | [] => []
  | e :: rest =>
      CombatService.enemyEntry e (rolledInitiative random start e)
        :: enemyEntries random (S start) rest
  end.

(** All the entries before they are sorted: the player, the companion if
    there is one, the enemies. *)
Definition combatantEntries (random : nat -> Q) (start : nat) (p : Character)
    (c : option Character) (enemies : list Character) : list Character :=
  match c with
  | Some c =>
      CombatService.playerEntry p (rolledInitiative random start p)
        :: CombatService.companionEntry c (rolledInitiative random (S start) c)
        :: enemyEntries random (S (S start)) enemies
  | None =>
      CombatService.playerEntry p (rolledInitiative random start p)
        :: enemyEntries random (S start) enemies
  end.




(** A sequence of samples on which the first two d20s show 11 and the
    following ones 10. *)
Definition tiedRolls : nat -> Q :=
  fun i => if (i <? 2)%nat then 1 # 2 else 9 # 20.

(** Two goblins with dexterity 14. *)
Definition sampleGoblins : list Character :=
  [ {| id := "gobelin_0_0"; name := "Gobelin 1"; type := Enemy; level := None;
       stats := Some {[ "force" := 8; "dexterite" := 14 ]}; currentHP := 7;
       maxHP := 7; ac := Some 13; attacks := []; image := ""; isAlive := true;
       initiative := 0; hitDice := 0; hitDiceType := None; inventory := [] |};
    {| id := "gobelin_0_1"; name := "Gobelin 2"; type := Enemy; level := None;
       stats := Some {[ "force" := 8; "dexterite" := 14 ]}; currentHP := 7;
       maxHP := 7; ac := Some 13; attacks := []; image := ""; isAlive := true;
       initiative := 0; hitDice := 0; hitDiceType := None; inventory := [] |} ].

(** *** Hit points in the character store *)





(** The character has a constitution score. *)
Definition hasConstitution (c : Character) : Prop :=
  is_Some (stats c ≫= (fun st => st !! "constitution")).



(** A store with a wounded player who owns a potion that heals 50. *)
Definition sampleStore : CharacterStore.Store :=
  let potion :=
    {| item_id := Some "potion"; itemName := Some "Potion de soins";
       nom := None; itemType := Some "consumable"; consumable := true;
       quantity := Some 2; effects := Some [mkEffect "heal" 50] |} in
  let hero :=
    {| id := "player"; name := "Elarion"; type := Player; level := Some 3;
       stats := Some {[ "force" := 14; "dexterite" := 12; "constitution" := 13 ]};
       currentHP := 4; maxHP := 24; ac := Some 15; attacks := []; image := "";
       isAlive := true; initiative := 0; hitDice := 3; hitDiceType := Some 10;
       inventory := [potion] |} in
  {| CharacterStore.playerCharacter := Some hero;
     CharacterStore.playerCompanion := None;
     CharacterStore.selectedCharacter := Some hero |}.

(* ===================================================================== *)
(** ** More of [CombatTurnManager.jsx]                                    *)
(* ===================================================================== *)

(** The rest of the component: the props [onPhaseChange] and [onNextTurn]
    and the timers are returned as the list of the calls made, in order;
    the messages go to the combat log of the world. An entry of [turnOrder]
    is read as a [Target]: an entity that may carry a [character]. *)
Module TurnManager.

(** What a timer runs when it fires. *)
Inductive Scheduled : Type :=
| RunCompanionTurn (companion : Target) (* handleCompanionTurn(currentCombatant) *)
| RunEnemyTurn (enemy : Target)         (* handleEnemyTurn(currentCombatant) *)
| AdvanceTurn.                          (* onNextTurn(); onPhaseChange('combat') *)

(** A call of a prop or of [setTimeout]. *)
Inductive Call : Type :=
| OnPhaseChange (phase : string)
| OnNextTurn
| SetTimeout (callback : Scheduled) (delay : Z).

(** [getCurrentCombatant()] (lines 22-27) *)
Definition getCurrentCombatant {A : Type} (currentTurn : nat)
    (turnOrder : list A) : option A :=
  if (length turnOrder =? 0)%nat || (length turnOrder <=? currentTurn)%nat
  then None
  else turnOrder !! currentTurn.

(** [isCurrentCombatantAlive()] (lines 30-34) *)
Definition isCurrentCombatantAlive (currentTurn : nat)
    (turnOrder : list Target) : bool :=
  match getCurrentCombatant currentTurn turnOrder with
  | None => false
  | Some combatant => 0 <? currentHP (entity combatant)
  end.

(** [combatant.type === 'player' || combatant.type === 'companion'] *)
Definition isAlly (combatant : Target) : bool :=
  bool_decide (type (entity combatant) = Player)
  || bool_decide (type (entity combatant) = Companion).

(** The allies an enemy may attack: [turnOrder.filter(...)] (lines
    132-135 and 207-210). *)
Definition possibleTargets (turnOrder : list Target) : list Target :=
  List.filter (fun combatant => isAlly combatant
                                && (0 <? currentHP (entity combatant)))
              turnOrder.

(** [possibleTargets.find(t => t.type === 'player') || possibleTargets[0]]
    (line 144) *)
Definition chooseTarget (turnOrder : list Target) : option Target :=
  match find (fun t => bool_decide (type (entity t) = Player))
             (possibleTargets turnOrder) with
  | Some t => Some t
  | None => head (possibleTargets turnOrder)
  end.

(** [handleCompanionTurn(companion)] (lines 106-115) *)
Definition handleCompanionTurn (companion : Target) : Eff (list Call) :=
  let* _ := addCombatMessage
              (name (entity companion)
                 +:+ " observe la situation et attend le bon moment.") None in
  ret [SetTimeout AdvanceTurn 1000].

Section EnemyTurn.

Variable random : nat -> Q.

(** What [executeEnemyAttack] does once the d20 and the total are
    known. *)
Definition resolveEnemyAttack (enemy : Target) (attack : Attack)
    (target : Target) (attackRoll : Z) (totalAttack : option Z)
    : Eff (Outcome (list Call)) :=
  let criticalHit := attackRoll =? 20 in
  let hit := CombatServiceShort.reaches totalAttack (ac (entity target))
             || criticalHit in
  if hit then
    match damage attack with
    | None => ret (Throws "TypeError: damageString is undefined")
    | Some damageString =>
        let* rolled := CombatService.rollDamage random damageString in
        let* _ :=
          if criticalHit then
            addCombatMessage
              ("💥 Coup critique ! " +:+ name (entity enemy) +:+ " utilise "
                 +:+ attackName attack +:+ " et inflige "
                 +:+ showZ (rolled * 2) +:+ " dégâts à "
                 +:+ name (entity target) +:+ " !")
              (Some "critical")
          else
            addCombatMessage
              ("⚔️ " +:+ name (entity enemy) +:+ " utilise "
                 +:+ attackName attack +:+ " et inflige " +:+ showZ rolled
                 +:+ " dégâts à " +:+ name (entity target))
              (Some "enemy-hit") in
        ret (Returns [SetTimeout AdvanceTurn 2000])
    end
  else
    let* _ := addCombatMessage
      ("❌ " +:+ name (entity enemy) +:+ " manque " +:+ name (entity target)
         +:+ " avec " +:+ attackName attack +:+ " ("
         +:+ CombatServiceShort.showNumber totalAttack
         +:+ " vs CA " +:+ from_option showZ "undefined" (ac (entity target))
         +:+ ")")
      (Some "miss") in
    ret (Returns [SetTimeout AdvanceTurn 2000]).

(** [executeEnemyAttack(enemy, attack, target)] (lines 151-190); [attack]
    is undefined when the index drawn by [handleEnemyTurn] is outside the
    list. The component imports [services/CombatService]: the bonus is
    the one of [Module CombatServiceShort], which may throw or be [NaN]. *)
Definition executeEnemyAttack (enemy : Target) (attack : option Attack)
    (target : Target) : Eff (Outcome (list Call)) :=
  let* attackRoll := CombatService.rollD20 random in
  match attack with
  | None => ret (Throws "TypeError: weapon is undefined")
  | Some attack =>
      match CombatServiceShort.getAttackBonus (entity enemy) attack with
      | Throws e => ret (Throws e)
      | Returns attackBonus =>
          resolveEnemyAttack enemy attack target attackRoll
            (CombatServiceShort.totalOf attackRoll attackBonus)
      | NotANumber =>
          resolveEnemyAttack enemy attack target attackRoll None
      end
  end.

(** [Math.random()] *)
Definition mathRandom : Eff Q :=
  fun w => (random (cursor w),
            {| cursor := S (cursor w); console := console w;
               combatMessages := combatMessages w |}).

(** [array[Math.floor(Math.random() * array.length)]] *)
Definition randomElement {A : Type} (l : list A) : Eff (option A) :=
  let* sample := mathRandom in
  let index := Qfloor (sample * inject_Z (Z.of_nat (length l))) in
  ret (if index <? 0 then None else l !! Z.to_nat index).

(** [handleEnemyTurn(enemy)] (lines 118-148), with the prop [turnOrder] *)
Definition handleEnemyTurn (turnOrder : list Target) (enemy : Target)
    : Eff (Outcome (list Call)) :=
  match attacks (entity enemy) with
  | [] =>
      let* _ := addCombatMessage
                  (name (entity enemy) +:+ " n'a pas d'attaque disponible.")
                  None in
      ret (Returns [SetTimeout AdvanceTurn 1000])
  | _ :: _ =>
      let* attack := randomElement (attacks (entity enemy)) in
      match chooseTarget turnOrder with
      | None => ret (Returns [OnPhaseChange "victory"])
      | Some target => executeEnemyAttack enemy attack target
      end
  end.

End EnemyTurn.

(** The effect that starts a turn (lines 61-103), for the props [phase],
    [currentTurn] and [turnOrder]. *)
Definition turnEffect (phase : string) (currentTurn : nat)
    (turnOrder : list Target) : Eff (list Call) :=
  let* _ := log ("🎮 CombatTurnManager - phase actuelle: " +:+ phase) in
  if negb (bool_decide (phase = "combat")) && negb (bool_decide (phase = "turn"))
  then ret []
  else
    let* _ := log "👤 Current combattant:" in
    let* _ := log ("✅ Is alive: "
                     +:+ (if isCurrentCombatantAlive currentTurn turnOrder
                          then "true" else "false")) in
    match getCurrentCombatant currentTurn turnOrder with
    | None => ret []
    | Some currentCombatant =>
        if negb (isCurrentCombatantAlive currentTurn turnOrder) then ret []
        else
          let turnStart :=
            addCombatMessage
              ("C'est au tour de " +:+ name (entity currentCombatant))
              (Some "turn-start") in
          match type (entity currentCombatant) with
          | Player =>
              let* _ := turnStart in
              ret [OnPhaseChange "player-turn"]
          | Companion =>
              match character currentCombatant with
              | None =>
                  let* _ := log "Tour de compagnon mais compagnon inexistant, passage au tour suivant" in
                  ret [OnNextTurn]
              | Some _ =>
                  let* _ := turnStart in
                  ret [OnPhaseChange "companion-turn";
                       SetTimeout (RunCompanionTurn currentCombatant) 1000]
              end
          | Enemy =>
              let* _ := turnStart in
              ret [OnPhaseChange "enemy-turn";
                   SetTimeout (RunEnemyTurn currentCombatant) 1500]
          end
    end.

(** The effect that ends the combat (lines 193-216), for the props [phase]
    and [turnOrder] and the [enemies] of the combat store. *)
Definition endOfCombatEffect (phase : string)
    (enemies : option (list Character)) (turnOrder : list Target)
    : Eff (list Call) :=
  if bool_decide (phase = "victory") || bool_decide (phase = "defeat")
  then ret []
  else
    match enemies with
    | None => ret []
    | Some enemies =>
        let aliveEnemies := List.filter (fun e => 0 <? currentHP e) enemies in
        if (length aliveEnemies =? 0)%nat then
          let* _ := addCombatMessage
                      "🎉 Victoire ! Tous les ennemis ont été vaincus !"
                      (Some "victory") in
          ret [OnPhaseChange "victory"]
        else if (length (possibleTargets turnOrder) =? 0)%nat then
          let* _ := addCombatMessage
                      "💀 Défaite... Tous les alliés ont été vaincus."
                      (Some "defeat") in
          ret [OnPhaseChange "defeat"]
        else ret []
    end.

End TurnManager.

(** *** Samples for the turn manager *)

(** An entry of the turn order without a [character] field, as
    [rollInitiative] builds them. *)
Definition flatEntry (c : Character) : Target := mkTarget c None.

(** A bite. *)
Definition sampleBite : Attack :=
  mkAttack "Morsure" (Some 5) None None None None (Some "1d6+2") None None.

(** A living goblin that can bite. *)
Definition sampleBiter : Target :=
  flatEntry
    {| id := "gobelin_0_1"; name := "Gobelin 2"; type := Enemy;
       level := None; stats := Some {[ "force" := 8; "dexterite" := 14 ]};
       currentHP := 7; maxHP := 7; ac := Some 13; attacks := [sampleBite];
       image := ""; isAlive := true; initiative := 0; hitDice := 0;
       hitDiceType := None; inventory := [] |}.

(** A turn order: a living player, a living companion, a fallen goblin and
    a living goblin with a bite. *)
Definition sampleTurnOrder : list Target :=
  [ flatEntry (sampleCharacter "Elarion" Player 12 20);
    flatEntry (sampleCharacter "Finn" Companion 9 15);
    flatEntry (sampleCharacter "Gobelin 1" Enemy 0 7);
    sampleBiter ].

(** The entries of a combat: the player, the companion if there is one,
    and the enemies. *)
Definition combatEntries (p : Character) (c : option Character)
    (foes : list Character) : list Target :=
  map flatEntry (p :: match c with Some c => c :: foes | None => foes end).

(** The allies of a turn order are the player [p] and the companion [c]:
    every ally entry has the type and the hit points of one of them, and
    each of them has an entry. *)
Definition alliesOf (turnOrder : list Target) (p : Character)
    (c : option Character) : Prop :=
  (forall t, In t turnOrder -> TurnManager.isAlly t = true ->
     (type (entity t) = Player /\ currentHP (entity t) = currentHP p) \/
     (type (entity t) = Companion /\
      exists c', c = Some c' /\ currentHP (entity t) = currentHP c')) /\
  (exists t, In t turnOrder /\ type (entity t) = Player /\
             currentHP (entity t) = currentHP p) /\
  (forall c', c = Some c' ->
     exists t, In t turnOrder /\ type (entity t) = Companion /\
               currentHP (entity t) = currentHP c').

(* ===================================================================== *)
(** ** More of [CombatService.js]: the battlefield                        *)
(* ===================================================================== *)

Module Battlefield.

(** [{ x, y }] *)
Record Position : Type := mkPosition {
  x : Z;
  y : Z
}.

(** A value of the object [positions]: a position, [null] (no companion),
    or one of the two flags [playerHasMoved] / [companionHasMoved]. *)
Inductive Entry : Type :=
| At (position : Position)
| Null
| Moved (flag : bool).

(** [getDefaultEnemyPosition(index, totalEnemies)] ([CombatService.js],
    lines 164-185). With [totalEnemies] 0 the column is [index % 0], which
    is [NaN]. *)
Definition getDefaultEnemyPosition (index totalEnemies : Z)
    : Outcome Position :=
  let cols := 8 in
  let rows := 6 in
  let startX := Qfloor (inject_Z cols * (6 # 10)) in
  let availableWidth := cols - startX in
  if totalEnemies =? 1 then
    Returns {| x := startX + availableWidth / 2; y := rows / 2 |}
  else
    let enemiesPerRow := Z.min availableWidth totalEnemies in
    if enemiesPerRow =? 0 then NotANumber
    else
      let row := index / enemiesPerRow in
      let col := Z.rem index enemiesPerRow in
      Returns {| x := startX + col;
                 y := Z.max 1 (Z.min (rows - 2) (row + 1)) |}.

(** The initial object [positions] of [initializePositions]. *)
Definition initialPositions (playerCompanion : option Character)
    : gmap string Entry :=
  {[ "player" := At (mkPosition 1 2);
     "companion" := match playerCompanion with
                    | Some _ => At (mkPosition 0 2)
                    | None => Null
                    end;
     "playerHasMoved" := Moved false;
     "companionHasMoved" := Moved false ]}.

(** The position [initializePositions] gives the enemy at [index]: the
    custom one ([{ x: customPos.x, y: customPos.y }]) when
    [customPositions] is there and has an entry at [index], the default one
    otherwise. *)
Definition enemyPosition (customPositions : option (list (option Position)))
    (index totalEnemies : nat) : Outcome Position :=
  match customPositions with
  | Some custom =>
      match custom !! index with
      | Some (Some customPos) =>
          Returns {| x := x customPos; y := y customPos |}
      | _ => getDefaultEnemyPosition (Z.of_nat index) (Z.of_nat totalEnemies)
      end
  | None => getDefaultEnemyPosition (Z.of_nat index) (Z.of_nat totalEnemies)
  end.

(** [enemies.forEach((enemy, index) => { positions[enemy.id] = ... })],
    from [index] on. *)
Fixpoint placeEnemies (customPositions : option (list (option Position)))
    (totalEnemies : nat) (enemies : list Character) (index : nat)
    (positions : gmap string Entry) : Outcome (gmap string Entry) :=
  match enemies with
  | [] => Returns positions
  | enemy :: rest =>
      match enemyPosition customPositions index totalEnemies with
      | Returns position =>
          placeEnemies customPositions totalEnemies rest (S index)
                       (<[id enemy := At position]> positions)
      | Throws e => Throws e
      | NotANumber => NotANumber
      end
  end.

(** [initializePositions(playerCharacter, playerCompanion, enemies,
      customPositions = null)] ([CombatService.js], lines 128-159) *)
Definition initializePositions (playerCharacter : option Character)
    (playerCompanion : option Character) (enemies : list Character)
    (customPositions : option (list (option Position)))
    : Outcome (gmap string Entry) :=
  placeEnemies customPositions (length enemies) enemies 0
               (initialPositions playerCompanion).

(** [{ enemies, turnOrder, positions, currentTurn: 0 }] *)
Record CombatSetup : Type := mkCombatSetup {
  setupEnemies : list Character;
  turnOrder : list Character;
  positions : gmap string Entry;
  currentTurn : nat
}.

Section InitializeCombat.

Variable random : nat -> Q.
Variable enemyTemplates : gmap string CombatService.EnemyTemplate.

(** [initializeCombat(playerCharacter, playerCompanion, encounterData)]
    ([CombatService.js], lines 11-32); [enemyPositions] is the field
    [encounterData.enemyPositions]. *)
Definition initializeCombat (playerCharacter playerCompanion : option Character)
    (encounterData : option CombatService.EncounterData)
    (enemyPositions : option (list (option Position)))
    : Eff (Outcome CombatSetup) :=
  let? enemies :=
    CombatService.createEnemiesFromEncounter enemyTemplates encounterData in
  let? turnOrder :=
    CombatService.rollInitiative random playerCharacter playerCompanion
                                 enemies in
  match initializePositions playerCharacter playerCompanion enemies
                            enemyPositions with
  | Returns positions =>
      ret (Returns (mkCombatSetup enemies turnOrder positions 0))
  | Throws e => ret (Throws e)
  | NotANumber => ret NotANumber
  end.

End InitializeCombat.

(** The position lies on the right of the 8 x 6 grid, off its first and
    last rows. *)
Definition inEnemyZone (p : Position) : Prop :=
  4 <= x p <= 7 /\ 1 <= y p <= 4.

End Battlefield.

(** The entry is a position; it is in the enemy zone when no custom
    position was given. *)
Definition placed (customPositions : option (list (option Battlefield.Position)))
    (v : option Battlefield.Entry) : Prop :=
  exists p,
    v = Some (Battlefield.At p) /\
    (customPositions = None -> Battlefield.inEnemyZone p).

(** Every template of the registry has a dexterity score. *)
Definition templatesHaveDexterity
    (enemyTemplates : gmap string CombatService.EnemyTemplate) : Prop :=
  forall key template,
    enemyTemplates !! key = Some template ->
    is_Some (CombatService.templateStats template
               ≫= (fun st => st !! "dexterite")).

(** Custom positions for the first and the third enemy. *)
Definition sampleCustomPositions : option (list (option Battlefield.Position)) :=
  Some [Some (Battlefield.mkPosition 7 0); None;
        Some (Battlefield.mkPosition 5 5)].

(** ** Player actions and spells ([characterStore.js], lines 905-1082) *)

Module PlayerAction.

Import CombatService.

(** [spell.damage], [{ dice, bonus }] *)
Record SpellDamage : Type := mkSpellDamage {
  dice : option string;
  bonus : option Z
}.

(** A spell, as [executeSpell] reads it; [requiresAttackRoll] is the
    truthiness of the field. *)
Record Spell : Type := mkSpell {
  spellName : string;
  requiresAttackRoll : bool;
  spellDamage : option SpellDamage
}.

(** [caster.spellcasting] *)
Record Spellcasting : Type := mkSpellcasting {
  ability : option string
}.

(** The [action] of [executePlayerAction], by its field [type]: ['attack']
    (the object is then read as a weapon), ['spell'] (the object is read as
    a spell), or anything else. *)
Inductive Action : Type :=
| AttackAction (weapon : Attack)
| SpellAction (spell : Spell)
| OtherAction (actionType : option string).

(** The weapon [executeAttack] reads in an action of type ['attack']: its
    field [type] is ['attack']. *)
Definition asWeapon (weapon : Attack) : Attack :=
  {| attackName := attackName weapon; attackBonus := attackBonus weapon;
     stat := stat weapon; category := category weapon;
     attackType := Some "attack"; range := range weapon;
     damage := damage weapon; damageDice := damageDice weapon;
     damageBonus := damageBonus weapon |}.

(** [getSpellAttackBonus(caster)] ([characterStore.js], lines 1070-1082);
    [spellcasting] is the field [caster.spellcasting]. *)
Definition getSpellAttackBonus (caster : Character)
    (spellcasting : option Spellcasting) : Outcome Z :=
  let proficiencyBonus := proficiencyBonus caster in
  let spellcastingAbility := spellcasting ≫= ability in
  if negb (truthyString spellcastingAbility) then Returns proficiencyBonus
  else
    match stats caster with
    | None => Throws "TypeError: caster.stats is undefined"
    | Some st =>
        let abilityScore := st !! default "" spellcastingAbility in
        let abilityMod := getModifier (orElse abilityScore 10) in
        Returns (abilityMod + proficiencyBonus)
    end.

(** [target.id || target.name] *)
Definition targetKey (target : Character) : string :=
  if truthyString (Some (id target)) then id target else name target.

Section Dice.

Variable random : nat -> Q.

(** [this.rollDamage(spell.damage.dice) + (spell.damage.bonus || 0)] *)
Definition rollSpellDamage (d : SpellDamage) : Eff (Outcome Z) :=
  match dice d with
  | None => ret (Throws "TypeError: damageString is undefined")
  | Some damageString =>
      let* rolled := rollDamage random damageString in
      ret (Returns (rolled + orElse (bonus d) 0))
  end.

(** The body of the [targets.forEach] of [executeSpell]. *)
Definition castOn (caster : Character) (spellcasting : option Spellcasting)
    (spell : Spell) (results : Results) (target : Character)
    : Eff (Outcome Results) :=
  if requiresAttackRoll spell then
    let* attackRoll := rollD20 random in
    let? spellAttackBonus := ret (getSpellAttackBonus caster spellcasting) in
    let totalAttack := attackRoll + spellAttackBonus in
    let criticalHit := attackRoll =? 20 in
    let hit := reaches totalAttack (ac target) || criticalHit in
    if hit then
      let? damage :=
        match spellDamage spell with
        | Some d =>
            let? damage := rollSpellDamage d in
            ret (Returns (if criticalHit then damage * 2 else damage))
        | None => ret (Returns 0)
        end in
      ret (Returns (pushDamage
         (pushMessage results
            (mkMessage ("⚔️ " +:+ spellName spell +:+ " touche " +:+ name target
                          +:+ " et inflige " +:+ showZ damage +:+ " dégâts")
                       (Some (if criticalHit then "critical" else "hit"))))
         (mkDamageEntry (targetKey target) damage)))
    else
      ret (Returns (pushMessage results
             (mkMessage ("❌ " +:+ spellName spell +:+ " manque " +:+ name target
                           +:+ " (" +:+ showZ totalAttack +:+ " vs CA "
                           +:+ from_option showZ "undefined" (ac target) +:+ ")")
                        (Some "miss"))))
  else
    let? damage :=
      match spellDamage spell with
      | Some d => rollSpellDamage d
      | None => ret (Returns 0)
      end in
    ret (Returns (pushDamage
       (pushMessage results
          (mkMessage ("💥 " +:+ spellName spell +:+ " touche automatiquement "
                        +:+ name target +:+ " et inflige " +:+ showZ damage
                        +:+ " dégâts")
                     (Some "spell-hit")))
       (mkDamageEntry (targetKey target) damage))).

(** [targets.forEach(target => ...)] of [executeSpell] *)
Fixpoint castOnEach (caster : Character) (spellcasting : option Spellcasting)
    (spell : Spell) (targets : list Character) (results : Results)
    : Eff (Outcome Results) :=
  match targets with
  | [] => ret (Returns results)
  | target :: rest =>
      let? results' := castOn caster spellcasting spell results target in
      castOnEach caster spellcasting spell rest results'
  end.

(** [executeSpell(caster, spell, targets, results)]
    ([characterStore.js], lines 975-1028) *)
Definition executeSpell (caster : Character)
    (spellcasting : option Spellcasting) (spell : Spell)
    (targets : list Character) (results : Results) : Eff (Outcome Results) :=
  let results :=
    pushMessage results
      (mkMessage ("🔮 " +:+ name caster +:+ " lance " +:+ spellName spell)
                 (Some "spell")) in
  castOnEach caster spellcasting spell targets results.

(** [executePlayerAction(playerCharacter, action, targets, enemies,
      positions)] ([characterStore.js], lines 905-929); [enemies] and
    [positions] are not read. *)
Definition executePlayerAction (playerCharacter : Character)
    (spellcasting : option Spellcasting) (action : option Action)
    (targets : list Character) : Eff (Outcome Results) :=
  let results := mkResults [] [] [] in
  match action, targets with
  | None, _ | Some _, [] =>
      ret (Returns (pushMessage results
             (mkMessage "Aucune action ou cible sélectionnée" (Some "error"))))
  | Some (AttackAction weapon), _ =>
      executeAttack random playerCharacter (asWeapon weapon) targets results
  | Some (SpellAction spell), _ =>
      executeSpell playerCharacter spellcasting spell targets results
  | Some (OtherAction actionType), _ =>
      ret (Returns (pushMessage results
             (mkMessage ("Type d'action inconnu: "
                           +:+ default "undefined" actionType)
                        (Some "error"))))
  end.

End Dice.

End PlayerAction.

(** The messages of a report that are not misses, and the fresh results
    [executePlayerAction] starts from. *)
Definition isMiss (m : Message) : bool :=
  bool_decide (messageType m = Some "miss").

Definition hitsIn (messages : list Message) : nat :=
  length (List.filter (fun m => negb (isMiss m)) messages).


Definition sampleMissile : PlayerAction.Spell :=
  PlayerAction.mkSpell "Projectile magique" false
    (Some (PlayerAction.mkSpellDamage (Some "1d4") (Some 1))).


(** ** Companion actions ([characterStore.js], lines 1341-1493) *)

Module CompanionAction.

Import CombatService.

(** An entry of [results.healing] *)
Record Healing : Type := mkHealing {
  healingTargetId : string;
  amount : Z;
  healingSource : string
}.

(** An entry of [results.damage], as [executeCompanionSpell] builds it *)
Record SpellDamageEntry : Type := mkSpellDamageEntry {
  damageTargetId : string;
  damageAmount : Z;
  damageSource : string;
  damageType : string
}.

(** An entry of [results.effects]: [{ type, targetId, source, targets,
    duration }], where [targetId] and [targets] may be missing. *)
Record SupportEffect : Type := mkSupportEffect {
  supportType : string;
  supportTargetId : option string;
  supportSource : string;
  supportTargets : option (list string);
  duration : Z
}.

(** The [results] of [executeCompanionAction]. *)
Record CompanionResults : Type := mkCompanionResults {
  companionMessages : list Message;
  companionDamage : list SpellDamageEntry;
  healing : list Healing;
  companionEffects : list SupportEffect;
  companionSuccess : bool
}.

(** The [action] the AI chose: [{ type, spell, target, targets }]. *)
Record Action : Type := mkAction {
  actionType : string;
  actionSpell : option string;
  actionTarget : option Character;
  actionTargets : option (list Character)
}.

Definition pushMessage (results : CompanionResults) (m : Message)
    : CompanionResults :=
  {| companionMessages := companionMessages results ++ [m];
     companionDamage := companionDamage results;
     healing := healing results;
     companionEffects := companionEffects results;
     companionSuccess := companionSuccess results |}.

Definition pushDamage (results : CompanionResults) (d : SpellDamageEntry)
    : CompanionResults :=
  {| companionMessages := companionMessages results;
     companionDamage := companionDamage results ++ [d];
     healing := healing results;
     companionEffects := companionEffects results;
     companionSuccess := companionSuccess results |}.

Definition pushHealing (results : CompanionResults) (h : Healing)
    : CompanionResults :=
  {| companionMessages := companionMessages results;
     companionDamage := companionDamage results;
     healing := healing results ++ [h];
     companionEffects := companionEffects results;
     companionSuccess := companionSuccess results |}.

Definition pushEffect (results : CompanionResults) (e : SupportEffect)
    : CompanionResults :=
  {| companionMessages := companionMessages results;
     companionDamage := companionDamage results;
     healing := healing results;
     companionEffects := companionEffects results ++ [e];
     companionSuccess := companionSuccess results |}.

(** [results.success = true] *)
Definition succeed (results : CompanionResults) : CompanionResults :=
  {| companionMessages := companionMessages results;
     companionDamage := companionDamage results;
     healing := healing results;
     companionEffects := companionEffects results;
     companionSuccess := true |}.

(** [consumeSpellSlot(companion, spellName)] (lines 1489-1493): it only
    writes to the console. *)
Definition consumeSpellSlot (companion : Character)
    (spellName : option string) : Eff unit :=
  log (name companion +:+ " a utilisé un slot pour "
         +:+ default "undefined" spellName).

Section Dice.

Variable random : nat -> Q.

(** [CompanionAI.canCastSpell] ([companionAI], not among the sources), a
    parameter of the embedding. *)
Variable canCastSpell : Character -> option string -> bool.

(** [executeCompanionSpell(companion, action, gameState, results)]
    (lines 1341-1410); [gameState] is not read. *)
Definition executeCompanionSpell (companion : Character) (action : Action)
    (results : CompanionResults) : Eff (Outcome CompanionResults) :=
  let spellName := actionSpell action in
  let target := actionTarget action in
  let shown := default "undefined" spellName in
  if negb (canCastSpell companion spellName) then
    ret (Returns (pushMessage results
           (mkMessage (name companion +:+ " ne peut pas lancer " +:+ shown)
                      (Some "error"))))
  else
    let? results :=
      if bool_decide (spellName = Some "Soins") then
        match target with
        | Some target =>
            if truthyString (Some (id target)) then
              let* d8 := rollD8 random in
              let healAmount := d8 + 4 in
              ret (Returns (pushMessage
                 (pushHealing results
                    (mkHealing (id target) healAmount (name companion)))
                 (mkMessage ("✨ " +:+ name companion +:+ " soigne "
                               +:+ name target +:+ " (+" +:+ showZ healAmount
                               +:+ " PV)")
                            (Some "healing"))))
            else ret (Returns results)
        | None => ret (Returns results)
        end
      else if bool_decide (spellName = Some "Trait de feu") then
        match target with
        | Some target =>
            let* d10 := rollD10 random in
            match stats companion with
            | None => ret (Throws "TypeError: companion.stats is undefined")
            | Some st =>
                match st !! "charisme" with
                | None => ret NotANumber
                | Some charisme =>
                    let damage := d10 + getModifier charisme in
                    ret (Returns (pushMessage
                       (pushDamage results
                          (mkSpellDamageEntry (name target) damage
                                              (name companion) "feu"))
                       (mkMessage ("🔥 " +:+ name companion
                                     +:+ " lance un trait de feu sur "
                                     +:+ name target +:+ " (" +:+ showZ damage
                                     +:+ " dégâts de feu)")
                                  (Some "spell"))))
                end
            end
        | None => ret (Returns results)
        end
      else if bool_decide (spellName = Some "Détection de la magie") then
        ret (Returns (pushEffect
           (pushMessage results
              (mkMessage ("🔍 " +:+ name companion
                            +:+ " détecte les auras magiques environnantes")
                         (Some "spell")))
           (mkSupportEffect "detection" None (name companion) None 10)))
      else
        ret (Returns (pushMessage results
               (mkMessage ("✨ " +:+ name companion +:+ " lance " +:+ shown)
                          (Some "spell")))) in
    let* _ := consumeSpellSlot companion spellName in
    ret (Returns (succeed results)).


End Dice.

(** [executeCompanionSupport(companion, action, gameState, results)]
    (lines 1446-1477) *)
Definition executeCompanionSupport (companion : Character) (action : Action)
    (results : CompanionResults) : Outcome CompanionResults :=
  if bool_decide (actionType action = "protect") then
    match actionTarget action with
    | None => Throws "TypeError: action.target is undefined"
    | Some target =>
        Returns (succeed (pushEffect
          (pushMessage results
             (mkMessage ("🛡️ " +:+ name companion +:+ " protège " +:+ name target)
                        (Some "support")))
          (mkSupportEffect "protection" (Some (id target)) (name companion)
                           None 1)))
    end
  else if bool_decide (actionType action = "taunt") then
    match actionTargets action with
    | None => Throws "TypeError: action.targets is undefined"
    | Some targets =>
        Returns (succeed (pushEffect
          (pushMessage results
             (mkMessage ("💢 " +:+ name companion
                           +:+ " attire l'attention des ennemis")
                        (Some "support")))
          (mkSupportEffect "taunt" None (name companion)
                           (Some (map name targets)) 1)))
    end
  else Returns (succeed results).

End CompanionAction.

(** The results [executeCompanionAction] starts from. *)
Definition freshCompanionResults : CompanionAction.CompanionResults :=
  CompanionAction.mkCompanionResults [] [] [] [] false.


(** The results differ from [before] at most by messages added at the end;
    [n] of them were added. *)
Definition onlyMessagesAdded (n : nat)
    (before after : CompanionAction.CompanionResults) : Prop :=
  (exists added,
     CompanionAction.companionMessages after
     = CompanionAction.companionMessages before ++ added /\
     length added = n) /\
  CompanionAction.companionDamage after
  = CompanionAction.companionDamage before /\
  CompanionAction.healing after = CompanionAction.healing before /\
  CompanionAction.companionEffects after
  = CompanionAction.companionEffects before.

(** ** The inventory actions and selectors of the character store
    ([characterStore.js], lines 433-474, 619-652 and 710-713) *)

Module Inventory.

Import CharacterStore.

(** [currentInventory.findIndex(invItem => key(invItem) === itemKey)],
    [None] for -1; the key looked for may be [undefined]. *)
Fixpoint findIndexByKey (key : option string) (inv : list Item) : option nat :=
  match inv with
  | [] => None
  | invItem :: rest =>
      if bool_decide (itemKey invItem = key) then Some O
      else S <$> findIndexByKey key rest
  end.

(** [{ ...item, id: item.id || item.name || item.nom || generated,
      quantity }] *)
Definition asNewEntry (generated : string) (item : Item) (q : Z) : Item :=
  {| item_id := if truthyString (itemKey item) then itemKey item
                else Some generated;
     itemName := itemName item; nom := nom item;
     itemType := itemType item; consumable := consumable item;
     quantity := Some q; effects := effects item |}.

(** [addItemToInventory(item, targetCharacter)] (lines 433-474);
    [generated] is what [GameLogic.generateId('item')] returns, which is
    asked for only when the item has no id, name or nom. *)
Definition addItemToInventory (generated : string) (item : Item)
    (targetCharacter : string) (state : Store) : Store :=
  match targeted targetCharacter state with
  | None => state
  | Some character =>
      let currentInventory := inventory character in
      let key := itemKey item in
      let quantityToAdd := orElse (quantity item) 1 in
      let newInventory :=
        match findIndexByKey key currentInventory with
        | Some existingItemIndex =>
            match currentInventory !! existingItemIndex with
            | Some existing =>
                <[existingItemIndex :=
                    withQuantity existing
                      (orElse (quantity existing) 1 + quantityToAdd)]>
                  currentInventory
            | None => currentInventory
            end
        | None => currentInventory ++ [asNewEntry generated item quantityToAdd]
        end in
      setTargeted targetCharacter state (withInventory character newInventory)
  end.

(** The [Map] of [consolidateInventory], with its keys in insertion
    order. *)
Definition ItemMap : Type := list (option string * Item).

(** [itemMap.has(key)] *)
Definition mapHas (key : option string) (itemMap : ItemMap) : bool :=
  existsb (fun entry => bool_decide (fst entry = key)) itemMap.

(** [const existingItem = itemMap.get(key); existingItem.quantity = ...]:
    the object held under [key] is changed in place. *)
Fixpoint mapUpdate (key : option string) (f : Item -> Item)
    (itemMap : ItemMap) : ItemMap :=
  match itemMap with
  | [] => []
  | (k, existingItem) :: rest =>
      if bool_decide (k = key) then (k, f existingItem) :: rest
      else (k, existingItem) :: mapUpdate key f rest
  end.

(** The callback of [character.inventory.forEach]. *)
Definition consolidateItem (itemMap : ItemMap) (item : Item) : ItemMap :=
  let key := itemKey item in
  if mapHas key itemMap then
    mapUpdate key
      (fun existingItem =>
         withQuantity existingItem
           (orElse (quantity existingItem) 1 + orElse (quantity item) 1))
      itemMap
  else itemMap ++ [(key, withQuantity item (orElse (quantity item) 1))].

(** [character.inventory.forEach(...)], then
    [itemMap.forEach(item => consolidatedInventory.push(item))]. *)
Definition consolidate (inv : list Item) : list Item :=
  map snd (fold_left consolidateItem inv []).

(** [consolidateInventory(targetCharacter)] (lines 619-652) *)
Definition consolidateInventory (targetCharacter : string) (state : Store)
    : Store :=
  match targeted targetCharacter state with
  | None => state
  | Some character =>
      setTargeted targetCharacter state
        (withInventory character (consolidate (inventory character)))
  end.

(** [characterSelectors.hasItem(state, itemId)] (lines 712-713) *)
Definition hasItem (state : Store) (itemId : string) : bool :=
  match playerCharacter state with
  | Some character =>
      existsb (fun item => bool_decide (item_id item = Some itemId))
              (inventory character)
  | None => false
  end.

(** [characterSelectors.getInventoryItems(state)] (line 710) *)
Definition getInventoryItems (state : Store) : list Item :=
  match playerCharacter state with
  | Some character => inventory character
  | None => []
  end.

End Inventory.

(** The quantity an inventory entry counts for, [item.quantity || 1], and
    the quantity the entries with key [key] count for together. *)
Definition countsFor (item : Item) : Z := orElse (quantity item) 1.

Definition totalQuantity (key : option string) (inv : list Item) : Z :=
  fold_right Z.add 0
    (map countsFor
         (List.filter (fun item => bool_decide (CharacterStore.itemKey item = key))
                      inv)).

(** No entry has a negative quantity. *)
Definition quantitiesNonNegative (inv : list Item) : Prop :=
  forall item q, In item inv -> quantity item = Some q -> 0 <= q.


(** The last ['heal'] effect of a list of effects. *)
Definition lastHeal (itemEffects : list Effect) : option Effect :=
  last (List.filter (fun e => bool_decide (effectType e = "heal")) itemEffects).

(** An arrow, and a store whose player owns a quiver known by its name
    only. *)
Definition sampleArrows (q : option Z) : Item :=
  {| item_id := None; itemName := Some "Flèches"; nom := None;
     itemType := Some "ammo"; consumable := false; quantity := q;
     effects := None |}.

Definition sampleArcher : CharacterStore.Store :=
  let hero :=
    {| id := "player"; name := "Elarion"; type := Player; level := Some 3;
       stats := Some {[ "force" := 14; "dexterite" := 12; "constitution" := 13 ]};
       currentHP := 4; maxHP := 24; ac := Some 15; attacks := []; image := "";
       isAlive := true; initiative := 0; hitDice := 3; hitDiceType := Some 10;
       inventory := [sampleArrows (Some 20)] |} in
  {| CharacterStore.playerCharacter := Some hero;
     CharacterStore.playerCompanion := None;
     CharacterStore.selectedCharacter := Some hero |}.

(** The map of [consolidateInventory] after the entries [seen]: its keys
    are distinct, they are the keys of [seen], and the item under a key
    has that key and, as quantity, what the entries of [seen] with the key
    count for together. *)
Definition consolidated (itemMap : Inventory.ItemMap) (seen : list Item)
    : Prop :=
  NoDup (map fst itemMap) /\
  (forall k o, In (k, o) itemMap ->
     CharacterStore.itemKey o = k /\
     quantity o = Some (totalQuantity k seen) /\
     1 <= totalQuantity k seen) /\
  (forall k, In k (map fst itemMap) <-> In k (map CharacterStore.itemKey seen)).

(** An inventory entry that is not in the registry [items], or whose entry
    there has no [use] function: [useItem] falls back on its effects. *)
Definition usedByEffects (items : gmap string CharacterStore.ItemData)
    (itemId : string) (item : Item) : Prop :=
  match CharacterStore.lookupItemData items itemId item with
  | Some data => CharacterStore.use data = None
  | None => True
  end.

(** A salve with two heal effects, of 5 and of 3, and a store whose
    wounded player owns one. *)
Definition sampleSalve : Item :=
  {| item_id := Some "baume"; itemName := Some "Baume"; nom := None;
     itemType := Some "consumable"; consumable := true; quantity := Some 1;
     effects := Some [mkEffect "heal" 5; mkEffect "poison" 1;
                      mkEffect "heal" 3] |}.

Definition sampleSalveStore : CharacterStore.Store :=
  let hero :=
    CharacterStore.withInventory (sampleCharacter "Elarion" Player 4 24)
                                 [sampleSalve] in
  CharacterStore.mkStore (Some hero) None (Some hero).

(** The string has an underscore. *)
Fixpoint hasUnderscore (s : string) : bool :=
  match s with
  | EmptyString => false
  | String c rest => bool_decide (c = "_"%char) || hasUnderscore rest
  end.


(* ===================================================================== *)
(** * Part II: theorems                                                   *)
(* ===================================================================== *)

(** ** The combat outcome evaluator *)

Section CheckCombatEnd.

Import CombatService.

Lemma isDefeated_spec (c : Character) :
  isDefeated c = true <-> currentHP c <= 0.
Proof. unfold isDefeated. apply Z.leb_le. Qed.

Lemma allEnemiesDefeated_spec (enemies : list Character) :
  forallb isDefeated enemies = true <-> victoryCondition enemies.
Proof.
  unfold victoryCondition. rewrite forallb_forall, List.Forall_forall.
  split; intros H e He; apply isDefeated_spec; auto.
Qed.

Lemma defeat_spec (p : Character) (c : option Character) :
  isDefeated p && match c with Some c' => isDefeated c' | None => true end
    = true <-> defeatCondition p c.
Proof.
  unfold defeatCondition. rewrite andb_true_iff, isDefeated_spec.
  destruct c as [c'|]; split.
  - intros [Hp Hc]. split; [exact Hp|]. right. exists c'.
    split; [reflexivity|]. now apply isDefeated_spec.
  - intros [Hp [Hn | (c'' & Heq & Hc)]]; [discriminate|].
    injection Heq as <-. split; [exact Hp|]. now apply isDefeated_spec.
  - intros [Hp _]. split; [exact Hp|]. now left.
  - intros [Hp _]. now split.
Qed.

End CheckCombatEnd.

(** C1 (as stated, refuted): with the player down, no companion and every
    enemy down, every enemy has [currentHP <= 0] and yet the evaluator does
    not answer ['victory']: the defeat test comes first. *)
Lemma checkCombatEnd_victory_iff_fails :
  let hero := sampleCharacter "player" Player 0 20 in
  let goblin := sampleCharacter "gobelin_0_0" Enemy 0 7 in
  victoryCondition [goblin] /\
  CombatService.checkCombatEnd hero None [goblin] = Some "defeat" /\
  CombatService.checkCombatEnd hero None [goblin] <> Some "victory".
Proof.
  cbv zeta. split; [|split].
  - constructor; [cbn; lia | constructor].
  - reflexivity.
  - discriminate.
Qed.

(** C1 (amended): [checkCombatEnd] answers ['defeat'] iff the player is down
    and there is no companion or the companion is down; it answers
    ['victory'] iff every enemy is down and the defeat condition does not
    hold; it answers [null] iff neither condition holds; and it never gives
    any other answer, so the two are never both reported. *)
Theorem checkCombatEnd_spec (p : Character) (c : option Character)
    (enemies : list Character) :
  (CombatService.checkCombatEnd p c enemies = Some "defeat"
     <-> defeatCondition p c) /\
  (CombatService.checkCombatEnd p c enemies = Some "victory"
     <-> victoryCondition enemies /\ ~ defeatCondition p c) /\
  (CombatService.checkCombatEnd p c enemies = None
     <-> ~ victoryCondition enemies /\ ~ defeatCondition p c) /\
  (CombatService.checkCombatEnd p c enemies = Some "defeat" \/
   CombatService.checkCombatEnd p c enemies = Some "victory" \/
   CombatService.checkCombatEnd p c enemies = None).
Proof.
  unfold CombatService.checkCombatEnd.
  pose proof (defeat_spec p c) as Hd.
  pose proof (allEnemiesDefeated_spec enemies) as Hv.
  destruct (CombatService.isDefeated p &&
            match c with
            | Some c' => CombatService.isDefeated c'
            | None => true
            end) eqn:Ed;
    destruct (forallb CombatService.isDefeated enemies) eqn:Ev.
  all: try (assert (HD : defeatCondition p c) by (now apply Hd));
       try (assert (HD : ~ defeatCondition p c)
              by (intros X; apply Hd in X; discriminate));
       try (assert (HV : victoryCondition enemies) by (now apply Hv));
       try (assert (HV : ~ victoryCondition enemies)
              by (intros X; apply Hv in X; discriminate));
       clear Hd Hv; intuition (try discriminate; try congruence).
Qed.

(** ** Skipping fallen combatants *)

Section SkipToNextAlive.

Import CombatTurnManager.

Variable turnOrder : list Character.

Lemma skipLoop_sound (fuel nextIndex attempts i : nat) :
  skipLoop fuel turnOrder nextIndex attempts = Some i -> aliveAt turnOrder i.
Proof.
  revert nextIndex attempts.
  induction fuel as [|fuel IH]; intros nextIndex attempts; cbn [skipLoop].
  - discriminate.
  - destruct (length turnOrder <=? S attempts)%nat; [discriminate|].
    destruct (turnOrder !! ((nextIndex + 1) mod length turnOrder)%nat)
      as [c|] eqn:Hc.
    + destruct (0 <? currentHP c) eqn:Hhp.
      * intros [= <-]. exists c. split; [exact Hc | now apply Z.ltb_lt].
      * destruct (S attempts <? length turnOrder)%nat; [apply IH | discriminate].
    + destruct (S attempts <? length turnOrder)%nat; [apply IH | discriminate].
Qed.

Lemma skipLoop_none (fuel nextIndex attempts : nat) :
  (attempts < length turnOrder)%nat ->
  (length turnOrder - attempts <= fuel)%nat ->
  skipLoop fuel turnOrder nextIndex attempts = None <->
  (forall d, (1 <= d < length turnOrder - attempts)%nat ->
     fallenAt turnOrder ((nextIndex + d) mod length turnOrder)%nat).
Proof.
  set (n := length turnOrder).
  revert nextIndex attempts.
  induction fuel as [|fuel IH]; intros nextIndex attempts Ha Hf.
  - lia.
  - cbn [skipLoop]. fold n.
    destruct (n <=? S attempts)%nat eqn:Hlast.
    + apply Nat.leb_le in Hlast. split; [|reflexivity].
      intros _ d Hd. lia.
    + apply Nat.leb_gt in Hlast.
      assert (Hlt : (S attempts <? n)%nat = true) by now apply Nat.ltb_lt.
      rewrite Hlt.
      assert (Hstep : forall d, ((((nextIndex + 1) mod n) + d) mod n
                                 = (nextIndex + S d) mod n)%nat).
      { intros d. rewrite Nat.Div0.add_mod_idemp_l. f_equal. lia. }
      assert (Hrest :
        (forall d, (1 <= d < n - attempts)%nat ->
            fallenAt turnOrder ((nextIndex + d) mod n)%nat) <->
        fallenAt turnOrder ((nextIndex + 1) mod n)%nat /\
        (forall d, (1 <= d < n - S attempts)%nat ->
            fallenAt turnOrder ((((nextIndex + 1) mod n) + d) mod n)%nat)).
      { split.
        - intros H. split; [apply H; lia|].
          intros d Hd. rewrite Hstep. apply H. lia.
        - intros [H1 H2] d Hd. destruct d as [|[|d]]; [lia | exact H1 |].
          rewrite <- Hstep. apply H2. lia. }
      rewrite Hrest.
      destruct (turnOrder !! ((nextIndex + 1) mod n)%nat) as [c|] eqn:Hc.
      * destruct (0 <? currentHP c) eqn:Hhp.
        -- split; [discriminate|]. intros [H1 _]. exfalso.
           apply Z.ltb_lt in Hhp. specialize (H1 c Hc). lia.
        -- rewrite IH by lia. split; [|tauto].
           intros H. split; [|exact H].
           intros c' Hc'. rewrite Hc in Hc'. injection Hc' as <-.
           now apply Z.ltb_ge.
      * rewrite IH by lia. split; [|tauto].
        intros H. split; [|exact H].
        intros c' Hc'. rewrite Hc in Hc'. discriminate.
Qed.

(** The loop never uses more iterations than the turn order is long:
    any larger bound gives the same result. *)
Lemma skipLoop_fuel (fuel nextIndex attempts : nat) :
  (length turnOrder - attempts <= fuel)%nat ->
  skipLoop fuel turnOrder nextIndex attempts
  = skipLoop (length turnOrder - attempts) turnOrder nextIndex attempts.
Proof.
  set (n := length turnOrder).
  revert nextIndex attempts.
  induction fuel as [|fuel IH]; intros nextIndex attempts Hf.
  - replace (n - attempts)%nat with O by lia. reflexivity.
  - destruct (n - attempts)%nat as [|k] eqn:Hk.
    + cbn [skipLoop]. fold n.
      assert (Hge : (n <=? S attempts)%nat = true) by (apply Nat.leb_le; lia).
      now rewrite Hge.
    + cbn [skipLoop]. fold n.
      destruct (n <=? S attempts)%nat; [reflexivity|].
      assert (Hk' : k = (n - S attempts)%nat) by lia.
      rewrite (IH _ (S attempts)) by lia. rewrite <- Hk'.
      reflexivity.
Qed.

(** What [skipToNextAliveCombatant] returns: an index it returns holds a
    living combatant, and it returns [null] exactly when the entries at
    the [length - 1] indices after [currentTurn] are all fallen; the entry
    at [currentTurn] itself is never looked at. *)
Lemma skipToNextAliveCombatant_result (currentTurn : nat) :
  turnOrder <> [] ->
  (forall i, skipToNextAliveCombatant currentTurn turnOrder = Some i ->
             aliveAt turnOrder i) /\
  (skipToNextAliveCombatant currentTurn turnOrder = None <->
   forall d, (1 <= d < length turnOrder)%nat ->
     fallenAt turnOrder ((currentTurn + d) mod length turnOrder)%nat).
Proof.
  intros Hne. unfold skipToNextAliveCombatant.
  assert (0 < length turnOrder)%nat
    by (destruct turnOrder; [congruence | cbn; lia]).
  split.
  - intros i. apply skipLoop_sound.
  - rewrite skipLoop_none by lia. now rewrite Nat.sub_0_r.
Qed.

End SkipToNextAlive.

(** With a living goblin after the player, the search finds it; from the
    goblin's turn it wraps around to the player. *)
Example skipToNextAliveCombatant_finds :
  let hero := sampleCharacter "player" Player 12 20 in
  let fallen := sampleCharacter "gobelin_0_0" Enemy 0 7 in
  let goblin := sampleCharacter "gobelin_0_1" Enemy 7 7 in
  CombatTurnManager.skipToNextAliveCombatant 0 [hero; fallen; goblin] = Some 2%nat /\
  CombatTurnManager.skipToNextAliveCombatant 2 [hero; fallen; goblin] = Some 0%nat.
Proof. cbv zeta. split; reflexivity. Qed.

(** C2 (the code at the failing input): the player is the only one alive
    and it is the player's turn; the search gives up ([null]) although a
    combatant of the turn order is alive. The same happens with a turn order
    of one living combatant. *)
Theorem skipToNextAliveCombatant_lone_survivor :
  let hero := sampleCharacter "player" Player 12 20 in
  let goblin := sampleCharacter "gobelin_0_0" Enemy 0 7 in
  aliveAt [hero; goblin] 0 /\
  CombatTurnManager.skipToNextAliveCombatant 0 [hero; goblin] = None /\
  CombatTurnManager.skipToNextAliveCombatant 0 [hero] = None.
Proof.
  cbv zeta. split; [|split].
  - eexists. split; [reflexivity | cbn; lia].
  - reflexivity.
  - reflexivity.
Qed.

(** ** The damage descriptor *)

Section DamageDescriptor.

Import DamageRegex DamagePattern.

Lemma append_cons (x : ascii) (a b : string) :
  String x a +:+ b = String x (a +:+ b).
Proof. reflexivity. Qed.

Lemma append_empty_l (a : string) : "" +:+ a = a.
Proof. reflexivity. Qed.

Lemma append_assoc (a b c : string) : (a +:+ b) +:+ c = a +:+ b +:+ c.
Proof.
  induction a as [|x a IH]; [reflexivity|].
  rewrite !append_cons. now f_equal.
Qed.

Lemma append_empty_r (a : string) : a +:+ "" = a.
Proof.
  induction a as [|x a IH]; [reflexivity|].
  rewrite append_cons. now f_equal.
Qed.

Lemma takeDigits_spec (s ds r : string) :
  takeDigits s = (ds, r) ->
  s = ds +:+ r /\ allDigits ds = true /\ startsNonDigit r.
Proof.
  revert ds r. induction s as [|c s IH]; intros ds r; cbn.
  - intros [= <- <-]. now cbn.
  - destruct (isDigit c) eqn:Hc.
    + destruct (takeDigits s) as [ds' r'] eqn:Htd.
      intros [= <- <-]. destruct (IH _ _ eq_refl) as (-> & Hd & Hr).
      rewrite append_cons. cbn. rewrite Hc. now repeat split.
    + intros [= <- <-]. rewrite append_empty_l. cbn. now repeat split.
Qed.

Lemma takeDigits_append (ds r : string) :
  allDigits ds = true -> startsNonDigit r ->
  takeDigits (ds +:+ r) = (ds, r).
Proof.
  induction ds as [|c ds IH]; intros Hd Hr.
  - rewrite append_empty_l.
    destruct r as [|c r]; [reflexivity|]. cbn in *. now rewrite Hr.
  - rewrite append_cons. cbn in *.
    apply andb_true_iff in Hd as [Hc Hd]. rewrite Hc.
    now rewrite IH.
Qed.

Lemma takeDigits_number (m post : string) :
  number m -> isEmpty (fst (takeDigits (m +:+ post))) = false.
Proof.
  intros [Hne Hd]. destruct m as [|c m]; [discriminate|].
  rewrite append_cons. cbn in *.
  apply andb_true_iff in Hd as [Hc _]. rewrite Hc.
  now destruct (takeDigits (m +:+ post)).
Qed.

Lemma isDigit_d (rest : string) : startsNonDigit ("d" +:+ rest).
Proof. reflexivity. Qed.

Lemma isDigit_plus (rest : string) : startsNonDigit ("+" +:+ rest).
Proof. reflexivity. Qed.

(** A match at the head of [s] is a word of the pattern at the head of
    [s], and its groups are numbers. *)
Lemma matchHere_inv (s n m : string) (b : option string) :
  matchHere s = Some (n, m, b) ->
  number n /\ number m /\ (forall b', b = Some b' -> number b') /\
  exists w post, s = w +:+ post /\ MatchesPattern w.
Proof.
  unfold matchHere.
  destruct (takeDigits s) as [n0 r1] eqn:H1.
  destruct (isEmpty n0) eqn:En; [discriminate|].
  destruct r1 as [|c r2]; [discriminate|].
  destruct (Ascii.eqb c "d") eqn:Ec; [|discriminate].
  apply Ascii.eqb_eq in Ec. subst c.
  destruct (takeDigits r2) as [m0 r3] eqn:H2.
  destruct (isEmpty m0) eqn:Em; [discriminate|].
  apply takeDigits_spec in H1 as (-> & Hn & _).
  apply takeDigits_spec in H2 as (-> & Hm & _).
  assert (Hplain : exists w post,
             n0 +:+ String "d" (m0 +:+ r3) = w +:+ post /\ MatchesPattern w).
  { exists (n0 +:+ "d" +:+ m0), r3. split.
    - rewrite append_assoc. reflexivity.
    - now constructor. }
  destruct r3 as [|c' r4].
  - intros [= <- <- <-].
    refine (conj (conj En Hn) (conj (conj Em Hm) (conj _ Hplain))).
    discriminate.
  - destruct (Ascii.eqb c' "+") eqn:Ep.
    + destruct (takeDigits r4) as [b0 r5] eqn:H3.
      apply takeDigits_spec in H3 as (-> & Hb & _).
      intros [= <- <- <-].
      refine (conj (conj En Hn) (conj (conj Em Hm) (conj _ Hplain))).
      intros b'. destruct (isEmpty b0) eqn:Eb; [discriminate|].
      intros [= <-]. now split.
    + intros [= <- <- <-].
      refine (conj (conj En Hn) (conj (conj Em Hm) (conj _ Hplain))).
      discriminate.
Qed.

(** Where a word of the pattern starts, the match succeeds. *)
Lemma matchHere_complete (n m post : string) :
  number n -> number m ->
  matchHere (n +:+ "d" +:+ m +:+ post) <> None.
Proof.
  intros [Hn1 Hn2] Hm. unfold matchHere.
  rewrite (takeDigits_append n ("d" +:+ m +:+ post) Hn2 (isDigit_d _)).
  rewrite Hn1. rewrite append_cons, append_empty_l.
  rewrite Ascii.eqb_refl.
  pose proof (takeDigits_number m post Hm) as Hne.
  destruct (takeDigits (m +:+ post)) as [m0 r3]. cbn in Hne. rewrite Hne.
  destruct r3 as [|c' r4]; [discriminate|].
  destruct (Ascii.eqb c' "+"); [|discriminate].
  destruct (takeDigits r4). discriminate.
Qed.

Lemma MatchesPattern_head (w : string) :
  MatchesPattern w ->
  exists n m rest, number n /\ number m /\ w = n +:+ "d" +:+ m +:+ rest.
Proof.
  intros [n m Hn Hm | n m b Hn Hm Hb].
  - exists n, m, "". now rewrite append_empty_r.
  - exists n, m, ("+" +:+ b). auto.
Qed.

Lemma matchRegex_head (s : string) (g : string * string * option string) :
  matchHere s = Some g -> matchRegex s = Some g.
Proof. intros H. destruct s; cbn [matchRegex]; now rewrite H. Qed.

Lemma matchRegex_tail (c : ascii) (s : string) :
  matchRegex (String c s) = None -> matchRegex s = None.
Proof. cbn [matchRegex]. now destruct (matchHere (String c s)). Qed.

Lemma matchRegex_none_here (s : string) :
  matchRegex s = None -> matchHere s = None.
Proof. destruct s; cbn [matchRegex]; now destruct (matchHere _). Qed.

(** [damageString.match(regex)] is [null] exactly when the descriptor does
    not match the pattern. *)
Lemma matchRegex_none_iff (s : string) :
  matchRegex s = None <-> ~ Occurs s.
Proof.
  split.
  - intros Hnone (pre & w & post & -> & Hw).
    apply MatchesPattern_head in Hw as (n & m & rest & Hn & Hm & ->).
    induction pre as [|c pre IH].
    + rewrite append_empty_l in Hnone. rewrite !append_assoc in Hnone.
      apply matchRegex_none_here in Hnone.
      now apply (matchHere_complete n m (rest +:+ post) Hn Hm).
    + rewrite append_cons in Hnone. apply matchRegex_tail in Hnone. auto.
  - intros Hno. induction s as [|c s IH].
    + cbn [matchRegex]. destruct (matchHere "") as [[[n m] b]|] eqn:E;
        [|reflexivity].
      exfalso. apply Hno.
      apply matchHere_inv in E as (_ & _ & _ & w & post & E & Hw).
      exists "", w, post. now split.
    + cbn [matchRegex].
      destruct (matchHere (String c s)) as [[[n m] b]|] eqn:E.
      * exfalso. apply Hno.
        apply matchHere_inv in E as (_ & _ & _ & w & post & E & Hw).
        exists "", w, post. now split.
      * apply IH. intros (pre & w & post & -> & Hw). apply Hno.
        exists (String c pre), w, post. now split.
Qed.

(** The groups of a match are numbers. *)
Lemma matchRegex_groups (s n m : string) (b : option string) :
  matchRegex s = Some (n, m, b) ->
  number n /\ number m /\ (forall b', b = Some b' -> number b').
Proof.
  induction s as [|c s IH]; cbn [matchRegex].
  - destruct (matchHere "") as [g|] eqn:E; [|discriminate].
    intros [= ->]. apply matchHere_inv in E. tauto.
  - destruct (matchHere (String c s)) as [g|] eqn:E; [|exact IH].
    intros [= ->]. apply matchHere_inv in E. tauto.
Qed.

(** The descriptor ["NdM"] is parsed into [N] and [M]. *)
Lemma matchRegex_dice (n m : string) :
  number n -> number m ->
  matchRegex (n +:+ "d" +:+ m) = Some (n, m, None).
Proof.
  intros [Hn1 Hn2] [Hm1 Hm2]. apply matchRegex_head. unfold matchHere.
  rewrite (takeDigits_append n ("d" +:+ m) Hn2 (isDigit_d _)).
  rewrite Hn1. rewrite append_cons, append_empty_l. rewrite Ascii.eqb_refl.
  rewrite <- (append_empty_r m) at 1.
  rewrite (takeDigits_append m "" Hm2 I). now rewrite Hm1.
Qed.

(** The descriptor ["NdM+B"] is parsed into [N], [M] and [B]. *)
Lemma matchRegex_dice_bonus (n m b : string) :
  number n -> number m -> number b ->
  matchRegex (n +:+ "d" +:+ m +:+ "+" +:+ b) = Some (n, m, Some b).
Proof.
  intros [Hn1 Hn2] [Hm1 Hm2] [Hb1 Hb2]. apply matchRegex_head.
  unfold matchHere.
  rewrite (takeDigits_append n ("d" +:+ m +:+ "+" +:+ b) Hn2 (isDigit_d _)).
  rewrite Hn1. rewrite append_cons, append_empty_l. rewrite Ascii.eqb_refl.
  rewrite (takeDigits_append m ("+" +:+ b) Hm2 (isDigit_plus _)).
  rewrite Hm1. rewrite append_cons, append_empty_l. rewrite Ascii.eqb_refl.
  rewrite <- (append_empty_r b) at 1.
  rewrite (takeDigits_append b "" Hb2 I). now rewrite Hb1.
Qed.

Lemma parseDigits_nonneg (s : string) (acc : Z) :
  allDigits s = true -> 0 <= acc -> 0 <= parseDigits acc s.
Proof.
  revert acc. induction s as [|c s IH]; intros acc Hd Hacc; cbn in *.
  - exact Hacc.
  - apply andb_true_iff in Hd as [Hc Hd]. apply IH; [exact Hd|].
    unfold isDigit in Hc. apply andb_true_iff in Hc as [Hlo _].
    apply Nat.leb_le in Hlo. unfold digitValue. lia.
Qed.

Lemma parseInt_nonneg (s : string) : number s -> 0 <= parseInt s.
Proof. intros [_ Hd]. now apply parseDigits_nonneg. Qed.

End DamageDescriptor.

(** ** Rolling damage *)

Section RollDamage.

Import DamageRegex DamagePattern CombatService.

Variable random : nat -> Q.

Lemma advance_advance (n k : nat) (w : World) :
  advance n (advance k w) = advance (n + k) w.
Proof. unfold advance. cbn. f_equal. lia. Qed.

Lemma advance_0 (w : World) : advance 0 w = w.
Proof. now destruct w. Qed.

Lemma rollDie_spec (sides : Z) (w : World) :
  rollDie random sides w = (face random sides (cursor w), advance 1 w).
Proof. reflexivity. Qed.

Lemma rollLoop_spec (n : nat) (sides total : Z) (w : World) :
  rollLoop random n sides total w
  = (total + sumOfRolls random sides (cursor w) n, advance n w).
Proof.
  revert total w. induction n as [|n IH]; intros total w.
  - cbn. rewrite Z.add_0_r. now rewrite advance_0.
  - cbn [rollLoop sumOfRolls]. unfold bind. rewrite rollDie_spec.
    rewrite IH. rewrite advance_advance. cbn [advance cursor].
    replace (n + 1)%nat with (S n) by lia.
    change (1 + cursor w)%nat with (S (cursor w)).
    f_equal. lia.
Qed.

Lemma orElse_Some_0 (x : Z) : orElse (Some x) 0 = x.
Proof.
  unfold orElse, truthyNumber. cbn. destruct (x =? 0) eqn:E; cbn.
  - apply Z.eqb_eq in E. lia.
  - reflexivity.
Qed.

Lemma bonus_value (b : option string) :
  orElse (parseInt <$> b) 0 = from_option parseInt 0 b.
Proof. destruct b as [b|]; cbn; [apply orElse_Some_0 | reflexivity]. Qed.

(** The value of [rollDamage] on a descriptor that matches. *)
Lemma rollDamage_match (s numDice dieSize : string) (bonus : option string)
    (w : World) :
  matchRegex s = Some (numDice, dieSize, bonus) ->
  rollDamage random s w
  = (sumOfRolls random (parseInt dieSize) (cursor w)
                (Z.to_nat (parseInt numDice))
     + from_option parseInt 0 bonus,
     advance (Z.to_nat (parseInt numDice)) w).
Proof.
  intros Hm. unfold rollDamage. rewrite Hm. unfold bind.
  rewrite rollLoop_spec. unfold ret. now rewrite bonus_value, Z.add_0_l.
Qed.

(** [Math.random()] returns a sample in [[0, 1)]: the face is in
    [[1, sides]]. *)
Lemma face_range (sides : Z) (i : nat) :
  (0 <= random i)%Q -> (random i < 1)%Q -> 1 <= sides ->
  1 <= face random sides i <= sides.
Proof.
  intros H0 H1 Hs. unfold face.
  assert (Hlo : (0 <= random i * inject_Z sides)%Q).
  { apply Qmult_le_0_compat; [exact H0|].
    change 0%Q with (inject_Z 0). rewrite <- Zle_Qle. lia. }
  assert (Hhi : (random i * inject_Z sides < inject_Z sides)%Q).
  { rewrite <- (Qmult_1_l (inject_Z sides)) at 2.
    apply Qmult_lt_compat_r; [|exact H1].
    change 0%Q with (inject_Z 0). rewrite <- Zlt_Qlt. lia. }
  assert (0 <= Qfloor (random i * inject_Z sides)).
  { change 0 with (Qfloor (inject_Z 0)) at 1. rewrite Qfloor_Z.
    rewrite <- (Qfloor_Z 0). now apply Qfloor_resp_le. }
  assert (Qfloor (random i * inject_Z sides) < sides).
  { rewrite Zlt_Qlt. eapply Qle_lt_trans; [apply Qfloor_le | exact Hhi]. }
  lia.
Qed.

Lemma sumOfRolls_range (sides : Z) (start n : nat) :
  (forall i, 1 <= face random sides i <= sides) ->
  Z.of_nat n <= sumOfRolls random sides start n <= Z.of_nat n * sides.
Proof.
  intros Hf. revert start. induction n as [|n IH]; intros start.
  - cbn. lia.
  - cbn [sumOfRolls]. specialize (IH (S start)). specialize (Hf start). nia.
Qed.

Lemma sumOfRolls_constant (sides v : Z) (start n : nat) :
  (forall i, face random sides i = v) ->
  sumOfRolls random sides start n = Z.of_nat n * v.
Proof.
  intros Hf. revert start. induction n as [|n IH]; intros start.
  - reflexivity.
  - cbn [sumOfRolls]. rewrite IH, Hf. lia.
Qed.

End RollDamage.

(** C4: [rollDamage] returns 0, and draws no sample, whenever the descriptor
    does not match the pattern [\d+d\d+(\+\d+)?] (no part of it is a word of
    the pattern, which is what [String.prototype.match] tests); otherwise
    the match gives numbers N, M and possibly B and [rollDamage] returns the
    sum of N rolls of an M-sided die plus B, with 0 for an absent B;
    ["NdM"] and ["NdM+B"] are parsed as written; and with a die that always
    shows 4, [rollDamage("2d6+3")] is 11. *)
Theorem rollDamage_spec (random : nat -> Q) (w : World) :
  (forall s, ~ DamagePattern.Occurs s ->
     CombatService.rollDamage random s w = (0, w)) /\
  (forall s, DamagePattern.Occurs s ->
     exists n m b,
       DamageRegex.matchRegex s = Some (n, m, b) /\
       DamagePattern.number n /\ DamagePattern.number m /\
       (forall b', b = Some b' -> DamagePattern.number b') /\
       CombatService.rollDamage random s w
       = (sumOfRolls random (DamageRegex.parseInt m) (cursor w)
                     (Z.to_nat (DamageRegex.parseInt n))
          + from_option DamageRegex.parseInt 0 b,
          advance (Z.to_nat (DamageRegex.parseInt n)) w)) /\
  (forall n m, DamagePattern.number n -> DamagePattern.number m ->
     CombatService.rollDamage random (n +:+ "d" +:+ m) w
     = (sumOfRolls random (DamageRegex.parseInt m) (cursor w)
                   (Z.to_nat (DamageRegex.parseInt n)) + 0,
        advance (Z.to_nat (DamageRegex.parseInt n)) w)) /\
  (forall n m b,
     DamagePattern.number n -> DamagePattern.number m ->
     DamagePattern.number b ->
     CombatService.rollDamage random (n +:+ "d" +:+ m +:+ "+" +:+ b) w
     = (sumOfRolls random (DamageRegex.parseInt m) (cursor w)
                   (Z.to_nat (DamageRegex.parseInt n))
        + DamageRegex.parseInt b,
        advance (Z.to_nat (DamageRegex.parseInt n)) w)) /\
  ((forall i, face random 6 i = 4) ->
     fst (CombatService.rollDamage random "2d6+3" w) = 11).
Proof.
  split; [|split; [|split; [|split]]].
  - intros s Hs. apply matchRegex_none_iff in Hs.
    unfold CombatService.rollDamage. now rewrite Hs.
  - intros s Hs.
    destruct (DamageRegex.matchRegex s) as [[[n m] b]|] eqn:E.
    + exists n, m, b. pose proof (matchRegex_groups _ _ _ _ E) as (Hn & Hm & Hb).
      refine (conj eq_refl (conj Hn (conj Hm (conj Hb _)))).
      now apply rollDamage_match.
    + exfalso. now apply matchRegex_none_iff in E.
  - intros n m Hn Hm.
    now rewrite (rollDamage_match random _ _ _ _ w (matchRegex_dice n m Hn Hm)).
  - intros n m b Hn Hm Hb.
    now rewrite (rollDamage_match random _ _ _ _ w
                   (matchRegex_dice_bonus n m b Hn Hm Hb)).
  - intros H4.
    rewrite (rollDamage_match random "2d6+3" "2" "6" (Some "3") w eq_refl).
    cbn [fst]. change (DamageRegex.parseInt "6") with 6.
    rewrite (sumOfRolls_constant random 6 4 _ _ H4). reflexivity.
Qed.

(** C4 at work: descriptors without and with a match, and the dice of the
    specification, on samples that are all 1/2. *)
Lemma rollDamage_spec_witness :
  CombatService.rollDamage halves "épée" freshWorld = (0, freshWorld) /\
  (exists n m b, DamageRegex.matchRegex "dégâts: 1d8+2" = Some (n, m, b)) /\
  fst (CombatService.rollDamage halves "2d6" freshWorld) = 8 /\
  fst (CombatService.rollDamage halves "1d8+2" freshWorld) = 7 /\
  fst (CombatService.rollDamage halves "2d6+3" freshWorld) = 11.
Proof.
  destruct (rollDamage_spec halves freshWorld) as (H1 & H2 & H3 & H4 & H5).
  split; [|split; [|split; [|split]]].
  - apply H1. apply matchRegex_none_iff. reflexivity.
  - destruct (H2 "dégâts: 1d8+2") as (n & m & b & E & _).
    + exists "dégâts: ", "1d8+2", "". split; [reflexivity|].
      apply (DamagePattern.matches_dice_bonus "1" "8" "2"); now split.
    + exists n, m, b. exact E.
  - etransitivity; [|reflexivity].
    exact (f_equal fst (H3 "2" "6" (conj eq_refl eq_refl) (conj eq_refl eq_refl))).
  - etransitivity; [|reflexivity].
    exact (f_equal fst (H4 "1" "8" "2" (conj eq_refl eq_refl)
                          (conj eq_refl eq_refl) (conj eq_refl eq_refl))).
  - apply H5. reflexivity.
Defined.

(** C10: when the parse of the descriptor gives N >= 1 dice of M >= 1 sides
    and the bonus B (0 when absent), and every roll of the M-sided die is in
    [[1, M]], the value of [rollDamage] lies between N + B and N * M + B,
    and it is not negative. *)
Theorem rollDamage_range (random : nat -> Q) (s : string) (w : World)
    (numDice dieSize : string) (bonus : option string) :
  DamageRegex.matchRegex s = Some (numDice, dieSize, bonus) ->
  1 <= DamageRegex.parseInt numDice ->
  1 <= DamageRegex.parseInt dieSize ->
  (forall i, 1 <= face random (DamageRegex.parseInt dieSize) i
             <= DamageRegex.parseInt dieSize) ->
  DamageRegex.parseInt numDice + from_option DamageRegex.parseInt 0 bonus
    <= fst (CombatService.rollDamage random s w)
    <= DamageRegex.parseInt numDice * DamageRegex.parseInt dieSize
       + from_option DamageRegex.parseInt 0 bonus
  /\ 0 <= fst (CombatService.rollDamage random s w).
Proof.
  intros Hm HN HM Hf.
  rewrite (rollDamage_match random _ _ _ _ w Hm). cbn [fst].
  pose proof (sumOfRolls_range random _ (cursor w)
                (Z.to_nat (DamageRegex.parseInt numDice)) Hf) as Hsum.
  rewrite Z2Nat.id in Hsum by lia.
  assert (0 <= from_option DamageRegex.parseInt 0 bonus).
  { destruct (matchRegex_groups _ _ _ _ Hm) as (_ & _ & Hb).
    destruct bonus as [b|]; cbn; [|lia].
    apply parseInt_nonneg. now apply Hb. }
  lia.
Qed.

(** C10 at work: ["2d6+3"] on samples that are all 1/2. *)
Lemma rollDamage_range_witness :
  2 + 3 <= fst (CombatService.rollDamage halves "2d6+3" freshWorld) <= 2 * 6 + 3
  /\ 0 <= fst (CombatService.rollDamage halves "2d6+3" freshWorld).
Proof.
  apply (rollDamage_range halves "2d6+3" freshWorld "2" "6" (Some "3")).
  - reflexivity.
  - vm_compute. discriminate.
  - vm_compute. discriminate.
  - intros i. apply (face_range halves 6 i);
      first [ reflexivity | unfold Qle; cbn; lia | lia ].
Defined.


(** ** Attack bonus *)

Section AttackBonus.

Import CombatService.

Lemma ceilQuarter_spec (n : Z) :
  n <= 4 * ceilQuarter n < n + 4.
Proof.
  unfold ceilQuarter.
  pose proof (Z.div_mod (- n) 4 ltac:(lia)).
  pose proof (Z.mod_pos_bound (- n) 4 ltac:(lia)). lia.
Qed.

Lemma getAttackBonus_cursor (character : Character) (weapon : Attack)
    (w : World) :
  cursor (snd (getAttackBonus character weapon w)) = cursor w /\
  combatMessages (snd (getAttackBonus character weapon w)) = combatMessages w.
Proof.
  unfold getAttackBonus.
  destruct (attackBonus weapon); [now cbn|].
  destruct (stats character) as [st|]; [|now cbn].
  destruct (st !! governingStat weapon); now cbn.
Qed.

End AttackBonus.




(** ** Resolving an attack *)

Section ExecuteAttack.

Import DamageRegex CombatService.

Variable random : nat -> Q.


End ExecuteAttack.




(** ** Attacks of enemies and companions *)

(** The guard of [executeEntityAttack]: when the target carries a character
    sheet whose [currentHP] is 0 or less, the attack fails with damage 0 and
    the "already fallen" message, and no sample is drawn. *)
Lemma executeEntityAttack_fallen_sheet (random : nat -> Q)
    (attacker : Character) (attack : Attack) (target : Target)
    (sheet : Character) (w : World) :
  character target = Some sheet -> currentHP sheet <= 0 ->
  exists line,
    CombatService.executeEntityAttack random (Some attacker) (Some attack)
      (Some target) w
    = (mkEntityAttackResult false 0 None,
       {| cursor := cursor w; console := console w ++ [line];
          combatMessages :=
            combatMessages w ++ [alreadyFallenMessage attacker target] |}).
Proof.
  intros Hs Hhp. unfold CombatService.executeEntityAttack. rewrite Hs.
  apply Z.leb_le in Hhp. rewrite Hhp.
  eexists. reflexivity.
Qed.

(** C8 (the code at the failing input): a goblin bites a player entry that
    has [currentHP] 0 and carries no [character] field. The guard does not
    fire: a d20 and a damage die are drawn, and the attack is reported as a
    hit for 6. *)
Theorem executeEntityAttack_fallen_entity :
  let goblin := sampleCharacter "Gobelin" Enemy 7 7 in
  let bite := mkAttack "Morsure" (Some 5) None None None None
                       (Some "1d6+2") None None in
  let fallen := mkTarget (sampleCharacter "Elarion" Player 0 20) None in
  currentHP (entity fallen) <= 0 /\
  CombatService.executeEntityAttack halves (Some goblin) (Some bite)
    (Some fallen) freshWorld
  = (mkEntityAttackResult true 6 (Some false),
     {| cursor := 2; console := [];
        combatMessages :=
          [mkMessage "⚔️ Gobelin utilise Morsure et inflige 6 dégâts à Elarion"
                     (Some "enemy-hit")] |}).
Proof.
  cbv zeta. split; [cbn; lia | vm_compute; reflexivity].
Qed.

(** ** Creating the enemies of an encounter *)

Section CreateEnemies.

Import CombatService.

Variable enemyTemplates : gmap string EnemyTemplate.

Lemma expandEncounter_spec (g : Encounter) (i : nat) (w : World) :
  (forall template, enemyTemplates !! encounterType g = Some template ->
     expandEncounter enemyTemplates g i w
     = (map (enemyInstance g i template) (seq 0 (count g)), w)) /\
  (enemyTemplates !! encounterType g = None ->
     expandEncounter enemyTemplates g i w
     = ([], {| cursor := cursor w;
               console := console w ++ [missingTemplateLine g];
               combatMessages := combatMessages w |})).
Proof.
  unfold expandEncounter. split.
  - intros template H. now rewrite H.
  - intros H. now rewrite H.
Qed.

(** The flatMap changes nothing but the console, to which it adds one line
    for each group without a template, in order. *)
Lemma expandEncounters_world (groups : list Encounter) (i : nat) (w : World) :
  snd (expandEncounters enemyTemplates groups i w)
  = {| cursor := cursor w;
       console := console w
                  ++ map missingTemplateLine
                       (List.filter (fun g => negb (knownGroup enemyTemplates g)) groups);
       combatMessages := combatMessages w |}.
Proof.
  revert i w. induction groups as [|g groups IH]; intros i w.
  - cbn. rewrite app_nil_r. now destruct w.
  - cbn [expandEncounters]. unfold bind.
    destruct (expandEncounter_spec g i w) as [Hk Hu].
    cbn [List.filter]. unfold knownGroup at 1.
    destruct (enemyTemplates !! encounterType g) as [template|] eqn:E.
    + rewrite (Hk template eq_refl).
      specialize (IH (S i) w).
      destruct (expandEncounters enemyTemplates groups (S i) w) as [more w'].
      cbn [snd] in *. unfold ret. cbn [snd]. rewrite IH.
      rewrite bool_decide_eq_true_2 by eauto. reflexivity.
    + rewrite (Hu eq_refl).
      match goal with |- context [expandEncounters _ _ _ ?w1] =>
        specialize (IH (S i) w1);
        destruct (expandEncounters enemyTemplates groups (S i) w1) as [more w']
      end.
      cbn [snd] in *. unfold ret. cbn [snd]. rewrite IH. cbn [cursor console combatMessages].
      rewrite bool_decide_eq_false_2 by (intros [? ?]; discriminate).
      cbn [negb map]. now rewrite <- app_assoc.
Qed.


Lemma expandEncounters_length (groups : list Encounter) (i : nat) (w : World) :
  length (fst (expandEncounters enemyTemplates groups i w))
  = list_sum (map count (List.filter (knownGroup enemyTemplates) groups)).
Proof.
  revert i w. induction groups as [|g groups IH]; intros i w.
  - reflexivity.
  - cbn [expandEncounters]. unfold bind.
    destruct (expandEncounter_spec g i w) as [Hk Hu].
    cbn [List.filter]. unfold knownGroup at 1.
    destruct (enemyTemplates !! encounterType g) as [template|] eqn:E.
    + rewrite (Hk template eq_refl). specialize (IH (S i) w).
      destruct (expandEncounters enemyTemplates groups (S i) w) as [more w'].
      unfold ret. cbn [fst] in *.
      rewrite bool_decide_eq_true_2 by eauto.
      cbn [map list_sum]. rewrite length_app, length_map, length_seq.
      now rewrite IH.
    + rewrite (Hu eq_refl).
      match goal with |- context [expandEncounters _ _ _ ?w1] =>
        specialize (IH (S i) w1);
        destruct (expandEncounters enemyTemplates groups (S i) w1) as [more w']
      end.
      unfold ret. cbn [fst] in *.
      rewrite bool_decide_eq_false_2 by (intros [? ?]; discriminate).
      exact IH.
Qed.

End CreateEnemies.



(** ** Sorting the turn order *)

Section Sort.

Import CombatService.

Context {A : Type} (compare : A -> A -> Z).

Lemma insertSorted_perm (x : A) (l : list A) :
  Permutation (insertSorted compare x l) (x :: l).
Proof.
  induction l as [|y l IH]; cbn [insertSorted].
  - reflexivity.
  - destruct (0 <? compare x y); [|reflexivity].
    rewrite IH. apply perm_swap.
Qed.

Lemma sort_perm (l : list A) : Permutation (sort compare l) l.
Proof.
  induction l as [|x l IH]; cbn; [reflexivity|].
  fold (sort compare l). rewrite insertSorted_perm. now constructor.
Qed.

Section Sorted.

Variable R : A -> A -> Prop.
Hypothesis R_keep : forall x y, compare x y <= 0 -> R x y.
Hypothesis R_swap : forall x y, 0 < compare x y -> R y x.
Hypothesis R_trans : forall x y z, R x y -> R y z -> R x z.



End Sorted.

Section Stable.

Variable P : A -> bool.
Hypothesis P_ties : forall x y, P x = true -> P y = true -> compare x y <= 0.



End Stable.

End Sort.

(** ** Rolling initiative *)

Section RollInitiative.

Import CombatService.





Variable random : nat -> Q.

Lemma initiativeRoll_spec (c : Character) (w : World) :
  hasDexterity c ->
  initiativeRoll random c w
  = (Returns (rolledInitiative random (cursor w) c), advance 1 w).
Proof.
  intros [dex Hdex]. unfold initiativeRoll, rolledInitiative, bind, rollD20.
  rewrite rollDie_spec. unfold dexterityOf in *.
  destruct (stats c) as [st|]; [|discriminate]. cbn in Hdex.
  cbn [mbind option_bind]. rewrite Hdex. reflexivity.
Qed.

Lemma enemyEntries_length (start : nat) (enemies : list Character) :
  length (enemyEntries random start enemies) = length enemies.
Proof.
  revert start. induction enemies as [|e enemies IH]; intros start; cbn;
    [reflexivity | now rewrite IH].
Qed.

Lemma pushEnemies_spec (enemies combatants : list Character) (w : World) :
  Forall hasDexterity enemies ->
  pushEnemies random enemies combatants w
  = (Returns (combatants ++ enemyEntries random (cursor w) enemies),
     advance (length enemies) w).
Proof.
  revert combatants w. induction enemies as [|e enemies IH];
    intros combatants w Hall.
  - cbn. rewrite app_nil_r. now rewrite advance_0.
  - apply Forall_cons in Hall as [He Hall].
    cbn [pushEnemies enemyEntries]. unfold bindO.
    rewrite (initiativeRoll_spec e w He).
    rewrite (IH _ _ Hall). rewrite advance_advance.
    cbn [advance cursor]. rewrite <- app_assoc. cbn [app length].
    f_equal. f_equal. lia.
Qed.



End RollInitiative.



(** All four initiatives are 12: the player comes first, then the
    companion, then the goblins in the order they were given. With a higher
    roll the second goblin goes first. *)
Example rollInitiative_tie_order :
  let hero := sampleCharacter "Elarion" Player 20 20 in
  let friend := sampleCharacter "Finn" Companion 15 15 in
  let ids (r : Outcome (list Character)) :=
    match r with
    | Returns order => map (fun e => (id e, initiative e)) order
    | _ => []
    end in
  ids (fst (CombatService.rollInitiative tiedRolls (Some hero) (Some friend)
              sampleGoblins freshWorld))
  = [("player", 12); ("companion", 12); ("gobelin_0_0", 12); ("gobelin_0_1", 12)]
  /\
  ids (fst (CombatService.rollInitiative
              (fun i => if (i =? 3)%nat then 19 # 20 else 1 # 2)
              (Some hero) (Some friend) sampleGoblins freshWorld))
  = [("gobelin_0_1", 22); ("gobelin_0_0", 13); ("player", 12); ("companion", 12)].
Proof. cbv zeta. split; vm_compute; reflexivity. Qed.

(** ** Healing in the character store *)

Section StoreInvariant.

Import CharacterStore.

Variable P : Character -> Prop.



(** [P] looks at the hit points only. *)
Hypothesis P_hit_points : forall c c',
  currentHP c' = currentHP c -> maxHP c' = maxHP c -> P c -> P c'.


(** The amounts of healing that keep [P]. *)
Variable ok : Z -> Prop.

Hypothesis P_heal : forall character updated amount,
  P character -> ok amount -> maxHP updated = maxHP character ->
  P (withCurrentHP updated
       (Z.min (maxHP character) (currentHP character + amount))).




End StoreInvariant.










(** The potion of the sample store heals 50: the player goes from 4 to its
    maximum of 24 hit points, and one potion of the two is left. *)
Example useItem_potion :
  let result := CharacterStore.useItem ∅ "potion" "player" sampleStore
                  freshWorld in
  fst (fst result) = CharacterStore.mkUseResult true "Vous récupérez 50 PV" /\
  (currentHP <$> CharacterStore.playerCharacter (snd (fst result))) = Some 24 /\
  ((fun c => quantity <$> inventory c)
     <$> CharacterStore.playerCharacter (snd (fst result))) = Some [Some 1].
Proof. cbv zeta. repeat split; vm_compute; reflexivity. Qed.

(** A hit die on the sample store: the d10 shows 6, the constitution
    modifier is 1, the player goes from 4 to 11 hit points. *)
Example spendHitDie_sample :
  exists state' w',
    CharacterStore.spendHitDie halves "player" sampleStore freshWorld
    = (Returns state', w') /\
    (currentHP <$> CharacterStore.playerCharacter state') = Some 11 /\
    (hitDice <$> CharacterStore.playerCharacter state') = Some 2.
Proof. do 2 eexists. repeat split; vm_compute; reflexivity. Qed.

(* ===================================================================== *)
(** * Part III: more properties of the sources                            *)
(* ===================================================================== *)

(** ** The turn manager *)

Section NextAlive.

Import CombatTurnManager.

Variable turnOrder : list Character.

Lemma skipLoop_first (fuel nextIndex attempts i : nat) :
  skipLoop fuel turnOrder nextIndex attempts = Some i ->
  exists d, (1 <= d)%nat /\ (attempts + d < length turnOrder)%nat /\
            i = ((nextIndex + d) mod length turnOrder)%nat /\
            forall d', (1 <= d' < d)%nat ->
              fallenAt turnOrder ((nextIndex + d') mod length turnOrder)%nat.
Proof.
  set (n := length turnOrder).
  revert nextIndex attempts.
  induction fuel as [|fuel IH]; intros nextIndex attempts; cbn [skipLoop].
  - discriminate.
  - fold n. destruct (n <=? S attempts)%nat eqn:Hlast; [discriminate|].
    apply Nat.leb_gt in Hlast.
    assert (Hstep : forall d, ((((nextIndex + 1) mod n) + d) mod n
                               = (nextIndex + S d) mod n)%nat).
    { intros d. rewrite Nat.Div0.add_mod_idemp_l. f_equal. lia. }
    assert (Hrec :
      fallenAt turnOrder ((nextIndex + 1) mod n)%nat ->
      skipLoop fuel turnOrder ((nextIndex + 1) mod n)%nat (S attempts) = Some i ->
      exists d, (1 <= d)%nat /\ (attempts + d < n)%nat /\
                i = ((nextIndex + d) mod n)%nat /\
                forall d', (1 <= d' < d)%nat ->
                  fallenAt turnOrder ((nextIndex + d') mod n)%nat).
    { intros Hfallen Hrun. apply IH in Hrun as (d & Hd1 & Hd2 & -> & Hbefore).
      exists (S d). split; [lia|]. split; [lia|]. split; [apply Hstep|].
      intros d' Hd'. destruct d' as [|[|d']]; [lia | exact Hfallen |].
      rewrite <- Hstep. apply Hbefore. lia. }
    destruct (turnOrder !! ((nextIndex + 1) mod n)%nat) as [c|] eqn:Hc.
    + destruct (0 <? currentHP c) eqn:Hhp.
      * intros [= <-]. exists 1%nat. repeat split; try lia.
      * destruct (S attempts <? n)%nat; [|discriminate].
        apply Hrec. intros c' Hc'. rewrite Hc in Hc'. injection Hc' as <-.
        now apply Z.ltb_ge.
    + destruct (S attempts <? n)%nat; [|discriminate].
      apply Hrec. intros c' Hc'. rewrite Hc in Hc'. discriminate.
Qed.

End NextAlive.

Lemma mod_wrap (a d n : nat) :
  (a < n)%nat -> (1 <= d < n)%nat -> ((a + d) mod n)%nat <> a.
Proof.
  intros Ha Hd. destruct (le_lt_dec n (a + d)) as [Hge | Hlt].
  - assert (H : ((a + d) mod n = a + d - n)%nat).
    { symmetry. apply (Nat.mod_unique (a + d) n 1); lia. }
    lia.
  - rewrite Nat.mod_small by lia. lia.
Qed.

Lemma getCurrentCombatant_lookup {A : Type} (i : nat) (l : list A) (c : A) :
  l !! i = Some c -> TurnManager.getCurrentCombatant i l = Some c.
Proof.
  intros H. unfold TurnManager.getCurrentCombatant.
  pose proof (lookup_lt_Some _ _ _ H) as Hlt.
  assert (H0 : (length l =? 0)%nat = false) by (apply Nat.eqb_neq; lia).
  assert (H1 : (length l <=? i)%nat = false) by (apply Nat.leb_gt; lia).
  now rewrite H0, H1.
Qed.

(** X1: an index [skipToNextAliveCombatant] returns is the next living
    combatant after the current one in the cyclic order: it is [d] steps
    after [currentTurn], every entry in between is fallen, it is not
    [currentTurn] itself, and [isCurrentCombatantAlive] holds once the turn
    is set to it. *)
Theorem skipToNextAliveCombatant_next (entries : list Target)
    (currentTurn i : nat) :
  (currentTurn < length entries)%nat ->
  CombatTurnManager.skipToNextAliveCombatant currentTurn (map entity entries)
    = Some i ->
  (i < length entries)%nat /\ i <> currentTurn /\
  TurnManager.isCurrentCombatantAlive i entries = true /\
  exists d, (1 <= d < length entries)%nat /\
            i = ((currentTurn + d) mod length entries)%nat /\
            forall d', (1 <= d' < d)%nat ->
              fallenAt (map entity entries)
                       ((currentTurn + d') mod length entries)%nat.
Proof.
  intros Hcur Hrun. unfold CombatTurnManager.skipToNextAliveCombatant in Hrun.
  pose proof (skipLoop_sound _ _ _ _ _ Hrun) as (c & Hc & Hhp).
  apply skipLoop_first in Hrun as (d & Hd1 & Hd2 & Hi & Hbefore).
  rewrite length_map in *. cbn in Hd2.
  assert (Hlt : (i < length entries)%nat)
    by (rewrite Hi; apply Nat.mod_upper_bound; lia).
  split; [exact Hlt|]. split; [rewrite Hi; apply mod_wrap; lia|].
  split.
  - rewrite list_lookup_fmap in Hc.
    destruct (entries !! i) as [t|] eqn:Ht; [|discriminate].
    cbn in Hc. injection Hc as <-.
    unfold TurnManager.isCurrentCombatantAlive.
    rewrite (getCurrentCombatant_lookup _ _ _ Ht). now apply Z.ltb_lt.
  - exists d. split; [lia|]. split; [exact Hi | exact Hbefore].
Qed.

Lemma skipToNextAliveCombatant_next_witness :
  (2 < length sampleTurnOrder)%nat /\ 3%nat <> 2%nat /\
  TurnManager.isCurrentCombatantAlive 3 sampleTurnOrder = true.
Proof.
  destruct (skipToNextAliveCombatant_next sampleTurnOrder 1 3
              ltac:(cbn; lia) eq_refl) as (H1 & H2 & H3 & _).
  split; [cbn in *; lia|]. split; [lia | exact H3].
Defined.

Section TurnEffects.

Import TurnManager.

Lemma log_world (line : string) (w : World) :
  cursor (snd (log line w)) = cursor w /\
  combatMessages (snd (log line w)) = combatMessages w.
Proof. now cbn. Qed.

(** X2: outside the phases ['combat'] and ['turn'], with [currentTurn]
    beyond the turn order, or on a fallen combatant, the turn effect makes
    no call at all (no phase change, no [onNextTurn], no timer) and adds no
    message: nothing moves the turn past a fallen combatant. *)
Theorem turnEffect_silent (phase : string) (currentTurn : nat)
    (turnOrder : list Target) (w : World) :
  (phase <> "combat" /\ phase <> "turn") \/
  isCurrentCombatantAlive currentTurn turnOrder = false ->
  fst (turnEffect phase currentTurn turnOrder w) = [] /\
  combatMessages (snd (turnEffect phase currentTurn turnOrder w))
    = combatMessages w /\
  cursor (snd (turnEffect phase currentTurn turnOrder w)) = cursor w.
Proof.
  intros H. unfold turnEffect, bind.
  cbn [log fst snd].
  destruct (negb (bool_decide (phase = "combat"))
            && negb (bool_decide (phase = "turn"))) eqn:Ephase.
  - now cbn.
  - destruct H as [[H1 H2] | Hdead].
    + rewrite (bool_decide_eq_false_2 _ H1), (bool_decide_eq_false_2 _ H2)
        in Ephase. discriminate.
    + rewrite Hdead.
      destruct (getCurrentCombatant currentTurn turnOrder); now cbn.
Qed.

(** X3: a living companion whose entry carries no [character] (the entries
    [rollInitiative] builds carry none) never gets its turn: the effect
    only calls [onNextTurn], without a phase change, a message or a
    timer. *)
Theorem turnEffect_companion_skipped (phase : string) (currentTurn : nat)
    (turnOrder : list Target) (c : Target) (w : World) :
  phase = "combat" \/ phase = "turn" ->
  turnOrder !! currentTurn = Some c ->
  type (entity c) = Companion -> character c = None ->
  0 < currentHP (entity c) ->
  fst (turnEffect phase currentTurn turnOrder w) = [OnNextTurn] /\
  combatMessages (snd (turnEffect phase currentTurn turnOrder w))
    = combatMessages w.
Proof.
  intros Hphase Hc Hty Hsheet Hhp. unfold turnEffect, bind.
  cbn [log fst snd].
  assert (Ephase : negb (bool_decide (phase = "combat"))
                   && negb (bool_decide (phase = "turn")) = false).
  { destruct Hphase as [-> | ->]; reflexivity. }
  rewrite Ephase.
  assert (Halive : isCurrentCombatantAlive currentTurn turnOrder = true).
  { unfold isCurrentCombatantAlive.
    rewrite (getCurrentCombatant_lookup _ _ _ Hc). now apply Z.ltb_lt. }
  rewrite Halive, (getCurrentCombatant_lookup _ _ _ Hc). cbn [negb].
  rewrite Hty, Hsheet. now cbn.
Qed.

Lemma possibleTargets_In (turnOrder : list Target) (t : Target) :
  In t (possibleTargets turnOrder) <->
  In t turnOrder /\ isAlly t = true /\ 0 < currentHP (entity t).
Proof.
  unfold possibleTargets. rewrite filter_In, andb_true_iff, Z.ltb_lt. tauto.
Qed.

(** X4: the target of an enemy. There is none exactly when no ally of the
    turn order is alive; a chosen target is a living player or companion of
    the turn order; and it is a player whenever a player is alive. *)
Theorem chooseTarget_spec (turnOrder : list Target) :
  (chooseTarget turnOrder = None <->
   forall t, In t turnOrder -> isAlly t = true -> currentHP (entity t) <= 0) /\
  (forall t, chooseTarget turnOrder = Some t ->
     In t turnOrder /\ isAlly t = true /\ 0 < currentHP (entity t)) /\
  (forall p, In p turnOrder -> type (entity p) = Player ->
     0 < currentHP (entity p) ->
     exists t, chooseTarget turnOrder = Some t /\ type (entity t) = Player).
Proof.
  unfold chooseTarget. split; [|split].
  - destruct (find _ (possibleTargets turnOrder)) as [t|] eqn:Hf.
    + split; [discriminate|]. intros Hall. exfalso.
      apply find_some in Hf as [Hin _].
      apply possibleTargets_In in Hin as (Hin & Hally & Hhp).
      specialize (Hall t Hin Hally). lia.
    + destruct (possibleTargets turnOrder) as [|t rest] eqn:Hp.
      * split; [|reflexivity]. intros _ t Hin Hally.
        destruct (Z_lt_le_dec 0 (currentHP (entity t))) as [Hhp|]; [|assumption].
        exfalso. assert (Hin' : In t (possibleTargets turnOrder))
          by (apply possibleTargets_In; auto).
        rewrite Hp in Hin'. destruct Hin'.
      * split; [discriminate|]. intros Hall. exfalso.
        assert (Hin : In t (possibleTargets turnOrder)) by (rewrite Hp; now left).
        apply possibleTargets_In in Hin as (Hin & Hally & Hhp).
        specialize (Hall t Hin Hally). lia.
  - intros t Ht. apply possibleTargets_In.
    destruct (find _ (possibleTargets turnOrder)) as [t'|] eqn:Hf.
    + injection Ht as <-. now apply find_some in Hf as [Hin _].
    + destruct (possibleTargets turnOrder) as [|t' rest]; [discriminate|].
      cbn in Ht. injection Ht as <-. now left.
  - intros p Hin Hty Hhp.
    assert (Hp : In p (possibleTargets turnOrder)).
    { apply possibleTargets_In. split; [exact Hin|]. split; [|exact Hhp].
      unfold isAlly. now rewrite (bool_decide_eq_true_2 _ Hty). }
    destruct (find _ (possibleTargets turnOrder)) as [t|] eqn:Hf.
    + exists t. split; [reflexivity|].
      apply find_some in Hf as [_ Ht]. now apply bool_decide_eq_true in Ht.
    + exfalso. apply (find_none _ _ Hf) in Hp.
      now rewrite (bool_decide_eq_true_2 _ Hty) in Hp.
Qed.

End TurnEffects.

Lemma turnEffect_silent_witness :
  fst (TurnManager.turnEffect "combat" 2 sampleTurnOrder freshWorld) = [] /\
  fst (TurnManager.turnEffect "player-turn" 0 sampleTurnOrder freshWorld) = [].
Proof.
  split.
  - apply (turnEffect_silent "combat" 2 sampleTurnOrder freshWorld).
    right. reflexivity.
  - apply (turnEffect_silent "player-turn" 0 sampleTurnOrder freshWorld).
    left. split; discriminate.
Defined.

Lemma turnEffect_companion_skipped_witness :
  fst (TurnManager.turnEffect "combat" 1 sampleTurnOrder freshWorld)
  = [TurnManager.OnNextTurn].
Proof.
  apply (turnEffect_companion_skipped "combat" 1 sampleTurnOrder
           (flatEntry (sampleCharacter "Finn" Companion 9 15)) freshWorld);
    first [ now left | reflexivity | cbn; lia ].
Defined.

Lemma chooseTarget_spec_witness :
  exists t, TurnManager.chooseTarget sampleTurnOrder = Some t /\
            type (entity t) = Player.
Proof.
  destruct (chooseTarget_spec sampleTurnOrder) as (_ & _ & H).
  apply (H (flatEntry (sampleCharacter "Elarion" Player 12 20)));
    [now left | reflexivity | cbn; lia].
Defined.

Section EnemyTurns.

Import TurnManager.

Variable random : nat -> Q.

(** X5: the turn of an enemy that cannot act. Without an attack it adds one
    message, draws no sample and sets the 1000 ms timer that advances the
    turn. With an attack but no living ally to aim at, it draws the sample
    that picks the attack and then only calls [onPhaseChange('victory')]:
    no message, and no timer to advance the turn. *)
Theorem handleEnemyTurn_idle (turnOrder : list Target) (enemy : Target)
    (w : World) :
  (attacks (entity enemy) = [] ->
   handleEnemyTurn random turnOrder enemy w
   = (Returns [SetTimeout AdvanceTurn 1000],
      {| cursor := cursor w; console := console w;
         combatMessages :=
           combatMessages w
           ++ [mkMessage (name (entity enemy)
                            +:+ " n'a pas d'attaque disponible.") None] |})) /\
  (attacks (entity enemy) <> [] -> chooseTarget turnOrder = None ->
   handleEnemyTurn random turnOrder enemy w
   = (Returns [OnPhaseChange "victory"], advance 1 w)).
Proof.
  unfold handleEnemyTurn. split.
  - intros ->. reflexivity.
  - intros Hne Hnone. destruct (attacks (entity enemy)) as [|a rest];
      [congruence|].
    unfold bind, randomElement, bind, mathRandom, ret. now rewrite Hnone.
Qed.

Lemma rollDamage_world (s : string) (w : World) :
  combatMessages (snd (CombatService.rollDamage random s w)) = combatMessages w /\
  (cursor w <= cursor (snd (CombatService.rollDamage random s w)))%nat.
Proof.
  destruct (DamageRegex.matchRegex s) as [[[n m] b]|] eqn:E.
  - rewrite (rollDamage_match random s n m b w E). cbn. split; [reflexivity | lia].
  - unfold CombatService.rollDamage. rewrite E. cbn. split; [reflexivity | lia].
Qed.

(** Once the d20 and the total are known, the attack ends with one message
    and the timer. *)
Lemma resolveEnemyAttack_advances (enemy target : Target) (attack : Attack)
    (damageString : string) (attackRoll : Z) (totalAttack : option Z)
    (w : World) :
  damage attack = Some damageString ->
  exists m w',
    resolveEnemyAttack random enemy attack target attackRoll totalAttack w
    = (Returns [SetTimeout AdvanceTurn 2000], w') /\
    combatMessages w' = combatMessages w ++ [m] /\
    (cursor w <= cursor w')%nat /\
    (messageType m = Some "critical" <-> attackRoll = 20) /\
    (messageType m = Some "miss" -> cursor w' = cursor w) /\
    (totalAttack = None ->
     (messageType m = Some "miss" <-> attackRoll <> 20)).
Proof.
  intros Hd. unfold resolveEnemyAttack.
  destruct (attackRoll =? 20) eqn:Ecrit.
  - apply Z.eqb_eq in Ecrit. rewrite orb_true_r, Hd. unfold bind.
    pose proof (rollDamage_world damageString w) as [Hm Hc].
    destruct (CombatService.rollDamage random damageString w) as [rolled w1].
    cbn [fst snd] in Hm, Hc.
    eexists _, _. split; [reflexivity|]. cbn.
    rewrite Hm. split; [reflexivity|]. split; [lia|].
    split; [tauto|]. split; [discriminate|].
    intros _. split; [discriminate | tauto].
  - apply Z.eqb_neq in Ecrit. rewrite orb_false_r.
    destruct (CombatServiceShort.reaches totalAttack (ac (entity target)))
      eqn:Ereach.
    + rewrite Hd. unfold bind.
      pose proof (rollDamage_world damageString w) as [Hm Hc].
      destruct (CombatService.rollDamage random damageString w) as [rolled w1].
      cbn [fst snd] in Hm, Hc.
      eexists _, _. split; [reflexivity|]. cbn.
      rewrite Hm. split; [reflexivity|]. split; [lia|].
      split; [split; [discriminate | tauto]|]. split; [discriminate|].
      intros ->. discriminate.
    + eexists _, _. split; [reflexivity|]. cbn.
      split; [reflexivity|]. split; [lia|].
      split; [split; [discriminate | tauto]|]. split; [reflexivity|].
      intros _. tauto.
Qed.

(** X6: an enemy attack with a damage descriptor, with the bonus of
    [services/CombatService] (which does not read [attack.attackBonus]).
    When the enemy has stats the attack always ends the same way, hit or
    miss: exactly one message is added and the one call made is the 2000 ms
    timer that advances the turn; the message is of type ['critical']
    exactly when the d20 shows 20, and a miss draws the d20 only; and when
    the bonus is [NaN] (an enemy without level, or without a score for the
    ability) the attack misses unless the d20 shows 20. When the enemy has
    no stats the call throws after the d20 is drawn: no message is added and
    no timer is set. *)
Theorem executeEnemyAttack_advances (enemy target : Target) (attack : Attack)
    (damageString : string) (w : World) :
  damage attack = Some damageString ->
  let d20 := face random 20 (cursor w) in
  (is_Some (stats (entity enemy)) ->
   exists m w',
     executeEnemyAttack random enemy (Some attack) target w
     = (Returns [SetTimeout AdvanceTurn 2000], w') /\
     combatMessages w' = combatMessages w ++ [m] /\
     (cursor w < cursor w')%nat /\
     (messageType m = Some "critical" <-> d20 = 20) /\
     (messageType m = Some "miss" -> cursor w' = S (cursor w)) /\
     (CombatServiceShort.getAttackBonus (entity enemy) attack = NotANumber ->
      (messageType m = Some "miss" <-> d20 <> 20))) /\
  (stats (entity enemy) = None ->
   exists e,
     executeEnemyAttack random enemy (Some attack) target w
     = (Throws e, advance 1 w)).
Proof.
  intros Hd d20. unfold executeEnemyAttack, bind.
  unfold CombatService.rollD20. rewrite rollDie_spec. fold d20. split.
  - intros [st Hst].
    assert (Hnothrow : forall e, CombatServiceShort.getAttackBonus
                                   (entity enemy) attack = Throws e -> False).
    { intros e. unfold CombatServiceShort.getAttackBonus. rewrite Hst.
      destruct (level (entity enemy)); [|discriminate].
      match goal with |- context [st !! ?k] => destruct (st !! k) end;
        discriminate. }
    destruct (CombatServiceShort.getAttackBonus (entity enemy) attack)
      as [bonus | e |] eqn:Eb; [| destruct (Hnothrow e eq_refl) |].
    + destruct (resolveEnemyAttack_advances enemy target attack damageString
                  d20 (CombatServiceShort.totalOf d20 bonus) (advance 1 w) Hd)
        as (m & w' & Hrun & Hm & Hc & Hcrit & Hmiss & _).
      exists m, w'. split; [exact Hrun|]. split; [exact Hm|].
      cbn [advance cursor] in Hc, Hmiss. split; [lia|].
      split; [exact Hcrit|]. split; [exact Hmiss | discriminate].
    + destruct (resolveEnemyAttack_advances enemy target attack damageString
                  d20 None (advance 1 w) Hd)
        as (m & w' & Hrun & Hm & Hc & Hcrit & Hmiss & Hnan).
      exists m, w'. split; [exact Hrun|]. split; [exact Hm|].
      cbn [advance cursor] in Hc, Hmiss. split; [lia|].
      split; [exact Hcrit|]. split; [exact Hmiss|]. intros _. now apply Hnan.
  - intros Hst. unfold CombatServiceShort.getAttackBonus. rewrite Hst.
    eexists. reflexivity.
Qed.

End EnemyTurns.

Lemma handleEnemyTurn_idle_witness :
  (exists w',
     TurnManager.handleEnemyTurn halves sampleTurnOrder
       (flatEntry (sampleCharacter "Gobelin 1" Enemy 7 7)) freshWorld
     = (Returns [TurnManager.SetTimeout TurnManager.AdvanceTurn 1000], w')) /\
  TurnManager.handleEnemyTurn halves [sampleBiter] sampleBiter freshWorld
  = (Returns [TurnManager.OnPhaseChange "victory"], advance 1 freshWorld).
Proof.
  split.
  - eexists.
    apply (handleEnemyTurn_idle halves sampleTurnOrder
             (flatEntry (sampleCharacter "Gobelin 1" Enemy 7 7)) freshWorld).
    reflexivity.
  - apply handleEnemyTurn_idle; [discriminate | reflexivity].
Defined.

(** X6 at work: the goblin of the sample has stats and no level, so its
    bonus is [NaN]; the d20 shows 11 and the bite, whose [attackBonus] is
    5, misses. *)
Lemma executeEnemyAttack_advances_witness :
  exists m w',
    TurnManager.executeEnemyAttack halves sampleBiter (Some sampleBite)
      (flatEntry (sampleCharacter "Elarion" Player 12 20)) freshWorld
    = (Returns [TurnManager.SetTimeout TurnManager.AdvanceTurn 2000], w') /\
    combatMessages w' = [m] /\
    messageType m = Some "miss" /\
    cursor w' = 1%nat.
Proof.
  destruct (executeEnemyAttack_advances halves sampleBiter
              (flatEntry (sampleCharacter "Elarion" Player 12 20))
              sampleBite "1d6+2" freshWorld eq_refl) as [Hstats _].
  destruct Hstats as (m & w' & Hrun & Hm & _ & _ & Hmiss & Hnan).
  - eexists. reflexivity.
  - assert (Hty : messageType m = Some "miss").
    { apply Hnan; [reflexivity|]. vm_compute. discriminate. }
    exists m, w'. split; [exact Hrun|]. split; [exact Hm|].
    split; [exact Hty | now apply Hmiss].
Defined.

(** The goblins made from the templates have no [level]: the bonus of
    [services/CombatService] is [NaN], and the bite misses on any d20 but
    the 20, whatever the armor class. *)
Example executeEnemyAttack_without_level :
  TurnManager.executeEnemyAttack halves sampleBiter (Some sampleBite)
    (flatEntry (sampleCharacter "Elarion" Player 12 20)) freshWorld
  = (Returns [TurnManager.SetTimeout TurnManager.AdvanceTurn 2000],
     {| cursor := 1; console := [];
        combatMessages :=
          [mkMessage "❌ Gobelin 2 manque Elarion avec Morsure (NaN vs CA 12)"
                     (Some "miss")] |}).
Proof. vm_compute. reflexivity. Qed.

Section EndOfCombat.

Import TurnManager.

Lemma filter_length_0 {A : Type} (f : A -> bool) (l : list A) :
  (length (List.filter f l) =? 0)%nat = true <->
  forall x, In x l -> f x = false.
Proof.
  rewrite Nat.eqb_eq. induction l as [|a l IH]; cbn.
  - split; [intros _ x [] | reflexivity].
  - destruct (f a) eqn:Ea; cbn.
    + split; [discriminate|]. intros H. specialize (H a (or_introl eq_refl)).
      congruence.
    + rewrite IH. split.
      * intros H x [<- | Hx]; auto.
      * intros H x Hx. apply H. now right.
Qed.

Lemma no_alive_enemy (enemies : list Character) :
  Nat.eqb (length (List.filter (fun e => 0 <? currentHP e) enemies)) 0 = true
  <-> victoryCondition enemies.
Proof.
  rewrite filter_length_0. unfold victoryCondition.
  rewrite List.Forall_forall. split; intros H e He; specialize (H e He).
  - now apply Z.ltb_ge.
  - now apply Z.ltb_ge.
Qed.

Lemma no_alive_ally (turnOrder : list Target) (p : Character)
    (c : option Character) :
  alliesOf turnOrder p c ->
  (length (possibleTargets turnOrder) =? 0)%nat = true <-> defeatCondition p c.
Proof.
  intros (Hall & (tp & Hinp & Htp & Hhpp) & Hcomp).
  unfold possibleTargets. rewrite filter_length_0. unfold defeatCondition.
  split.
  - intros H. split.
    + specialize (H tp Hinp). unfold isAlly in H.
      rewrite (bool_decide_eq_true_2 _ Htp) in H. cbn in H.
      apply Z.ltb_ge in H. lia.
    + destruct c as [c'|]; [right | now left]. exists c'. split; [reflexivity|].
      destruct (Hcomp c' eq_refl) as (tc & Hinc & Htc & Hhpc).
      specialize (H tc Hinc). unfold isAlly in H.
      rewrite (bool_decide_eq_true_2 _ Htc), orb_true_r in H. cbn in H.
      apply Z.ltb_ge in H. lia.
  - intros [Hp Hc] t Hin. destruct (isAlly t) eqn:Hally; [|reflexivity].
    cbn. apply Z.ltb_ge.
    destruct (Hall t Hin Hally) as [[_ Hhp] | [_ (c' & -> & Hhp)]].
    + lia.
    + destruct Hc as [Hc | (c'' & [= <-] & Hc)]; [discriminate | lia].
Qed.

(** X7: the effect that ends the combat against [checkCombatEnd]. When the
    phase is not final it calls [onPhaseChange('victory')] exactly when no
    enemy of the store is alive, and [onPhaseChange('defeat')] exactly
    when an enemy is alive and no ally of the turn order is. So the two
    agree whenever [checkCombatEnd] answers ['victory'] or [null]; where
    [checkCombatEnd] answers ['defeat'] the effect says ['defeat'] too if an
    enemy is alive, and ['victory'] if all enemies are down as well. *)
Theorem endOfCombatEffect_checkCombatEnd (phase : string) (p : Character)
    (c : option Character) (enemies : list Character)
    (turnOrder : list Target) (w : World) :
  phase <> "victory" -> phase <> "defeat" ->
  alliesOf turnOrder p c ->
  let calls := fst (endOfCombatEffect phase (Some enemies) turnOrder w) in
  (calls = [OnPhaseChange "victory"] <-> victoryCondition enemies) /\
  (calls = [OnPhaseChange "defeat"]
     <-> ~ victoryCondition enemies /\ defeatCondition p c) /\
  (CombatService.checkCombatEnd p c enemies = Some "victory" ->
     calls = [OnPhaseChange "victory"]) /\
  (CombatService.checkCombatEnd p c enemies = None -> calls = []) /\
  (CombatService.checkCombatEnd p c enemies = Some "defeat" ->
     (victoryCondition enemies -> calls = [OnPhaseChange "victory"]) /\
     (~ victoryCondition enemies -> calls = [OnPhaseChange "defeat"])).
Proof.
  intros Hv Hd Hallies calls.
  pose proof (no_alive_enemy enemies) as Hen.
  pose proof (no_alive_ally turnOrder p c Hallies) as Hal.
  pose proof (defeat_spec p c) as Hdef.
  pose proof (allEnemiesDefeated_spec enemies) as Hvic.
  unfold CombatService.checkCombatEnd.
  subst calls. unfold endOfCombatEffect.
  rewrite (bool_decide_eq_false_2 _ Hv), (bool_decide_eq_false_2 _ Hd).
  cbn [orb]. unfold bind.
  destruct (Nat.eqb (length (List.filter (fun e => 0 <? currentHP e) enemies)) 0);
    destruct (length (possibleTargets turnOrder) =? 0)%nat;
    destruct (CombatService.isDefeated p &&
              match c with
              | Some c' => CombatService.isDefeated c'
              | None => true
              end);
    destruct (forallb CombatService.isDefeated enemies);
    cbn [fst addCombatMessage ret].
  all: first [ assert (HV : victoryCondition enemies) by (now apply Hen)
             | assert (HV : ~ victoryCondition enemies)
                 by (intros X; apply Hen in X; discriminate) ].
  all: first [ assert (HV' : victoryCondition enemies) by (now apply Hvic)
             | assert (HV' : ~ victoryCondition enemies)
                 by (intros X; apply Hvic in X; discriminate) ].
  all: first [ assert (HD : defeatCondition p c) by (now apply Hal)
             | assert (HD : ~ defeatCondition p c)
                 by (intros X; apply Hal in X; discriminate) ].
  all: first [ assert (HD' : defeatCondition p c) by (now apply Hdef)
             | assert (HD' : ~ defeatCondition p c)
                 by (intros X; apply Hdef in X; discriminate) ].
  all: clear Hen Hvic Hal Hdef; try contradiction.
  all: repeat match goal with
              | |- _ /\ _ => split
              | |- _ <-> _ => split
              | |- _ -> _ => intro
              end;
       try discriminate; try reflexivity; try contradiction; try assumption;
       try tauto.
Qed.

End EndOfCombat.

Lemma endOfCombatEffect_checkCombatEnd_witness :
  let hero := sampleCharacter "Elarion" Player 0 20 in
  let goblin := sampleCharacter "Gobelin" Enemy 0 7 in
  CombatService.checkCombatEnd hero None [goblin] = Some "defeat" /\
  fst (TurnManager.endOfCombatEffect "combat" (Some [goblin])
         [flatEntry hero; flatEntry goblin] freshWorld)
  = [TurnManager.OnPhaseChange "victory"].
Proof.
  cbv zeta. split; [reflexivity|].
  apply (endOfCombatEffect_checkCombatEnd "combat"
           (sampleCharacter "Elarion" Player 0 20) None
           [sampleCharacter "Gobelin" Enemy 0 7]
           [flatEntry (sampleCharacter "Elarion" Player 0 20);
            flatEntry (sampleCharacter "Gobelin" Enemy 0 7)] freshWorld).
  - discriminate.
  - discriminate.
  - split; [|split].
    + intros t [<- | [<- | []]] Hally; [left; split; reflexivity | discriminate].
    + eexists. split; [now left | split; reflexivity].
    + discriminate.
  - reflexivity.
  - constructor; [cbn; lia | constructor].
Defined.

(** ** The battlefield *)

Section DefaultPositions.

Import Battlefield.

Lemma startX_value : Qfloor (inject_Z 8 * (6 # 10)) = 4.
Proof. reflexivity. Qed.

Lemma getDefaultEnemyPosition_value (index totalEnemies : Z) :
  0 <= index -> 2 <= totalEnemies ->
  getDefaultEnemyPosition index totalEnemies
  = Returns {| x := 4 + index mod Z.min 4 totalEnemies;
               y := Z.max 1 (Z.min 4 (index / Z.min 4 totalEnemies + 1)) |}.
Proof.
  intros Hi Ht. unfold getDefaultEnemyPosition. rewrite startX_value.
  assert (H1 : (totalEnemies =? 1) = false) by (apply Z.eqb_neq; lia).
  rewrite H1. change (8 - 4) with 4. change (6 - 2) with 4.
  assert (H0 : (Z.min 4 totalEnemies =? 0) = false) by (apply Z.eqb_neq; lia).
  rewrite H0. rewrite Z.rem_mod_nonneg by lia. reflexivity.
Qed.

(** X8: a default position is always inside the enemy zone of the grid,
    columns 4 to 7 and rows 1 to 4, whatever the number of enemies; a lone
    enemy stands at (6, 3). *)
Theorem getDefaultEnemyPosition_in_zone (index totalEnemies : Z) :
  0 <= index -> 1 <= totalEnemies ->
  exists p, getDefaultEnemyPosition index totalEnemies = Returns p /\
            inEnemyZone p /\
            (totalEnemies = 1 -> p = mkPosition 6 3).
Proof.
  intros Hi Ht. destruct (Z.eq_dec totalEnemies 1) as [-> | Hne].
  - exists (mkPosition 6 3). split; [reflexivity|]. split; [|reflexivity].
    unfold inEnemyZone. cbn. lia.
  - rewrite getDefaultEnemyPosition_value by lia.
    eexists. split; [reflexivity|]. split; [|congruence].
    unfold inEnemyZone. cbn [x y].
    pose proof (Z.mod_pos_bound index (Z.min 4 totalEnemies) ltac:(lia)).
    lia.
Qed.

(** X9: with at most 16 enemies, two enemies never get the same default
    position. With 17, the enemies at the indices 12 and 16 do: the rows
    are clamped to the grid. *)
Theorem getDefaultEnemyPosition_distinct :
  (forall totalEnemies i j,
     totalEnemies <= 16 -> 0 <= i < totalEnemies -> 0 <= j < totalEnemies ->
     getDefaultEnemyPosition i totalEnemies
     = getDefaultEnemyPosition j totalEnemies -> i = j) /\
  getDefaultEnemyPosition 12 17 = getDefaultEnemyPosition 16 17.
Proof.
  split; [|reflexivity].
  intros n i j Hn Hi Hj. destruct (Z.eq_dec n 1) as [-> | Hne]; [lia|].
  rewrite !getDefaultEnemyPosition_value by lia.
  intros [= Hx Hy].
  destruct (Z_lt_le_dec n 4) as [Hsmall | Hbig].
  - rewrite (Z.min_r 4 n) in Hx by lia.
    rewrite (Z.mod_small i n), (Z.mod_small j n) in Hx by lia. lia.
  - rewrite (Z.min_l 4 n) in Hx, Hy by lia.
    assert (0 <= i < 16 /\ 0 <= j < 16) as [Hi16 Hj16] by lia.
    clear Hn Hi Hj Hne Hbig. Z.div_mod_to_equations. lia.
Qed.

End DefaultPositions.

Lemma getDefaultEnemyPosition_in_zone_witness :
  exists p, Battlefield.getDefaultEnemyPosition 5 6 = Returns p /\
            Battlefield.inEnemyZone p.
Proof.
  destruct (getDefaultEnemyPosition_in_zone 5 6 ltac:(lia) ltac:(lia))
    as (p & Hp & Hz & _).
  exists p. split; assumption.
Defined.

Section InitializePositions.

Import Battlefield.

Variable customPositions : option (list (option Position)).
Variable totalEnemies : nat.
Hypothesis some_enemy : (1 <= totalEnemies)%nat.

Lemma enemyPosition_returns (index : nat) :
  exists p, enemyPosition customPositions index totalEnemies = Returns p /\
            (customPositions = None -> inEnemyZone p).
Proof.
  assert (Hdefault : exists p,
             getDefaultEnemyPosition (Z.of_nat index) (Z.of_nat totalEnemies)
             = Returns p /\ inEnemyZone p).
  { destruct (Nat.eq_dec totalEnemies 1%nat) as [-> | Hne].
    - exists (mkPosition 6 3). split; [reflexivity|].
      unfold inEnemyZone. cbn. lia.
    - rewrite getDefaultEnemyPosition_value by lia.
      eexists. split; [reflexivity|]. unfold inEnemyZone. cbn [x y].
      pose proof (Z.mod_pos_bound (Z.of_nat index)
                    (Z.min 4 (Z.of_nat totalEnemies)) ltac:(lia)).
      lia. }
  destruct Hdefault as (p & Hp & Hz).
  unfold enemyPosition. destruct customPositions as [custom|].
  - destruct (custom !! index) as [[customPos|]|].
    + eexists. split; [reflexivity | discriminate].
    + exists p. split; [exact Hp | discriminate].
    + exists p. split; [exact Hp | discriminate].
  - exists p. split; [exact Hp | intros _; exact Hz].
Qed.

Lemma placeEnemies_spec (enemies : list Character) (index : nat)
    (acc : gmap string Entry) :
  exists m,
    placeEnemies customPositions totalEnemies enemies index acc = Returns m /\
    (forall k, (forall e, In e enemies -> id e <> k) -> m !! k = acc !! k) /\
    (forall k, placed customPositions (acc !! k)
               \/ (exists e, In e enemies /\ id e = k) ->
               placed customPositions (m !! k)) /\
    (forall i e, enemies !! i = Some e ->
       (forall j e', (i < j)%nat -> enemies !! j = Some e' -> id e' <> id e) ->
       exists p, enemyPosition customPositions (index + i) totalEnemies
                 = Returns p /\ m !! id e = Some (At p)).
Proof.
  revert index acc. induction enemies as [|enemy rest IH]; intros index acc.
  - exists acc. split; [reflexivity|]. split; [auto|]. split.
    + intros k [H | (e & [] & _)]. exact H.
    + intros i e H. discriminate.
  - cbn [placeEnemies].
    destruct (enemyPosition_returns index) as (p & Hp & Hz). rewrite Hp.
    destruct (IH (S index) (<[id enemy := At p]> acc))
      as (m & Hrun & Hother & Hplaced & Hlast).
    exists m. split; [exact Hrun|]. split; [|split].
    + intros k Hk. rewrite Hother by (intros e He; apply Hk; now right).
      apply lookup_insert_ne. apply Hk. now left.
    + intros k Hk. apply Hplaced.
      destruct (decide (id enemy = k)) as [<- | Hne].
      * left. rewrite lookup_insert_eq. exists p. split; [reflexivity | exact Hz].
      * rewrite lookup_insert_ne by exact Hne.
        destruct Hk as [Hk | (e & [<- | He] & Hid)];
          [now left | congruence | right; eauto].
    + intros i e Hi Hlater. destruct i as [|i].
      * cbn in Hi. injection Hi as <-. exists p.
        rewrite Nat.add_0_r. split; [exact Hp|].
        rewrite Hother.
        -- apply lookup_insert_eq.
        -- intros e' He'. apply list_elem_of_In, list_elem_of_lookup in He'
             as [j Hj].
           apply (Hlater (S j) e'); [lia | exact Hj].
      * cbn in Hi. replace (index + S i)%nat with (S index + i)%nat by lia.
        apply Hlast; [exact Hi|].
        intros j e' Hij Hj. apply (Hlater (S j) e'); [lia | exact Hj].
Qed.

End InitializePositions.

(** X10: [initializePositions] always returns. Every enemy has a position
    under its id; without custom positions all of them are in the enemy
    zone. The enemy at index [i] gets its custom position if there is one
    and its default position otherwise, unless a later enemy has the same
    id; and the keys that are no enemy id keep their initial value (the
    player at (1, 2), the companion at (0, 2) or [null], the two flags). *)
Theorem initializePositions_spec (playerCharacter playerCompanion : option Character)
    (enemies : list Character)
    (customPositions : option (list (option Battlefield.Position))) :
  exists positions,
    Battlefield.initializePositions playerCharacter playerCompanion enemies
      customPositions = Returns positions /\
    (forall e, In e enemies ->
       exists p, positions !! id e = Some (Battlefield.At p) /\
                 (customPositions = None -> Battlefield.inEnemyZone p)) /\
    (forall i e, enemies !! i = Some e ->
       (forall j e', (i < j)%nat -> enemies !! j = Some e' -> id e' <> id e) ->
       exists p,
         Battlefield.enemyPosition customPositions i (length enemies)
         = Returns p /\
         positions !! id e = Some (Battlefield.At p)) /\
    (forall k, (forall e, In e enemies -> id e <> k) ->
       positions !! k = Battlefield.initialPositions playerCompanion !! k).
Proof.
  unfold Battlefield.initializePositions.
  destruct enemies as [|enemy rest] eqn:He.
  - eexists. split; [reflexivity|]. split; [intros e []|].
    split; [intros i e H; discriminate | reflexivity].
  - rewrite <- He.
    assert (Hlen : (1 <= length enemies)%nat) by (subst; cbn; lia).
    destruct (placeEnemies_spec customPositions (length enemies) Hlen enemies 0
                (Battlefield.initialPositions playerCompanion))
      as (m & Hrun & Hother & Hplaced & Hlast).
    exists m. split; [exact Hrun|]. split; [|split].
    + intros e Hin. apply (Hplaced (id e)). right. eauto.
    + exact Hlast.
    + exact Hother.
Qed.

Lemma initializePositions_spec_witness :
  exists positions,
    Battlefield.initializePositions None None sampleGoblins
      sampleCustomPositions = Returns positions /\
    positions !! "gobelin_0_0" = Some (Battlefield.At (Battlefield.mkPosition 7 0)) /\
    positions !! "gobelin_0_1" = Some (Battlefield.At (Battlefield.mkPosition 5 1)) /\
    positions !! "player" = Some (Battlefield.At (Battlefield.mkPosition 1 2)) /\
    positions !! "companion" = Some Battlefield.Null.
Proof.
  destruct (initializePositions_spec None None sampleGoblins
              sampleCustomPositions) as (positions & Hrun & _ & Hat & Hother).
  exists positions. split; [exact Hrun|].
  assert (Hlater : forall i e, sampleGoblins !! i = Some e ->
            forall j e', (i < j)%nat -> sampleGoblins !! j = Some e' ->
                         id e' <> id e).
  { intros [|[|i]] e [= <-] [|[|[|j]]] e' Hij [= <-]; try lia; discriminate. }
  split; [|split; [|split]].
  - destruct (Hat 0%nat _ eq_refl (Hlater 0%nat _ eq_refl)) as (p & Hp & Hl).
    injection Hp as <-. exact Hl.
  - destruct (Hat 1%nat _ eq_refl (Hlater 1%nat _ eq_refl)) as (p & Hp & Hl).
    injection Hp as <-. exact Hl.
  - rewrite Hother; [reflexivity|].
    intros e [<- | [<- | []]]; discriminate.
  - rewrite Hother; [reflexivity|].
    intros e [<- | [<- | []]]; discriminate.
Defined.

(** Under [templatesHaveDexterity] every created enemy has a dexterity
    score. *)
Lemma expandEncounters_dexterity
    (enemyTemplates : gmap string CombatService.EnemyTemplate)
    (groups : list CombatService.Encounter) (i : nat) (w : World) :
  templatesHaveDexterity enemyTemplates ->
  Forall hasDexterity
         (fst (CombatService.expandEncounters enemyTemplates groups i w)).
Proof.
  intros Hdex. revert i w. induction groups as [|g groups IH]; intros i w.
  - constructor.
  - cbn [CombatService.expandEncounters]. unfold bind.
    destruct (expandEncounter_spec enemyTemplates g i w) as [Hk Hu].
    destruct (enemyTemplates !! CombatService.encounterType g)
      as [template|] eqn:E.
    + rewrite (Hk template eq_refl).
      specialize (IH (S i) w).
      destruct (CombatService.expandEncounters enemyTemplates groups (S i) w)
        as [more w'].
      unfold ret. cbn [fst] in *. apply Forall_app. split; [|exact IH].
      apply List.Forall_forall. intros e He. apply in_map_iff in He
        as (index & <- & _).
      destruct (Hdex _ _ E) as [d Hd]. exists d.
      unfold dexterityOf. cbn [stats CombatService.enemyInstance].
      destruct (CombatService.templateStats template) as [st|];
        [exact Hd | discriminate].
    + rewrite (Hu eq_refl).
      match goal with |- context [CombatService.expandEncounters _ _ _ ?w1] =>
        specialize (IH (S i) w1);
        destruct (CombatService.expandEncounters enemyTemplates groups (S i) w1)
          as [more w']
      end.
      unfold ret. cbn [fst] in *. exact IH.
Qed.

(** With a dexterity score for everyone, [rollInitiative] draws one d20 for
    the player, the companion and each enemy, in that order, and sorts
    their entries. *)
Lemma rollInitiative_run (random : nat -> Q) (p : Character)
    (playerCompanion : option Character) (enemies : list Character)
    (w : World) :
  hasDexterity p ->
  (forall c, playerCompanion = Some c -> hasDexterity c) ->
  Forall hasDexterity enemies ->
  CombatService.rollInitiative random (Some p) playerCompanion enemies w
  = (Returns (CombatService.sort CombatService.compareInitiative
                (combatantEntries random (cursor w) p playerCompanion enemies)),
     advance (length (combatantEntries random (cursor w) p playerCompanion
                        enemies)) w).
Proof.
  intros Hp Hc He.
  assert (Hstats : exists st, stats p = Some st).
  { destruct Hp as [d Hd]. unfold dexterityOf in Hd.
    destruct (stats p); [eauto | discriminate]. }
  destruct Hstats as [st Hst].
  unfold CombatService.rollInitiative.
  destruct p as [pid pname ptype plevel pstats php pmax pac patt pimg
                 palive pinit phd phdt pinv].
  cbn in Hst. subst pstats.
  set (p := {| id := pid; name := pname; type := ptype; level := plevel;
               stats := Some st; currentHP := php; maxHP := pmax;
               ac := pac; attacks := patt; image := pimg;
               isAlive := palive; initiative := pinit; hitDice := phd;
               hitDiceType := phdt; inventory := pinv |}) in *.
  unfold bindO at 1. rewrite (initiativeRoll_spec random p w Hp).
  unfold combatantEntries.
  destruct playerCompanion as [c|].
  - unfold bindO at 1. unfold bindO at 1.
    rewrite (initiativeRoll_spec random c (advance 1 w) (Hc c eq_refl)).
    unfold ret. unfold bindO.
    rewrite (pushEnemies_spec random enemies _ _ He).
    rewrite !advance_advance. cbn [advance cursor app length].
    rewrite enemyEntries_length.
    replace (length enemies + (1 + 1))%nat with (S (S (length enemies)))
      by lia.
    reflexivity.
  - unfold bindO at 1. unfold ret. unfold bindO.
    rewrite (pushEnemies_spec random enemies _ _ He).
    rewrite !advance_advance. cbn [advance cursor app length].
    rewrite enemyEntries_length.
    replace (length enemies + 1)%nat with (S (length enemies)) by lia.
    reflexivity.
Qed.

Lemma combatantEntries_length (random : nat -> Q) (start : nat)
    (p : Character) (c : option Character) (enemies : list Character) :
  length (combatantEntries random start p c enemies)
  = (1 + match c with Some _ => 1 | None => 0 end + length enemies)%nat.
Proof.
  unfold combatantEntries. destruct c; cbn [length];
    rewrite enemyEntries_length; lia.
Qed.

(** Every enemy gets a position. *)
Lemma initializePositions_placed (playerCharacter playerCompanion : option Character)
    (enemies : list Character)
    (customPositions : option (list (option Battlefield.Position))) :
  exists positions,
    Battlefield.initializePositions playerCharacter playerCompanion enemies
      customPositions = Returns positions /\
    forall e, In e enemies -> placed customPositions (positions !! id e).
Proof.
  unfold Battlefield.initializePositions.
  destruct enemies as [|enemy rest] eqn:He.
  - eexists. split; [reflexivity | intros e []].
  - rewrite <- He.
    assert (Hlen : (1 <= length enemies)%nat) by (subst; cbn; lia).
    destruct (placeEnemies_spec customPositions (length enemies) Hlen enemies 0
                (Battlefield.initialPositions playerCompanion))
      as (m & Hrun & _ & Hplaced & _).
    exists m. split; [exact Hrun|].
    intros e Hin. apply (Hplaced (id e)). right. eauto.
Qed.

(** X11: [initializeCombat] checks the encounter before the player. Without
    enemy groups it throws the encounter's error and the world is as before
    (no die is rolled, nothing is logged), even when the player is missing
    too. With groups but without a player, or with a player without stats,
    it throws the player's error, and still no die is rolled. With groups, a
    registry whose templates all have a dexterity score, and a player and
    companion that have one, it returns: the turn starts at index 0, the
    turn order is a permutation of the entries of the player, the companion
    if there is one, and the created enemies, one d20 has been rolled for
    each of them, there are as many enemies as the known groups ask for, and
    every enemy has a position (in the enemy zone when the encounter gives
    no custom positions). *)
Theorem initializeCombat_spec (random : nat -> Q)
    (enemyTemplates : gmap string CombatService.EnemyTemplate)
    (playerCharacter playerCompanion : option Character)
    (encounterData : option CombatService.EncounterData)
    (enemyPositions : option (list (option Battlefield.Position)))
    (w : World) :
  let run := Battlefield.initializeCombat random enemyTemplates
               playerCharacter playerCompanion encounterData enemyPositions w in
  (encounterGroups encounterData = [] ->
   run = (Throws "Aucun ennemi défini dans la rencontre", w)) /\
  (encounterGroups encounterData <> [] ->
   playerCharacter = None \/
   (exists p, playerCharacter = Some p /\ stats p = None) ->
   exists w',
     run = (Throws "Personnage joueur requis pour initialiser le combat", w') /\
     cursor w' = cursor w /\ combatMessages w' = combatMessages w) /\
  (encounterGroups encounterData <> [] ->
   templatesHaveDexterity enemyTemplates ->
   forall p,
     playerCharacter = Some p ->
     hasDexterity p ->
     (forall c, playerCompanion = Some c -> hasDexterity c) ->
     exists setup w',
       run = (Returns setup, w') /\
       Battlefield.currentTurn setup = 0%nat /\
       Permutation (Battlefield.turnOrder setup)
         (combatantEntries random (cursor w) p playerCompanion
            (Battlefield.setupEnemies setup)) /\
       length (Battlefield.turnOrder setup)
       = (1 + match playerCompanion with Some _ => 1 | None => 0 end
          + length (Battlefield.setupEnemies setup))%nat /\
       cursor w' = (length (Battlefield.turnOrder setup) + cursor w)%nat /\
       combatMessages w' = combatMessages w /\
       length (Battlefield.setupEnemies setup)
       = list_sum (map CombatService.count
                    (List.filter (knownGroup enemyTemplates)
                            (encounterGroups encounterData))) /\
       (forall e, In e (Battlefield.setupEnemies setup) ->
          exists position,
            Battlefield.positions setup !! id e
            = Some (Battlefield.At position) /\
            (enemyPositions = None -> Battlefield.inEnemyZone position))).
Proof.
  intros run. subst run. unfold Battlefield.initializeCombat.
  unfold CombatService.createEnemiesFromEncounter, encounterGroups.
  destruct encounterData as [[[[|g groups]|]]|].
  1, 3, 4: (split; [reflexivity | split; congruence]).
  split; [discriminate|].
  unfold bindO, bind, ret.
  pose proof (expandEncounters_world enemyTemplates (g :: groups) 0 w) as Hw.
  pose proof (expandEncounters_length enemyTemplates (g :: groups) 0 w) as Hl.
  pose proof (expandEncounters_dexterity enemyTemplates (g :: groups) 0 w)
    as Hd.
  destruct (CombatService.expandEncounters enemyTemplates (g :: groups) 0 w)
    as [created w1].
  cbn [fst snd] in *. split.
  - intros _ [-> | (p & -> & Hs)].
    + eexists. split; [reflexivity|]. subst w1. split; reflexivity.
    + destruct p; cbn in Hs; subst. eexists. split; [reflexivity|].
      split; reflexivity.
  - intros _ Hdex p -> Hp Hc. specialize (Hd Hdex).
    rewrite (rollInitiative_run random p playerCompanion created w1 Hp Hc Hd).
    destruct (initializePositions_placed (Some p) playerCompanion created
                enemyPositions) as (positions & Hpos & Hplaced).
    rewrite Hpos.
    eexists. eexists. split; [reflexivity|].
    cbn [Battlefield.currentTurn Battlefield.turnOrder
         Battlefield.setupEnemies Battlefield.positions].
    assert (Hcur : cursor w1 = cursor w) by (subst w1; reflexivity).
    assert (Hmsg : combatMessages w1 = combatMessages w)
      by (subst w1; reflexivity).
    clear Hw. rewrite <- Hcur, <- Hmsg.
    split; [reflexivity|]. split; [apply sort_perm|].
    assert (Hlen : length (CombatService.sort CombatService.compareInitiative
                     (combatantEntries random (cursor w1) p playerCompanion
                        created))
                   = length (combatantEntries random (cursor w1) p
                               playerCompanion created)).
    { apply Permutation_length, sort_perm. }
    rewrite Hlen. cbn [cursor combatMessages advance].
    split; [apply combatantEntries_length|].
    split; [reflexivity|]. split; [reflexivity|].
    split; [exact Hl | exact Hplaced].
Qed.

Lemma initializeCombat_spec_witness :
  let hero := sampleCharacter "Elarion" Player 20 20 in
  Battlefield.initializeCombat halves sampleTemplates None None None None
    freshWorld
  = (Throws "Aucun ennemi défini dans la rencontre", freshWorld) /\
  (exists w',
     Battlefield.initializeCombat halves sampleTemplates None None
       sampleEncounter None freshWorld
     = (Throws "Personnage joueur requis pour initialiser le combat", w') /\
     cursor w' = 0%nat) /\
  (exists setup w',
     Battlefield.initializeCombat halves sampleTemplates (Some hero) None
       sampleEncounter None freshWorld
     = (Returns setup, w') /\
     Battlefield.currentTurn setup = 0%nat /\
     length (Battlefield.setupEnemies setup) = 2%nat /\
     length (Battlefield.turnOrder setup) = 3%nat /\
     cursor w' = 3%nat).
Proof.
  intros hero. split; [|split].
  - apply (initializeCombat_spec halves sampleTemplates None None None None
             freshWorld). reflexivity.
  - destruct (initializeCombat_spec halves sampleTemplates None None
                sampleEncounter None freshWorld) as (_ & Hplayer & _).
    destruct Hplayer as (w' & Hrun & Hcursor & _);
      [discriminate | now left |].
    exists w'. split; [exact Hrun | exact Hcursor].
  - destruct (initializeCombat_spec halves sampleTemplates (Some hero) None
                sampleEncounter None freshWorld) as (_ & _ & Hsetup).
    destruct (Hsetup ltac:(discriminate)) with (p := hero)
      as (setup & w' & Hrun & Hturn & _ & Hlen & Hcursor & _ & Henemies & _).
    + intros key template H. unfold sampleTemplates in H. apply lookup_singleton_Some in H as [_ <-].
      eexists. reflexivity.
    + reflexivity.
    + eexists. reflexivity.
    + discriminate.
    + exists setup, w'. split; [exact Hrun|]. split; [exact Hturn|].
      assert (H2 : length (Battlefield.setupEnemies setup) = 2%nat)
        by (rewrite Henemies; vm_compute; reflexivity).
      rewrite Hcursor, Hlen, H2. repeat split.
Defined.

(** ** Player actions and spells *)

Section PlayerActions.

Import CombatService PlayerAction.

Variable random : nat -> Q.

(** One step of [executeAttack] with a weapon that has a damage
    descriptor: it returns, adds one message, and adds one damage entry for
    the target unless the message is a miss. *)
Lemma attackTarget_report (attacker : Character) (weapon : Attack)
    (damageString : string) (results : Results) (target : Character)
    (w : World) :
  damage weapon = Some damageString ->
  exists m results' w',
    attackTarget random attacker weapon results target w
    = (Returns results', w') /\
    resultsMessages results' = resultsMessages results ++ [m] /\
    resultsEffects results' = resultsEffects results /\
    (isMiss m = true /\ resultsDamage results' = resultsDamage results \/
     isMiss m = false /\
     exists d, resultsDamage results'
               = resultsDamage results ++ [mkDamageEntry (id target) d]) /\
    (cursor w < cursor w')%nat /\
    combatMessages w' = combatMessages w.
Proof.
  intros Hd. unfold attackTarget, bind, rollD20. rewrite rollDie_spec.
  destruct (getAttackBonus_cursor attacker weapon (advance 1 w)) as [Hc Hm].
  destruct (getAttackBonus attacker weapon (advance 1 w)) as [b w1].
  cbn [fst snd advance cursor combatMessages] in Hc, Hm.
  destruct (reaches (face random 20 (cursor w) + b) (ac target)
            || (face random 20 (cursor w) =? 20)).
  - rewrite Hd.
    destruct (rollDamage_world random damageString w1) as [Hm2 Hc2].
    destruct (rollDamage random damageString w1) as [rolled w2].
    cbn [fst snd] in Hm2, Hc2.
    destruct (face random 20 (cursor w) =? 20); unfold ret;
      (eexists; eexists; eexists; split; [reflexivity|];
       split; [reflexivity|]; split; [reflexivity|];
       split; [right; split; [reflexivity | eexists; reflexivity]|];
       split; [lia | congruence]).
  - unfold ret. eexists. eexists. eexists. split; [reflexivity|].
    split; [reflexivity|]. split; [reflexivity|].
    split; [left; split; reflexivity|]. split; [lia | congruence].
Qed.

Lemma hitsIn_app (l1 l2 : list Message) :
  hitsIn (l1 ++ l2) = (hitsIn l1 + hitsIn l2)%nat.
Proof. unfold hitsIn. now rewrite List.filter_app, length_app. Qed.

Lemma executeAttack_run (attacker : Character) (weapon : Attack)
    (damageString : string) (targets : list Character) (results : Results)
    (w : World) :
  damage weapon = Some damageString ->
  exists results' w' added hits,
    executeAttack random attacker weapon targets results w
    = (Returns results', w') /\
    resultsMessages results' = resultsMessages results ++ added /\
    length added = length targets /\
    resultsDamage results' = resultsDamage results ++ hits /\
    length hits = hitsIn added /\
    sublist (map targetId hits) (map id targets) /\
    resultsEffects results' = resultsEffects results /\
    (cursor w + length targets <= cursor w')%nat /\
    combatMessages w' = combatMessages w.
Proof.
  intros Hd. revert results w.
  induction targets as [|target rest IH]; intros results w.
  - exists results, w, [], []. cbn. rewrite !app_nil_r.
    repeat split; try reflexivity; try lia; constructor.
  - cbn [executeAttack]. unfold bind.
    destruct (attackTarget_report attacker weapon damageString results target
                w Hd)
      as (m & r1 & w1 & Hrun & Hmsg & Heff & Hdam & Hcur & Hcm).
    rewrite Hrun.
    destruct (IH r1 w1)
      as (r2 & w2 & added & hits & Hrun2 & Hmsg2 & Hlen & Hdam2 & Hhits
          & Hsub & Heff2 & Hcur2 & Hcm2).
    rewrite Hrun2. exists r2, w2, (m :: added).
    destruct Hdam as [[Hmiss Hsame] | [Hmiss [d Hpush]]].
    + exists hits. split; [reflexivity|].
      split; [rewrite Hmsg2, Hmsg, <- app_assoc; reflexivity|].
      split; [cbn; lia|].
      split; [rewrite Hdam2, Hsame; reflexivity|].
      split.
      { change (m :: added) with ([m] ++ added). rewrite hitsIn_app.
        unfold hitsIn at 1. cbn [List.filter]. rewrite Hmiss. cbn. exact Hhits. }
      split; [cbn [map]; now apply sublist_cons|].
      split; [congruence|]. split; [cbn [length]; lia | congruence].
    + exists (mkDamageEntry (id target) d :: hits). split; [reflexivity|].
      split; [rewrite Hmsg2, Hmsg, <- app_assoc; reflexivity|].
      split; [cbn; lia|].
      split; [rewrite Hdam2, Hpush, <- app_assoc; reflexivity|].
      split.
      { change (m :: added) with ([m] ++ added). rewrite hitsIn_app.
        unfold hitsIn at 1. cbn [List.filter]. rewrite Hmiss. cbn.
        now rewrite Hhits. }
      split; [cbn [map targetId]; now apply sublist_skip|].
      split; [congruence|]. split; [cbn [length]; lia | congruence].
Qed.

End PlayerActions.

(** X12: the report of an attack with a weapon that has a damage
    descriptor, in the fuller text ([characterStore.js], lines 934-970,
    with the [getAttackBonus] of lines 1033-1065, which always returns).
    [executeAttack] always returns; it only appends to the
    results it was given: one message per target, and one damage entry for
    each message that is not a miss, for targets taken in the order of the
    list; it leaves the effects alone, draws at least one sample per target
    and never calls [addCombatMessage]. So the report of
    [executePlayerAction] for an attack on one target or more has as many
    messages as targets and as many damage entries as hits. *)
Theorem executeAttack_report (random : nat -> Q) (attacker : Character)
    (weapon : Attack) (damageString : string) (targets : list Character)
    (w : World) :
  damage weapon = Some damageString ->
  (forall results,
   exists results' w' added hits,
     CombatService.executeAttack random attacker weapon targets results w
     = (Returns results', w') /\
     resultsMessages results' = resultsMessages results ++ added /\
     length added = length targets /\
     resultsDamage results' = resultsDamage results ++ hits /\
     length hits = hitsIn added /\
     sublist (map targetId hits) (map id targets) /\
     resultsEffects results' = resultsEffects results /\
     (cursor w + length targets <= cursor w')%nat /\
     combatMessages w' = combatMessages w) /\
  (forall spellcasting, targets <> [] ->
   exists report w',
     PlayerAction.executePlayerAction random attacker spellcasting
       (Some (PlayerAction.AttackAction weapon)) targets w
     = (Returns report, w') /\
     length (resultsMessages report) = length targets /\
     length (resultsDamage report) = hitsIn (resultsMessages report) /\
     sublist (map targetId (resultsDamage report)) (map id targets) /\
     resultsEffects report = []).
Proof.
  intros Hd. split.
  - intros results.
    apply (executeAttack_run random attacker weapon damageString); exact Hd.
  - intros spellcasting Hne.
    destruct (executeAttack_run random attacker (PlayerAction.asWeapon weapon)
                damageString targets (mkResults [] [] []) w Hd)
      as (report & w' & added & hits & Hrun & Hmsg & Hlen & Hdam & Hhits
          & Hsub & Heff & _).
    exists report, w'. unfold PlayerAction.executePlayerAction.
    destruct targets as [|target rest]; [congruence|].
    split; [exact Hrun|]. cbn [resultsMessages resultsDamage resultsEffects
                               app] in Hmsg, Hdam, Heff.
    rewrite Hmsg, Hdam. repeat split; assumption.
Qed.

Lemma executeAttack_report_witness :
  let hero := sampleCharacter "Elarion" Player 20 20 in
  let sword := mkAttack "Épée" None None None None None (Some "1d8+3")
                        None None in
  exists report w',
    PlayerAction.executePlayerAction halves hero None
      (Some (PlayerAction.AttackAction sword)) sampleGoblins freshWorld
    = (Returns report, w') /\
    length (resultsMessages report) = 2%nat /\
    length (resultsDamage report) = hitsIn (resultsMessages report) /\
    resultsEffects report = [].
Proof.
  intros hero sword.
  destruct (executeAttack_report halves hero sword "1d8+3" sampleGoblins
              freshWorld eq_refl) as [_ Hreport].
  destruct (Hreport None ltac:(discriminate))
    as (report & w' & Hrun & Hlen & Hhits & _ & Heff).
  exists report, w'. repeat split; assumption.
Defined.

Section Spells.

Import CombatService PlayerAction.

Variable random : nat -> Q.



End Spells.





(** X15: the spell attack bonus. Without [spellcasting], or without an
    ability in it, it is the proficiency bonus. With an ability it throws
    when the caster has no [stats]; otherwise it is the proficiency bonus
    plus the modifier of the ability's score, where a score that is missing
    or 0 counts as 10: the bonus is then the proficiency bonus alone, and a
    score of 0 does not give the modifier -5. *)
Theorem getSpellAttackBonus_spec (caster : Character)
    (spellcasting : option PlayerAction.Spellcasting) :
  let proficiency := CombatService.proficiencyBonus caster in
  let spellAbility := spellcasting ≫= PlayerAction.ability in
  (spellAbility = None \/ spellAbility = Some "" ->
   PlayerAction.getSpellAttackBonus caster spellcasting
   = Returns proficiency) /\
  (forall a, spellAbility = Some a -> a <> "" ->
     (stats caster = None ->
      exists e, PlayerAction.getSpellAttackBonus caster spellcasting
                = Throws e) /\
     (forall st, stats caster = Some st ->
        (st !! a = None \/ st !! a = Some 0 ->
         PlayerAction.getSpellAttackBonus caster spellcasting
         = Returns proficiency) /\
        (forall score, st !! a = Some score -> score <> 0 ->
           PlayerAction.getSpellAttackBonus caster spellcasting
           = Returns (getModifier score + proficiency)))).
Proof.
  intros proficiency spellAbility. unfold PlayerAction.getSpellAttackBonus.
  fold spellAbility. fold proficiency. split.
  - intros [-> | ->]; reflexivity.
  - intros a -> Ha. destruct a as [|c a]; [congruence|].
    cbn [truthyString negb default]. unfold Datatypes.id. split.
    + intros ->. eexists. reflexivity.
    + intros st ->. split.
      * intros [-> | ->]; reflexivity.
      * intros score -> Hscore. unfold orElse, truthyNumber.
        apply Z.eqb_neq in Hscore. rewrite Hscore. reflexivity.
Qed.

Lemma getSpellAttackBonus_spec_witness :
  let mage := sampleCharacter "Elarion" Player 20 20 in
  PlayerAction.getSpellAttackBonus mage None = Returns 2 /\
  PlayerAction.getSpellAttackBonus mage
    (Some (PlayerAction.mkSpellcasting (Some "intelligence"))) = Returns 2 /\
  PlayerAction.getSpellAttackBonus mage
    (Some (PlayerAction.mkSpellcasting (Some "force"))) = Returns 4.
Proof.
  intros mage. split; [|split].
  - apply (getSpellAttackBonus_spec mage None). now left.
  - destruct (getSpellAttackBonus_spec mage
                (Some (PlayerAction.mkSpellcasting (Some "intelligence"))))
      as [_ H].
    destruct (H "intelligence" eq_refl ltac:(discriminate)) as [_ Hst].
    destruct (Hst _ eq_refl) as [Hmissing _]. apply Hmissing. now left.
  - destruct (getSpellAttackBonus_spec mage
                (Some (PlayerAction.mkSpellcasting (Some "force"))))
      as [_ H].
    destruct (H "force" eq_refl ltac:(discriminate)) as [_ Hst].
    destruct (Hst _ eq_refl) as [_ Hscore].
    apply (Hscore 14); [reflexivity | discriminate].
Defined.

(** X16: what [executePlayerAction] does when there is nothing to do.
    Without an action, or without a target, the report is one message of
    type ['error'], no damage and no effect, whatever the action was; an
    action whose type is neither ['attack'] nor ['spell'] gives one
    ['error'] message that names the type. In both cases no sample is drawn
    and the world is as before. *)
Theorem executePlayerAction_nothing_to_do (random : nat -> Q)
    (playerCharacter : Character)
    (spellcasting : option PlayerAction.Spellcasting)
    (action : option PlayerAction.Action) (targets : list Character)
    (w : World) :
  (action = None \/ targets = [] ->
   PlayerAction.executePlayerAction random playerCharacter spellcasting
     action targets w
   = (Returns (mkResults [] []
        [mkMessage "Aucune action ou cible sélectionnée" (Some "error")]), w)) /\
  (forall actionType,
     action = Some (PlayerAction.OtherAction actionType) ->
     actionType <> Some "attack" -> actionType <> Some "spell" ->
     targets <> [] ->
     PlayerAction.executePlayerAction random playerCharacter spellcasting
       action targets w
     = (Returns (mkResults [] []
          [mkMessage ("Type d'action inconnu: "
                        +:+ default "undefined" actionType) (Some "error")]),
        w)).
Proof.
  unfold PlayerAction.executePlayerAction. split.
  - intros [-> | ->]; [reflexivity|]. now destruct action as [[]|].
  - intros actionType -> _ _ Hne.
    destruct targets; [congruence | reflexivity].
Qed.

Lemma executePlayerAction_nothing_to_do_witness :
  let hero := sampleCharacter "Elarion" Player 20 20 in
  PlayerAction.executePlayerAction halves hero None
    (Some (PlayerAction.SpellAction sampleMissile)) [] freshWorld
  = (Returns (mkResults [] []
       [mkMessage "Aucune action ou cible sélectionnée" (Some "error")]),
     freshWorld) /\
  PlayerAction.executePlayerAction halves hero None
    (Some (PlayerAction.OtherAction (Some "dodge"))) sampleGoblins freshWorld
  = (Returns (mkResults [] []
       [mkMessage "Type d'action inconnu: dodge" (Some "error")]),
     freshWorld).
Proof.
  intros hero. split.
  - apply (executePlayerAction_nothing_to_do halves hero None
             (Some (PlayerAction.SpellAction sampleMissile)) [] freshWorld).
    now right.
  - destruct (executePlayerAction_nothing_to_do halves hero None
                (Some (PlayerAction.OtherAction (Some "dodge"))) sampleGoblins
                freshWorld) as [_ Hother].
    apply (Hother (Some "dodge")); [reflexivity | discriminate..].
Defined.

(** ** Companion actions *)



(** X18: what casting a companion spell costs. A spell the companion cannot
    cast adds one message of type ['error'] and nothing else: no slot is
    used and [success] stays as it was. A spell it can cast, other than
    ['Trait de feu'], always returns with [success] set and one slot used
    (one console line), whatever the spell and the target. That includes
    ['Soins'] without a target, or on a target whose id is empty, where
    nothing is healed and no message is added: the slot is used for
    nothing. *)
Theorem executeCompanionSpell_slot (random : nat -> Q)
    (canCastSpell : Character -> option string -> bool)
    (companion : Character) (action : CompanionAction.Action)
    (results : CompanionAction.CompanionResults) (w : World) :
  let spellName := CompanionAction.actionSpell action in
  let run := CompanionAction.executeCompanionSpell random canCastSpell
               companion action results w in
  let slot := name companion +:+ " a utilisé un slot pour "
                +:+ default "undefined" spellName in
  (canCastSpell companion spellName = false ->
   exists after,
     run = (Returns after, w) /\
     onlyMessagesAdded 1 results after /\
     Forall (fun m => messageType m = Some "error")
            (drop (length (CompanionAction.companionMessages results))
                  (CompanionAction.companionMessages after)) /\
     CompanionAction.companionSuccess after
     = CompanionAction.companionSuccess results) /\
  (canCastSpell companion spellName = true ->
   spellName <> Some "Trait de feu" ->
   exists after w',
     run = (Returns after, w') /\
     CompanionAction.companionSuccess after = true /\
     console w' = console w ++ [slot] /\
     combatMessages w' = combatMessages w) /\
  (canCastSpell companion spellName = true ->
   spellName = Some "Soins" ->
   CompanionAction.actionTarget action = None \/
   (exists target, CompanionAction.actionTarget action = Some target /\
                   id target = "") ->
   run = (Returns (CompanionAction.succeed results),
          {| cursor := cursor w; console := console w ++ [slot];
             combatMessages := combatMessages w |})).
Proof.
  intros spellName run slot. subst run.
  unfold CompanionAction.executeCompanionSpell. fold spellName.
  split; [|split].
  - intros ->. cbn [negb]. eexists. split; [reflexivity|].
    split; [split; [eexists; split; reflexivity | repeat split]|].
    split; [|reflexivity].
    cbn [CompanionAction.pushMessage CompanionAction.companionMessages].
    rewrite drop_app_length. repeat constructor.
  - intros -> Hfire. cbn [negb]. unfold bindO, bind, ret.
    unfold CompanionAction.consumeSpellSlot. fold slot.
    destruct (bool_decide (spellName = Some "Soins")).
    + destruct (CompanionAction.actionTarget action) as [target|].
      * destruct (truthyString (Some (id target))).
        -- unfold CombatService.rollD8. rewrite rollDie_spec.
           eexists. eexists. repeat split.
        -- eexists. eexists. repeat split.
      * eexists. eexists. repeat split.
    + rewrite bool_decide_eq_false_2 by exact Hfire.
      destruct (bool_decide (spellName = Some "Détection de la magie"));
        eexists; eexists; repeat split.
  - intros -> Hsoins Htarget. cbn [negb]. unfold bindO, bind, ret.
    unfold CompanionAction.consumeSpellSlot. fold slot.
    rewrite bool_decide_eq_true_2 by exact Hsoins.
    destruct Htarget as [-> | (target & -> & Hid)]; [reflexivity|].
    rewrite Hid. reflexivity.
Qed.

Lemma executeCompanionSpell_slot_witness :
  let finn := sampleCharacter "Finn" Companion 15 15 in
  let action := CompanionAction.mkAction "spell" (Some "Soins") None None in
  CompanionAction.executeCompanionSpell halves (fun _ _ => true) finn action
    freshCompanionResults freshWorld
  = (Returns (CompanionAction.mkCompanionResults [] [] [] [] true),
     {| cursor := 0; console := ["Finn a utilisé un slot pour Soins"];
        combatMessages := [] |}).
Proof.
  intros finn action.
  destruct (executeCompanionSpell_slot halves (fun _ _ => true) finn action
              freshCompanionResults freshWorld) as (_ & _ & Hnothing).
  apply Hnothing; [reflexivity | reflexivity | now left].
Defined.



(** ** The inventory of the character store *)

Section InventoryFacts.

Import CharacterStore Inventory.

Lemma countsFor_positive (item : Item) :
  (forall q, quantity item = Some q -> 0 <= q) -> 1 <= countsFor item.
Proof.
  intros Hq. unfold countsFor, orElse, truthyNumber.
  destruct (quantity item) as [q|]; [|cbn; lia].
  specialize (Hq q eq_refl). destruct (q =? 0) eqn:E; cbn; [lia|].
  apply Z.eqb_neq in E. lia.
Qed.

Lemma orElse_nonzero (q d : Z) : q <> 0 -> orElse (Some q) d = q.
Proof.
  intros Hq. unfold orElse, truthyNumber. apply Z.eqb_neq in Hq.
  now rewrite Hq.
Qed.

Lemma totalQuantity_app (key : option string) (l1 l2 : list Item) :
  totalQuantity key (l1 ++ l2) = totalQuantity key l1 + totalQuantity key l2.
Proof.
  unfold totalQuantity. rewrite List.filter_app, map_app.
  induction (map countsFor (List.filter _ l1)) as [|z zs IH]; cbn; lia.
Qed.

Lemma totalQuantity_cons (key : option string) (item : Item)
    (l : list Item) :
  totalQuantity key (item :: l)
  = (if bool_decide (itemKey item = key) then countsFor item else 0)
    + totalQuantity key l.
Proof.
  unfold totalQuantity. cbn [List.filter].
  destruct (bool_decide (itemKey item = key)); reflexivity.
Qed.

Lemma totalQuantity_absent (key : option string) (l : list Item) :
  ~ In key (map itemKey l) -> totalQuantity key l = 0.
Proof.
  induction l as [|item l IH]; intros Hn; [reflexivity|].
  rewrite totalQuantity_cons. cbn [map In] in Hn.
  rewrite bool_decide_eq_false_2 by tauto. rewrite IH by tauto. reflexivity.
Qed.

Lemma itemKey_withQuantity (item : Item) (q : Z) :
  itemKey (withQuantity item q) = itemKey item.
Proof. reflexivity. Qed.

Lemma findIndex_byKey (itemId : string) (inv : list Item) :
  findIndex itemId inv = findIndexByKey (Some itemId) inv.
Proof.
  induction inv as [|item inv IH]; [reflexivity|]. cbn.
  destruct (bool_decide (itemKey item = Some itemId)); [reflexivity|].
  now rewrite IH.
Qed.

(** What [findIndex] finds: the first entry with the key. *)
Lemma findIndexByKey_Some (key : option string) (inv : list Item) (i : nat) :
  findIndexByKey key inv = Some i ->
  exists item, inv !! i = Some item /\ itemKey item = key /\
               ~ In key (map itemKey (take i inv)).
Proof.
  revert i. induction inv as [|item inv IH]; intros i H; [discriminate|].
  cbn in H. destruct (bool_decide (itemKey item = key)) eqn:E.
  - injection H as <-. apply bool_decide_eq_true_1 in E.
    exists item. split; [reflexivity|]. split; [exact E | intros []].
  - apply bool_decide_eq_false_1 in E.
    destruct (findIndexByKey key inv) as [j|]; [|discriminate].
    injection H as <-. destruct (IH j eq_refl) as (found & Hl & Hk & Hn).
    exists found. split; [exact Hl|]. split; [exact Hk|].
    cbn [take map In]. intros [H | H]; [now apply E | now apply Hn].
Qed.

Lemma findIndexByKey_None (key : option string) (inv : list Item) :
  findIndexByKey key inv = None <-> ~ In key (map itemKey inv).
Proof.
  induction inv as [|item inv IH]; [cbn; tauto|]. cbn.
  destruct (bool_decide (itemKey item = key)) eqn:E.
  - apply bool_decide_eq_true_1 in E. split; [discriminate | tauto].
  - apply bool_decide_eq_false_1 in E.
    destruct (findIndexByKey key inv) as [j|]; cbn.
    + split; [discriminate|]. intros Hn. exfalso.
      assert (Some j = None) by (apply IH; tauto). discriminate.
    + split; [|reflexivity]. intros _ [H | H]; [now apply E|].
      now apply (proj1 IH).
Qed.



Lemma targeted_setTargeted (targetCharacter : string) (state : Store)
    (c : Character) :
  targeted targetCharacter (setTargeted targetCharacter state c) = Some c.
Proof.
  unfold targeted, setTargeted. now destruct (bool_decide _) eqn:E; cbn.
Qed.


End InventoryFacts.

(** X20: spending a hit die. Without the targeted character, without a hit
    die left, or at full hit points, [spendHitDie] leaves the store as it
    is and draws no sample. Otherwise (for a character with a constitution
    score) it draws one sample and replaces the character by one that has
    exactly one hit die less and strictly more hit points, at most
    [maxHP]; its inventory and its [maxHP] are the same. *)
Theorem spendHitDie_spec (random : nat -> Q) (targetCharacter : string)
    (state : CharacterStore.Store) (w : World) :
  (CharacterStore.targeted targetCharacter state = None ->
   CharacterStore.spendHitDie random targetCharacter state w
   = (Returns state, w)) /\
  (forall c,
     CharacterStore.targeted targetCharacter state = Some c ->
     (hitDice c <= 0 \/ maxHP c <= currentHP c ->
      CharacterStore.spendHitDie random targetCharacter state w
      = (Returns state, w)) /\
     (0 < hitDice c -> currentHP c < maxHP c -> hasConstitution c ->
      exists c',
        CharacterStore.spendHitDie random targetCharacter state w
        = (Returns (CharacterStore.setTargeted targetCharacter state c'),
           advance 1 w) /\
        hitDice c' = hitDice c - 1 /\
        currentHP c < currentHP c' <= maxHP c /\
        maxHP c' = maxHP c /\
        inventory c' = inventory c)).
Proof.
  unfold CharacterStore.spendHitDie. split.
  - intros ->. reflexivity.
  - intros c ->. split.
    + intros [H | H].
      * apply Z.leb_le in H. now rewrite H.
      * apply Z.leb_le in H. rewrite H. now destruct (hitDice c <=? 0).
    + intros Hdice Hhp [con Hcon].
      assert (H1 : (hitDice c <=? 0) = false) by (apply Z.leb_gt; lia).
      assert (H2 : (maxHP c <=? currentHP c) = false) by (apply Z.leb_gt; lia).
      rewrite H1, H2.
      destruct (stats c) as [st|]; [|discriminate]. cbn in Hcon.
      rewrite Hcon. unfold bind. rewrite rollDie_spec. unfold ret.
      eexists. split; [reflexivity|].
      cbn [CharacterStore.withHitDieSpent hitDice currentHP maxHP inventory].
      repeat split; lia.
Qed.

Lemma spendHitDie_spec_witness :
  exists c',
    CharacterStore.spendHitDie halves "player" sampleStore freshWorld
    = (Returns (CharacterStore.setTargeted "player" sampleStore c'),
       advance 1 freshWorld) /\
    hitDice c' = 2 /\
    4 < currentHP c' <= 24.
Proof.
  destruct (spendHitDie_spec halves "player" sampleStore freshWorld)
    as [_ Hsome].
  destruct (Hsome _ eq_refl) as [_ Hspend].
  destruct Hspend as (c' & Hrun & Hdice & Hhp & _).
  - cbn. lia.
  - cbn. lia.
  - eexists. reflexivity.
  - exists c'. split; [exact Hrun|]. split; [exact Hdice | exact Hhp].
Defined.



(** X22: what [addItemToInventory] adds. For an item with a non-empty id,
    name or nom, and quantities that are not negative, the inventory of the
    targeted character afterwards counts [item.quantity || 1] more for the
    item's key and the same for every other key. The item is stacked on the
    first entry with its key when there is one (the inventory keeps its
    length); otherwise one entry is added at the end. Nothing but the
    inventory of the character changes. *)
Theorem addItemToInventory_total (generated : string) (item : Item)
    (targetCharacter : string) (state : CharacterStore.Store)
    (c : Character) :
  CharacterStore.targeted targetCharacter state = Some c ->
  truthyString (CharacterStore.itemKey item) = true ->
  quantitiesNonNegative (item :: inventory c) ->
  exists inv',
    Inventory.addItemToInventory generated item targetCharacter state
    = CharacterStore.setTargeted targetCharacter state
        (CharacterStore.withInventory c inv') /\
    (forall k,
       totalQuantity k inv'
       = totalQuantity k (inventory c)
         + if bool_decide (k = CharacterStore.itemKey item)
           then countsFor item else 0) /\
    (In (CharacterStore.itemKey item)
        (map CharacterStore.itemKey (inventory c)) ->
     length inv' = length (inventory c)) /\
    (~ In (CharacterStore.itemKey item)
          (map CharacterStore.itemKey (inventory c)) ->
     exists entry,
       inv' = inventory c ++ [entry] /\
       CharacterStore.itemKey entry = CharacterStore.itemKey item /\
       quantity entry = Some (countsFor item)).
Proof.
  intros Ht Hkey Hq. unfold Inventory.addItemToInventory. rewrite Ht.
  assert (Hitem : 1 <= countsFor item).
  { apply countsFor_positive. intros q. apply Hq. now left. }
  destruct (Inventory.findIndexByKey (CharacterStore.itemKey item)
              (inventory c)) as [i|] eqn:Efind.
  - destruct (findIndexByKey_Some _ _ _ Efind)
      as (existing & Hl & Hk & Hbefore).
    rewrite Hl. eexists. split; [reflexivity|].
    assert (Hexisting : 1 <= countsFor existing).
    { apply countsFor_positive. intros q. apply Hq. right.
      apply list_elem_of_In. now apply (list_elem_of_lookup_2 _ i). }
    split; [|split].
    + intros k. rewrite insert_take_drop
        by (now apply (lookup_lt_Some _ _ existing)).
      rewrite <- (take_drop_middle (inventory c) i existing Hl) at 3.
      rewrite !totalQuantity_app, !totalQuantity_cons.
      rewrite itemKey_withQuantity, Hk.
      fold (countsFor existing). fold (countsFor item).
      assert (Hnew : countsFor (CharacterStore.withQuantity existing
                                  (countsFor existing + countsFor item))
                     = countsFor existing + countsFor item).
      { unfold countsFor at 1. cbn [CharacterStore.withQuantity quantity].
        apply orElse_nonzero. lia. }
      rewrite Hnew.
      repeat case_bool_decide; try congruence; lia.
    + intros _. now rewrite length_insert.
    + intros Hn. exfalso. apply Hn.
      apply in_map_iff. exists existing. split; [exact Hk|].
      apply list_elem_of_In. now apply (list_elem_of_lookup_2 _ i).
  - apply findIndexByKey_None in Efind. eexists. split; [reflexivity|].
    assert (Hentry : CharacterStore.itemKey
                       (Inventory.asNewEntry generated item
                          (orElse (quantity item) 1))
                     = CharacterStore.itemKey item).
    { unfold Inventory.asNewEntry, CharacterStore.itemKey at 1.
      cbn [item_id itemName nom]. rewrite Hkey. now rewrite Hkey. }
    split; [|split].
    + intros k. rewrite totalQuantity_app, totalQuantity_cons, Hentry.
      change (totalQuantity k []) with 0.
      assert (Hnew : countsFor (Inventory.asNewEntry generated item
                                  (orElse (quantity item) 1))
                     = countsFor item).
      { unfold countsFor at 1. cbn [Inventory.asNewEntry quantity].
        fold (countsFor item). apply orElse_nonzero. lia. }
      rewrite Hnew. repeat case_bool_decide; try congruence; lia.
    + intros Hin. contradiction.
    + intros _. eexists. split; [reflexivity|]. split; [exact Hentry|].
      reflexivity.
Qed.

Lemma addItemToInventory_total_witness :
  exists inv',
    Inventory.addItemToInventory "item_1" (sampleArrows (Some 5)) "player"
      sampleArcher
    = CharacterStore.setTargeted "player" sampleArcher
        (CharacterStore.withInventory
           (default (sampleCharacter "" Player 0 0)
                    (CharacterStore.playerCharacter sampleArcher)) inv') /\
    totalQuantity (Some "Flèches") inv' = 25 /\
    length inv' = 1%nat.
Proof.
  destruct (addItemToInventory_total "item_1" (sampleArrows (Some 5))
              "player" sampleArcher _ eq_refl eq_refl)
    as (inv' & Hrun & Htotal & Hstack & _).
  - intros item q [<- | [<- | []]] [= <-]; lia.
  - exists inv'. split; [exact Hrun|]. split.
    + rewrite Htotal. reflexivity.
    + apply Hstack. now left.
Defined.

Section Consolidate.

Import CharacterStore Inventory.

Lemma mapHas_In (key : option string) (itemMap : ItemMap) :
  mapHas key itemMap = true <-> In key (map fst itemMap).
Proof.
  unfold mapHas. rewrite existsb_exists. split.
  - intros ([k o] & Hin & Hk). apply bool_decide_eq_true_1 in Hk.
    cbn in Hk. apply in_map_iff. exists (k, o). split; [exact Hk | exact Hin].
  - intros Hin. apply in_map_iff in Hin as ([k o] & Hk & Hin).
    exists (k, o). split; [exact Hin|]. now apply bool_decide_eq_true_2.
Qed.

Lemma mapUpdate_keys (key : option string) (f : Item -> Item)
    (itemMap : ItemMap) :
  map fst (mapUpdate key f itemMap) = map fst itemMap.
Proof.
  induction itemMap as [|[k o] rest IH]; [reflexivity|]. cbn.
  destruct (bool_decide (k = key)); cbn; [reflexivity | now rewrite IH].
Qed.

Lemma mapUpdate_In (key : option string) (f : Item -> Item)
    (itemMap : ItemMap) (k : option string) (o : Item) :
  NoDup (map fst itemMap) ->
  In (k, o) (mapUpdate key f itemMap) ->
  (k <> key /\ In (k, o) itemMap) \/
  (k = key /\ exists o0, In (key, o0) itemMap /\ o = f o0).
Proof.
  induction itemMap as [|[k0 o0] rest IH]; intros Hnd Hin; [destruct Hin|].
  cbn in Hin. inversion Hnd as [|? ? Hnotin Hnd']; subst.
  destruct (bool_decide (k0 = key)) eqn:E.
  - apply bool_decide_eq_true_1 in E. subst k0.
    destruct Hin as [[= <- <-] | Hin].
    + right. split; [reflexivity|]. exists o0. split; [now left | reflexivity].
    + left. split; [|now right]. intros ->. apply Hnotin.
      apply list_elem_of_In, in_map_iff. now exists (key, o).
  - apply bool_decide_eq_false_1 in E.
    destruct Hin as [[= <- <-] | Hin].
    + left. split; [exact E | now left].
    + destruct (IH Hnd' Hin) as [[Hne Hin'] | [-> (o1 & Hin' & ->)]].
      * left. split; [exact Hne | now right].
      * right. split; [reflexivity|]. exists o1. split; [now right | reflexivity].
Qed.

Lemma totalQuantity_snoc (k : option string) (seen : list Item)
    (item : Item) :
  totalQuantity k (seen ++ [item])
  = totalQuantity k seen
    + (if bool_decide (itemKey item = k) then countsFor item else 0).
Proof.
  rewrite totalQuantity_app, totalQuantity_cons.
  change (totalQuantity k []) with 0. lia.
Qed.

Lemma consolidateItem_consolidated (itemMap : ItemMap) (seen : list Item)
    (item : Item) :
  consolidated itemMap seen ->
  (forall q, quantity item = Some q -> 0 <= q) ->
  consolidated (consolidateItem itemMap item) (seen ++ [item]).
Proof.
  intros (Hnd & Hentries & Hkeys) Hq.
  pose proof (countsFor_positive item Hq) as Hpos.
  unfold consolidateItem.
  destruct (mapHas (itemKey item) itemMap) eqn:Ehas.
  - apply mapHas_In in Ehas. split; [|split].
    + now rewrite mapUpdate_keys.
    + intros k o Hin. rewrite totalQuantity_snoc.
      apply mapUpdate_In in Hin as [[Hne Hin] | [-> (o0 & Hin & ->)]];
        [| |exact Hnd].
      * destruct (Hentries k o Hin) as (Hk & Hquantity & Hone).
        rewrite bool_decide_eq_false_2 by congruence.
        rewrite Z.add_0_r. auto.
      * destruct (Hentries _ o0 Hin) as (Hk & Hquantity & Hone).
        rewrite bool_decide_eq_true_2 by reflexivity.
        split; [exact Hk|]. split; [|lia].
        cbn [withQuantity quantity]. rewrite Hquantity.
        rewrite orElse_nonzero by lia. reflexivity.
    + intros k. rewrite mapUpdate_keys, map_app, in_app_iff, Hkeys.
      cbn [map In]. split; [tauto|].
      intros [H | [<- | []]]; [exact H | now apply Hkeys].
  - assert (Hnew : ~ In (itemKey item) (map fst itemMap)).
    { intros Hin. apply mapHas_In in Hin. congruence. }
    split; [|split].
    + rewrite map_app. cbn [map fst]. apply NoDup_app. split; [exact Hnd|].
      split; [|apply NoDup_singleton].
      intros k Hin Hk. apply list_elem_of_In in Hin.
      apply list_elem_of_singleton in Hk. subst. contradiction.
    + intros k o Hin. rewrite totalQuantity_snoc.
      apply in_app_iff in Hin as [Hin | [[= <- <-] | []]].
      * destruct (Hentries k o Hin) as (Hk & Hquantity & Hone).
        assert (Hne : itemKey item <> k).
        { intros <-. apply Hnew. apply in_map_iff. now exists (itemKey item, o). }
        rewrite bool_decide_eq_false_2 by exact Hne.
        rewrite Z.add_0_r. auto.
      * rewrite bool_decide_eq_true_2 by reflexivity.
        rewrite totalQuantity_absent by (now rewrite <- Hkeys).
        split; [reflexivity|]. split; [reflexivity | lia].
    + intros k. rewrite !map_app, !in_app_iff, Hkeys. reflexivity.
Qed.

Lemma consolidate_consolidated (inv : list Item) (itemMap : ItemMap)
    (seen : list Item) :
  consolidated itemMap seen ->
  quantitiesNonNegative inv ->
  consolidated (fold_left consolidateItem inv itemMap) (seen ++ inv).
Proof.
  revert itemMap seen. induction inv as [|item inv IH];
    intros itemMap seen Hinv Hq.
  - now rewrite app_nil_r.
  - cbn [fold_left].
    replace (seen ++ item :: inv) with ((seen ++ [item]) ++ inv)
      by (now rewrite <- app_assoc).
    apply IH.
    + apply consolidateItem_consolidated; [exact Hinv|].
      intros q. apply Hq. now left.
    + intros i q Hin. apply Hq. now right.
Qed.

(** Entries with distinct keys and quantities that count are put in the map
    one after the other, unchanged. *)
Lemma consolidate_distinct (inv : list Item) (itemMap : ItemMap) :
  NoDup (map fst itemMap ++ map itemKey inv) ->
  (forall o, In o inv -> exists q, quantity o = Some q /\ q <> 0) ->
  fold_left consolidateItem inv itemMap
  = itemMap ++ map (fun o => (itemKey o, o)) inv.
Proof.
  revert itemMap. induction inv as [|item inv IH]; intros itemMap Hnd Hq.
  - cbn. now rewrite app_nil_r.
  - cbn [fold_left map]. unfold consolidateItem at 2.
    assert (Hnew : mapHas (itemKey item) itemMap = false).
    { destruct (mapHas (itemKey item) itemMap) eqn:E; [|reflexivity].
      apply mapHas_In in E. apply NoDup_app in Hnd as (_ & Hdisj & _).
      exfalso. apply (Hdisj (itemKey item)).
      - now apply list_elem_of_In.
      - apply list_elem_of_In. now left. }
    rewrite Hnew.
    destruct (Hq item ltac:(now left)) as (q & Hquantity & Hne).
    assert (Hsame : withQuantity item (orElse (quantity item) 1) = item).
    { rewrite Hquantity, orElse_nonzero by exact Hne.
      destruct item; cbn in *. now subst. }
    rewrite Hsame. rewrite IH.
    + now rewrite <- app_assoc.
    + rewrite map_app. cbn [map fst]. rewrite <- app_assoc. exact Hnd.
    + intros o Ho. apply Hq. now right.
Qed.

End Consolidate.

(** X23: [consolidateInventory] groups the inventory of the targeted
    character by key (id, else name, else nom). When no quantity is
    negative, the new inventory has one entry per key of the old one (so
    its keys are distinct), and the entry's quantity is what the old
    entries with that key counted for together, each for
    [quantity || 1]: no item is lost or made. Consolidating the result
    again changes nothing. *)
Theorem consolidateInventory_spec (targetCharacter : string)
    (state : CharacterStore.Store) (c : Character) :
  CharacterStore.targeted targetCharacter state = Some c ->
  quantitiesNonNegative (inventory c) ->
  let inv' := Inventory.consolidate (inventory c) in
  Inventory.consolidateInventory targetCharacter state
  = CharacterStore.setTargeted targetCharacter state
      (CharacterStore.withInventory c inv') /\
  NoDup (map CharacterStore.itemKey inv') /\
  (forall k, In k (map CharacterStore.itemKey inv')
             <-> In k (map CharacterStore.itemKey (inventory c))) /\
  (forall o, In o inv' ->
     quantity o
     = Some (totalQuantity (CharacterStore.itemKey o) (inventory c)) /\
     1 <= totalQuantity (CharacterStore.itemKey o) (inventory c)) /\
  (length inv' <= length (inventory c))%nat /\
  Inventory.consolidate inv' = inv'.
Proof.
  intros Ht Hq inv'. unfold Inventory.consolidateInventory. rewrite Ht.
  split; [reflexivity|].
  assert (Hempty : consolidated [] []).
  { split; [constructor|]. split; [intros k o []|]. intros k. cbn. tauto. }
  pose proof (consolidate_consolidated (inventory c) [] [] Hempty Hq)
    as (Hnd & Hentries & Hkeys).
  cbn [app] in Hnd, Hentries, Hkeys.
  set (itemMap := fold_left Inventory.consolidateItem (inventory c) []) in *.
  assert (Hfst : map CharacterStore.itemKey inv' = map fst itemMap).
  { subst inv'. unfold Inventory.consolidate. fold itemMap.
    rewrite map_map. apply map_ext_in. intros [k o] Hin.
    now destruct (Hentries k o Hin). }
  assert (Hinv : forall o, In o inv' ->
                   In (CharacterStore.itemKey o, o) itemMap).
  { intros o Hin. subst inv'. unfold Inventory.consolidate in Hin.
    fold itemMap in Hin. apply in_map_iff in Hin as ([k o'] & <- & Hin).
    cbn. now destruct (Hentries k o' Hin) as (-> & _). }
  split; [now rewrite Hfst|]. split; [now rewrite Hfst|].
  split.
  { intros o Hin. destruct (Hentries _ o (Hinv o Hin)) as (_ & H1 & H2).
    now split. }
  split.
  { rewrite <- (length_map CharacterStore.itemKey inv'), Hfst.
    rewrite <- (length_map CharacterStore.itemKey (inventory c)).
    apply NoDup_incl_length; [now apply NoDup_ListNoDup|].
    intros k Hk. now apply Hkeys. }
  unfold Inventory.consolidate at 1.
  rewrite (consolidate_distinct inv' []).
  - cbn [app]. rewrite map_map. cbn [snd]. apply map_id.
  - cbn [map app]. now rewrite Hfst.
  - intros o Hin. destruct (Hentries _ o (Hinv o Hin)) as (_ & H1 & H2).
    eexists. split; [exact H1 | lia].
Qed.

Lemma consolidateInventory_spec_witness :
  let torch q :=
    {| item_id := None; itemName := None; nom := Some "Torche";
       itemType := None; consumable := false; quantity := q;
       effects := None |} in
  let hero :=
    CharacterStore.withInventory (sampleCharacter "Elarion" Player 20 20)
      [sampleArrows (Some 20); torch None; sampleArrows None; torch (Some 2)] in
  let state := CharacterStore.mkStore (Some hero) None (Some hero) in
  Inventory.consolidateInventory "player" state
  = CharacterStore.setTargeted "player" state
      (CharacterStore.withInventory hero
         [sampleArrows (Some 21); torch (Some 3)]).
Proof.
  intros torch hero state.
  destruct (consolidateInventory_spec "player" state hero eq_refl)
    as (Hrun & _).
  - intros item q [<- | [<- | [<- | [<- | []]]]] [= <-]; lia.
  - rewrite Hrun. reflexivity.
Defined.

Section UseItem.

Import CharacterStore Inventory.

(** The effects of an item: the last ['heal'] effect decides. *)
Lemma applyEffects_lastHeal (character : Character)
    (itemEffects : list Effect) (acc : Character * string) (w : World) :
  fst (applyEffects character acc itemEffects w)
  = match lastHeal itemEffects with
    | Some e =>
        (withCurrentHP (fst acc)
           (Z.min (maxHP character) (currentHP character + value e)),
         "Vous récupérez " +:+ showZ (value e) +:+ " PV")
    | None => acc
    end.
Proof.
  revert acc w. induction itemEffects as [|e rest IH]; intros acc w.
  - reflexivity.
  - cbn [applyEffects]. unfold bind, applyEffect. unfold lastHeal.
    cbn [List.filter].
    destruct (bool_decide (effectType e = "heal")).
    + unfold ret. rewrite IH. rewrite last_cons. fold (lastHeal rest).
      destruct (lastHeal rest); reflexivity.
    + unfold bind, log, ret. rewrite IH. reflexivity.
Qed.

Lemma removeItemFromInventory_hit_points (itemId targetCharacter : string)
    (quantityToRemove : Z) (state : Store) (c : Character) :
  targeted targetCharacter state = Some c ->
  exists c',
    targeted targetCharacter
      (removeItemFromInventory itemId targetCharacter quantityToRemove state)
    = Some c' /\
    currentHP c' = currentHP c /\ maxHP c' = maxHP c.
Proof.
  intros Ht. unfold removeItemFromInventory. rewrite Ht.
  destruct (findIndex itemId (inventory c)) as [i|]; [|eauto].
  destruct (inventory c !! i) as [item|]; [|eauto].
  rewrite targeted_setTargeted. eexists. split; [reflexivity|].
  split; reflexivity.
Qed.

End UseItem.

(** X24: the heal effects of an item do not add up. When [useItem] falls
    back on the effects of the item (the registry has no [use] function for
    it) and the item has a ['heal'] effect, the character ends with
    [min(maxHP, currentHP + v)] hit points, where [currentHP] is what it had
    before the item was used and [v] is the value of the last ['heal']
    effect; the earlier heal effects are lost. The call succeeds with the
    message for [v]. *)
Theorem useItem_last_heal_wins (items : gmap string CharacterStore.ItemData)
    (itemId targetCharacter : string) (state : CharacterStore.Store)
    (c : Character) (item : Item) (itemEffects : list Effect) (e : Effect)
    (w : World) :
  CharacterStore.targeted targetCharacter state = Some c ->
  find (fun i => bool_decide (CharacterStore.itemKey i = Some itemId))
       (inventory c) = Some item ->
  usedByEffects items itemId item ->
  effects item = Some itemEffects ->
  lastHeal itemEffects = Some e ->
  let result := fst (CharacterStore.useItem items itemId targetCharacter
                       state w) in
  fst result
  = CharacterStore.mkUseResult true
      ("Vous récupérez " +:+ showZ (value e) +:+ " PV") /\
  exists c',
    CharacterStore.targeted targetCharacter (snd result) = Some c' /\
    currentHP c' = Z.min (maxHP c) (currentHP c + value e) /\
    maxHP c' = maxHP c.
Proof.
  intros Ht Hfind Hused Heffects Hlast result. subst result.
  unfold CharacterStore.useItem. rewrite Ht, Hfind.
  unfold usedByEffects in Hused.
  destruct (CharacterStore.lookupItemData items itemId item)
    as [[[useFn|] ty msg]|]; [discriminate Hused | |];
    rewrite Heffects; unfold bind;
    pose proof (applyEffects_lastHeal c itemEffects
                  (c, (if truthyString (itemName item)
                       then default "" (itemName item)
                       else default "undefined" (nom item)) +:+ " utilisé") w)
      as Hrun;
    rewrite Hlast in Hrun;
    destruct (CharacterStore.applyEffects c _ itemEffects w)
      as [updated w'];
    cbn [fst] in Hrun; subst updated; unfold ret; cbn [fst snd];
    (split; [reflexivity|]);
    destruct (consumable item
              || bool_decide (itemType item = Some "consumable")).
  all: try (destruct (removeItemFromInventory_hit_points itemId
                        targetCharacter 1
                        (CharacterStore.setTargeted targetCharacter state
                           (CharacterStore.withCurrentHP c
                              (Z.min (maxHP c) (currentHP c + value e))))
                        _ (targeted_setTargeted _ _ _))
              as (c' & Hc' & Hhp & Hmax);
            exists c'; split; [exact Hc' | split; [exact Hhp | exact Hmax]]).
  all: rewrite targeted_setTargeted; eexists; split; [reflexivity|];
       split; reflexivity.
Qed.

Lemma useItem_last_heal_wins_witness :
  let result := fst (CharacterStore.useItem ∅ "baume" "player"
                       sampleSalveStore freshWorld) in
  fst result = CharacterStore.mkUseResult true "Vous récupérez 3 PV" /\
  exists c',
    CharacterStore.targeted "player" (snd result) = Some c' /\
    currentHP c' = 7 /\ maxHP c' = 24.
Proof.
  exact (useItem_last_heal_wins ∅ "baume" "player" sampleSalveStore _
           sampleSalve _ (mkEffect "heal" 3) freshWorld
           eq_refl eq_refl I eq_refl eq_refl).
Defined.

(** X25: the selector [hasItem] looks at the ids only, the inventory
    actions at the key (id, else name, else nom). When [hasItem] holds for a
    non-empty id, the player's inventory has an entry with that key, which
    [removeItemFromInventory] and [useItem] find. The converse fails: the
    sample archer owns arrows that have a name and no id; [hasItem] denies
    them, yet they are found and removed under their name. *)
Theorem hasItem_sound_not_complete :
  (forall state itemId,
     Inventory.hasItem state itemId = true -> itemId <> "" ->
     exists c i item,
       CharacterStore.playerCharacter state = Some c /\
       CharacterStore.findIndex itemId (inventory c) = Some i /\
       inventory c !! i = Some item /\
       CharacterStore.itemKey item = Some itemId /\
       is_Some (find (fun i => bool_decide
                                 (CharacterStore.itemKey i = Some itemId))
                     (inventory c))) /\
  Inventory.hasItem sampleArcher "Flèches" = false /\
  Inventory.getInventoryItems sampleArcher = [sampleArrows (Some 20)] /\
  Inventory.getInventoryItems
    (CharacterStore.removeItemFromInventory "Flèches" "player" 20 sampleArcher)
  = [].
Proof.
  split; [|repeat split].
  intros state itemId Hhas Hne. unfold Inventory.hasItem in Hhas.
  destruct (CharacterStore.playerCharacter state) as [c|]; [|discriminate].
  apply existsb_exists in Hhas as (owned & Hin & Hid).
  apply bool_decide_eq_true_1 in Hid.
  assert (Hkey : CharacterStore.itemKey owned = Some itemId).
  { unfold CharacterStore.itemKey. rewrite Hid.
    destruct itemId; [congruence | reflexivity]. }
  assert (Hkeys : In (Some itemId) (map CharacterStore.itemKey (inventory c))).
  { apply in_map_iff. now exists owned. }
  destruct (Inventory.findIndexByKey (Some itemId) (inventory c)) as [i|]
    eqn:Efind.
  - destruct (findIndexByKey_Some _ _ _ Efind) as (item & Hl & Hk & _).
    exists c, i, item. rewrite findIndex_byKey.
    split; [reflexivity|]. split; [exact Efind|]. split; [exact Hl|].
    split; [exact Hk|].
    destruct (find _ (inventory c)) as [found|] eqn:Ef; [eauto|].
    pose proof (find_none _ _ Ef owned Hin) as Hf. cbn in Hf.
    rewrite bool_decide_eq_true_2 in Hf by exact Hkey. discriminate.
  - apply findIndexByKey_None in Efind. contradiction.
Qed.




(** X27: what [removeItemFromInventory] removes. Without an entry with the
    key, the store stays as it is. Otherwise, for a quantity to remove of 1
    or more and an inventory without negative quantities, the inventory of
    the targeted character afterwards counts the same for every other key,
    and for the key itself less than before, by at most the quantity to
    remove. *)
Theorem removeItemFromInventory_total (itemId targetCharacter : string)
    (quantityToRemove : Z) (state : CharacterStore.Store) (c : Character) :
  CharacterStore.targeted targetCharacter state = Some c ->
  (~ In (Some itemId) (map CharacterStore.itemKey (inventory c)) ->
   CharacterStore.removeItemFromInventory itemId targetCharacter
     quantityToRemove state = state) /\
  (In (Some itemId) (map CharacterStore.itemKey (inventory c)) ->
   1 <= quantityToRemove ->
   quantitiesNonNegative (inventory c) ->
   exists inv',
     CharacterStore.removeItemFromInventory itemId targetCharacter
       quantityToRemove state
     = CharacterStore.setTargeted targetCharacter state
         (CharacterStore.withInventory c inv') /\
     (forall k, k <> Some itemId ->
        totalQuantity k inv' = totalQuantity k (inventory c)) /\
     totalQuantity (Some itemId) (inventory c) - quantityToRemove
       <= totalQuantity (Some itemId) inv'
       < totalQuantity (Some itemId) (inventory c)).
Proof.
  intros Ht. unfold CharacterStore.removeItemFromInventory. rewrite Ht.
  rewrite findIndex_byKey. split.
  - intros Hn. apply findIndexByKey_None in Hn. now rewrite Hn.
  - intros Hin Hone Hq.
    destruct (Inventory.findIndexByKey (Some itemId) (inventory c)) as [i|]
      eqn:Efind; [|apply findIndexByKey_None in Efind; contradiction].
    destruct (findIndexByKey_Some _ _ _ Efind) as (item & Hl & Hk & _).
    rewrite Hl. eexists. split; [reflexivity|].
    assert (Hitem : 1 <= countsFor item).
    { apply countsFor_positive. intros q. apply Hq.
      apply list_elem_of_In. now apply (list_elem_of_lookup_2 _ i). }
    fold (countsFor item).
    assert (Htotal : forall k,
              totalQuantity k (inventory c)
              = totalQuantity k (take i (inventory c))
                + ((if bool_decide (CharacterStore.itemKey item = k)
                    then countsFor item else 0)
                   + totalQuantity k (drop (S i) (inventory c)))).
    { intros k. rewrite <- (take_drop_middle (inventory c) i item Hl) at 1.
      now rewrite totalQuantity_app, totalQuantity_cons. }
    destruct (countsFor item <=? quantityToRemove) eqn:Ele.
    + apply Z.leb_le in Ele. rewrite delete_take_drop.
      split.
      * intros k Hne. rewrite (Htotal k), totalQuantity_app.
        rewrite bool_decide_eq_false_2 by congruence. lia.
      * rewrite (Htotal (Some itemId)), totalQuantity_app.
        rewrite bool_decide_eq_true_2 by exact Hk. lia.
    + apply Z.leb_gt in Ele.
      rewrite insert_take_drop by (now apply (lookup_lt_Some _ _ item)).
      assert (Hnew : countsFor (CharacterStore.withQuantity item
                                  (countsFor item - quantityToRemove))
                     = countsFor item - quantityToRemove).
      { unfold countsFor at 1. cbn [CharacterStore.withQuantity quantity].
        apply orElse_nonzero. lia. }
      split.
      * intros k Hne. rewrite (Htotal k), totalQuantity_app.
        rewrite totalQuantity_cons, itemKey_withQuantity.
        rewrite bool_decide_eq_false_2 by congruence. lia.
      * rewrite (Htotal (Some itemId)), totalQuantity_app.
        rewrite totalQuantity_cons, itemKey_withQuantity.
        rewrite bool_decide_eq_true_2 by exact Hk. rewrite Hnew. lia.
Qed.

Lemma removeItemFromInventory_total_witness :
  exists inv',
    CharacterStore.removeItemFromInventory "Flèches" "player" 3 sampleArcher
    = CharacterStore.setTargeted "player" sampleArcher
        (CharacterStore.withInventory
           (default (sampleCharacter "" Player 0 0)
                    (CharacterStore.playerCharacter sampleArcher)) inv') /\
    17 <= totalQuantity (Some "Flèches") inv' < 20.
Proof.
  destruct (removeItemFromInventory_total "Flèches" "player" 3 sampleArcher
              _ eq_refl) as [_ Hremove].
  destruct Hremove as (inv' & Hrun & _ & Htotal).
  - cbn. now left.
  - lia.
  - intros item q [<- | []] [= <-]. lia.
  - exists inv'. split; [exact Hrun | exact Htotal].
Defined.

(** ** Entity attacks *)

(** X28: the outcome of [executeEntityAttack], whatever its arguments. An
    attack that is reported as failed deals no damage and carries no
    [critical] flag; an attack reported as a success tells whether the d20
    showed 20 and has added exactly one combat message, which is not a
    miss. In every case at most one combat message is added, after those
    already there. *)
Theorem executeEntityAttack_outcome (random : nat -> Q)
    (attacker : option Character) (attack : option Attack)
    (target : option Target) (w : World) :
  let run := CombatService.executeEntityAttack random attacker attack target
               w in
  (success (fst run) = false ->
   resultDamage (fst run) = 0 /\ critical (fst run) = None) /\
  (success (fst run) = true ->
   critical (fst run) = Some (face random 20 (cursor w) =? 20) /\
   exists m, combatMessages (snd run) = combatMessages w ++ [m] /\
             messageType m <> Some "miss") /\
  (exists added,
     combatMessages (snd run) = combatMessages w ++ added /\
     (length added <= 1)%nat).
Proof.
  intros run. pattern run.
  match goal with |- ?P _ => set (Q := P) end.
  subst run. unfold CombatService.executeEntityAttack.
  assert (Hquiet : forall w1,
            combatMessages w1 = combatMessages w ->
            Q (mkEntityAttackResult false 0 None, w1)).
  { intros w1 Hm. subst Q. cbn. split; [auto|]. split; [discriminate|].
    exists []. rewrite app_nil_r. split; [exact Hm | cbn; lia]. }
  assert (Hfail : forall w1 m,
            combatMessages w1 = combatMessages w ++ [m] ->
            Q (mkEntityAttackResult false 0 None, w1)).
  { intros w1 m Hm. subst Q. cbn. split; [auto|]. split; [discriminate|].
    exists [m]. split; [exact Hm | cbn; lia]. }
  assert (Hhit : forall w1 m dmg,
            combatMessages w1 = combatMessages w ++ [m] ->
            messageType m <> Some "miss" ->
            Q (mkEntityAttackResult true dmg
                 (Some (face random 20 (cursor w) =? 20)), w1)).
  { intros w1 m dmg Hm Hty. subst Q. cbn. split; [discriminate|].
    split; [intros _; split; [reflexivity|]; exists m; now split|].
    exists [m]. split; [exact Hm | cbn; lia]. }
  clearbody Q.
  destruct attacker as [attacker|]; [|now apply Hquiet].
  destruct attack as [attack|]; [|now apply Hquiet].
  destruct target as [target|]; [|now apply Hquiet].
  destruct (match character target with
            | Some sheet => currentHP sheet <=? 0
            | None => false
            end).
  { eapply Hfail. reflexivity. }
  unfold bind at 1. unfold CombatService.rollD20. rewrite rollDie_spec.
  unfold bind at 1.
  destruct (getAttackBonus_cursor attacker attack (advance 1 w)) as [_ Hm].
  destruct (CombatService.getAttackBonus attacker attack (advance 1 w))
    as [b w1].
  cbn [snd advance combatMessages] in Hm.
  destruct (match character target with
            | Some sheet => ac sheet
            | None => Some (orElse (ac (entity target)) 10)
            end) as [targetAC|]; [|now apply Hquiet].
  destruct ((targetAC <=? face random 20 (cursor w) + b)
            || (face random 20 (cursor w) =? 20)).
  2: { eapply Hfail. cbn. now rewrite Hm. }
  unfold bind at 1.
  assert (Hrolled : exists rolled w2,
    (if truthyString (damageDice attack)
     then let* r := CombatService.rollDamage random
                      (default "" (damageDice attack)) in
          ret (r + orElse (damageBonus attack) 0)
     else if truthyString (damage attack)
          then CombatService.rollDamage random (default "" (damage attack))
          else ret 1) w1 = (rolled, w2) /\
    combatMessages w2 = combatMessages w).
  { destruct (truthyString (damageDice attack)).
    - unfold bind, ret.
      destruct (rollDamage_world random (default "" (damageDice attack)) w1)
        as [Hm2 _].
      destruct (CombatService.rollDamage random _ w1) as [r w2].
      eexists. eexists. split; [reflexivity|]. cbn in Hm2. congruence.
    - destruct (truthyString (damage attack)).
      + destruct (rollDamage_world random (default "" (damage attack)) w1)
          as [Hm2 _].
        destruct (CombatService.rollDamage random _ w1) as [r w2].
        eexists. eexists. split; [reflexivity|]. cbn in Hm2. congruence.
      + eexists. eexists. split; [reflexivity | exact Hm]. }
  destruct Hrolled as (rolled & w2 & -> & Hm2).
  destruct (face random 20 (cursor w) =? 20) eqn:E20.
  - cbn. eapply Hhit; [cbn; now rewrite Hm2 | discriminate].
  - cbn. eapply Hhit; [cbn; now rewrite Hm2|].
    cbn. destruct (bool_decide _); discriminate.
Qed.

(** ** The ids of the created enemies *)

Section EnemyIds.

Import CombatService.

Lemma hasUnderscore_app (a b : string) :
  hasUnderscore (a +:+ b) = hasUnderscore a || hasUnderscore b.
Proof.
  induction a as [|c a IH]; [reflexivity|].
  rewrite append_cons. cbn [hasUnderscore]. rewrite IH.
  now rewrite orb_assoc.
Qed.

(** Decimal numerals have no underscore. *)
Lemma pretty_N_go_no_underscore (x : N) (s : string) :
  hasUnderscore s = false -> hasUnderscore (pretty_N_go x s) = false.
Proof.
  revert s. induction (N.lt_wf_0 x) as [x _ IH]; intros s Hs.
  assert (x = 0 \/ 0 < x)%N as [-> | Hpos] by lia.
  - now rewrite pretty_N_go_0.
  - rewrite pretty_N_go_step by exact Hpos. apply IH.
    + now apply N.div_lt.
    + cbn [hasUnderscore]. rewrite Hs. unfold pretty_N_char.
      repeat case_match; reflexivity.
Qed.

Lemma showNat_no_underscore (n : nat) : hasUnderscore (showNat n) = false.
Proof.
  unfold showNat, pretty, pretty_nat, pretty, pretty_N.
  case_decide; [reflexivity|]. now apply pretty_N_go_no_underscore.
Qed.

(** A string is cut in one way only at its last underscore. *)
Lemma cut_at_last_underscore (u u' b b' : string) :
  hasUnderscore b = false -> hasUnderscore b' = false ->
  u +:+ "_" +:+ b = u' +:+ "_" +:+ b' -> u = u' /\ b = b'.
Proof.
  intros Hb Hb'. revert u'. induction u as [|c u IH]; intros u' Heq.
  - destruct u' as [|c' u'].
    + change (String "_" b = String "_" b') in Heq.
      injection Heq as ->. now split.
    + change (String "_" b = String c' (u' +:+ "_" +:+ b')) in Heq.
      injection Heq as _ ->.
      rewrite hasUnderscore_app in Hb.
      change (hasUnderscore ("_" +:+ b')) with true in Hb.
      rewrite orb_true_r in Hb. discriminate.
  - destruct u' as [|c' u'].
    + change (String c (u +:+ "_" +:+ b) = String "_" b') in Heq.
      injection Heq as _ Heq. subst b'.
      rewrite hasUnderscore_app in Hb'.
      change (hasUnderscore ("_" +:+ b)) with true in Hb'.
      rewrite orb_true_r in Hb'. discriminate.
    + change (String c (u +:+ "_" +:+ b) = String c' (u' +:+ "_" +:+ b'))
        in Heq.
      injection Heq as -> Heq.
      destruct (IH u' Heq) as [-> ->]. now split.
Qed.

(** The id of an instance tells its group and its index in the group. *)
Lemma enemyInstance_id_inj (g g' : Encounter) (k k' : nat)
    (template template' : EnemyTemplate) (index index' : nat) :
  id (enemyInstance g k template index)
  = id (enemyInstance g' k' template' index') ->
  k = k' /\ index = index'.
Proof.
  cbn [enemyInstance id]. intros Heq.
  assert (Hshape : forall t a b : string,
            t +:+ "_" +:+ a +:+ "_" +:+ b = (t +:+ "_" +:+ a) +:+ "_" +:+ b)
    by (intros; now rewrite !append_assoc).
  rewrite !Hshape in Heq.
  apply cut_at_last_underscore in Heq as [Heq Hindex];
    [|apply showNat_no_underscore..].
  apply cut_at_last_underscore in Heq as [_ Hk];
    [|apply showNat_no_underscore..].
  split; [now apply (inj showNat) in Hk | now apply (inj showNat) in Hindex].
Qed.

Lemma enemyInstance_id_underscore (g : Encounter) (k : nat)
    (template : EnemyTemplate) (index : nat) :
  hasUnderscore (id (enemyInstance g k template index)) = true.
Proof.
  cbn [enemyInstance id]. rewrite !hasUnderscore_app. cbn.
  now rewrite orb_true_r.
Qed.

Lemma instance_ids_distinct (g : Encounter) (i : nat)
    (template : EnemyTemplate) (start n : nat) :
  NoDup (map id (map (enemyInstance g i template) (seq start n))).
Proof.
  revert start. induction n as [|n IHn]; intros start; [constructor|].
  cbn [seq map]. apply NoDup_cons. split; [|apply IHn].
  intros Hin. apply list_elem_of_In in Hin.
  apply in_map_iff in Hin as (e & Heq & Hin).
  apply in_map_iff in Hin as (index & <- & Hin).
  apply in_seq in Hin.
  apply enemyInstance_id_inj in Heq as [_ Heq]. lia.
Qed.

Variable enemyTemplates : gmap string EnemyTemplate.

(** The created enemies are instances of groups from [i] on, and their ids
    are distinct. *)
Lemma expandEncounters_ids (groups : list Encounter) (i : nat) (w : World) :
  NoDup (map id (fst (expandEncounters enemyTemplates groups i w))) /\
  forall e, In e (fst (expandEncounters enemyTemplates groups i w)) ->
    exists g k template index,
      (i <= k)%nat /\ e = enemyInstance g k template index.
Proof.
  revert i w. induction groups as [|g groups IH]; intros i w.
  - cbn. split; [constructor | intros e []].
  - cbn [expandEncounters]. unfold bind.
    destruct (expandEncounter_spec enemyTemplates g i w) as [Hk Hu].
    destruct (enemyTemplates !! encounterType g) as [template|] eqn:E.
    + rewrite (Hk template eq_refl).
      destruct (IH (S i) w) as [Hnd Hmem].
      destruct (expandEncounters enemyTemplates groups (S i) w)
        as [more w'].
      unfold ret. cbn [fst] in *.
      assert (Hhere : forall e,
                In e (map (enemyInstance g i template) (seq 0 (count g))) ->
                exists index, e = enemyInstance g i template index).
      { intros e He. apply in_map_iff in He as (index & <- & _). eauto. }
      split.
      * rewrite map_app. apply NoDup_app. split; [|split; [|exact Hnd]].
        -- apply instance_ids_distinct.
        -- intros x Hx Hy. apply list_elem_of_In in Hx, Hy.
           apply in_map_iff in Hx as (e & <- & He).
           apply in_map_iff in Hy as (e' & Heq & He').
           destruct (Hhere e He) as (index & ->).
           destruct (Hmem e' He') as (g' & k & template' & index' & Hle & ->).
           apply enemyInstance_id_inj in Heq as [Heq _]. lia.
      * intros e He. apply in_app_iff in He as [He | He].
        -- destruct (Hhere e He) as (index & ->).
           exists g, i, template, index. split; [lia | reflexivity].
        -- destruct (Hmem e He) as (g' & k & template' & index' & Hle & ->).
           exists g', k, template', index'. split; [lia | reflexivity].
    + rewrite (Hu eq_refl).
      match goal with |- context [expandEncounters _ _ _ ?w1] =>
        destruct (IH (S i) w1) as [Hnd Hmem];
        destruct (expandEncounters enemyTemplates groups (S i) w1)
          as [more w']
      end.
      unfold ret. cbn [fst app] in *. split; [exact Hnd|].
      intros e He. destruct (Hmem e He) as (g' & k & template' & index' & Hle & ->).
      exists g', k, template', index'. split; [lia | reflexivity].
Qed.

End EnemyIds.

(** X29: the enemies of an encounter never share a position key. The ids
    [createEnemiesFromEncounter] gives are pairwise distinct, whatever the
    type keys of the groups, and none of them is ['player'],
    ['companion'] or a flag. So [initializePositions] on the created
    enemies keeps every one of them: the enemy at index [i] is found under
    its id at its custom position if the encounter has one at [i], and at
    its default position otherwise, and the player is still at (1, 2). *)
Theorem created_enemies_keep_their_positions
    (enemyTemplates : gmap string CombatService.EnemyTemplate)
    (playerCharacter playerCompanion : option Character)
    (encounterData : option CombatService.EncounterData)
    (enemyPositions : option (list (option Battlefield.Position)))
    (w : World) :
  encounterGroups encounterData <> [] ->
  exists created w' positions,
    CombatService.createEnemiesFromEncounter enemyTemplates encounterData w
    = (Returns created, w') /\
    NoDup (map id created) /\
    Battlefield.initializePositions playerCharacter playerCompanion created
      enemyPositions = Returns positions /\
    (forall i e, created !! i = Some e ->
       exists p,
         Battlefield.enemyPosition enemyPositions i (length created)
         = Returns p /\
         positions !! id e = Some (Battlefield.At p)) /\
    positions !! "player"
    = Some (Battlefield.At (Battlefield.mkPosition 1 2)) /\
    positions !! "companion"
    = Battlefield.initialPositions playerCompanion !! "companion".
Proof.
  intros Hgroups.
  unfold CombatService.createEnemiesFromEncounter, encounterGroups in *.
  destruct encounterData as [[[[|g groups]|]]|]; try congruence.
  unfold bind, ret.
  destruct (expandEncounters_ids enemyTemplates (g :: groups) 0 w)
    as [Hnd Hmem].
  destruct (CombatService.expandEncounters enemyTemplates (g :: groups) 0 w)
    as [created w'].
  cbn [fst] in Hnd, Hmem.
  assert (Hkeys : forall k, hasUnderscore k = false ->
                    forall e, In e created -> id e <> k).
  { intros k Hk e He Heq.
    destruct (Hmem e He) as (g' & j & template & index & _ & ->).
    rewrite <- Heq, enemyInstance_id_underscore in Hk. discriminate. }
  unfold Battlefield.initializePositions.
  destruct created as [|enemy rest] eqn:Ecreated.
  - exists [], w'. eexists. split; [reflexivity|]. split; [constructor|].
    split; [reflexivity|]. split; [intros i e H; discriminate|].
    split; reflexivity.
  - rewrite <- Ecreated in *.
    assert (Hlen : (1 <= length created)%nat) by (subst; cbn; lia).
    destruct (placeEnemies_spec enemyPositions (length created) Hlen created
                0 (Battlefield.initialPositions playerCompanion))
      as (positions & Hrun & Hother & _ & Hlast).
    exists created, w', positions. split; [reflexivity|].
    split; [exact Hnd|]. split; [exact Hrun|].
    split; [|split].
    + intros i e Hi. apply (Hlast i e Hi).
      intros j e' Hij Hj Heq.
      assert (Hi' : map id created !! i = Some (id e)).
      { change (map id created) with (id <$> created).
        now rewrite list_lookup_fmap, Hi. }
      assert (Hj' : map id created !! j = Some (id e)).
      { change (map id created) with (id <$> created).
        now rewrite list_lookup_fmap, Hj, <- Heq. }
      pose proof (NoDup_lookup _ _ _ _ Hnd Hi' Hj'). lia.
    + rewrite Hother by (now apply Hkeys). reflexivity.
    + rewrite Hother by (now apply Hkeys). reflexivity.
Qed.

Lemma created_enemies_keep_their_positions_witness :
  exists created w' positions,
    CombatService.createEnemiesFromEncounter sampleTemplates sampleEncounter
      freshWorld
    = (Returns created, w') /\
    NoDup (map id created) /\
    Battlefield.initializePositions None None created None
    = Returns positions /\
    positions !! "player"
    = Some (Battlefield.At (Battlefield.mkPosition 1 2)).
Proof.
  destruct (created_enemies_keep_their_positions sampleTemplates None None
              sampleEncounter None freshWorld)
    as (created & w' & positions & Hrun & Hnd & Hpos & _ & Hplayer & _).
  - discriminate.
  - exists created, w', positions. repeat split; assumption.
Defined.

(** ** The attack bonus of the fuller text *)

(** X30: the [getAttackBonus] of the fuller text ([characterStore.js],
    lines 1033-1065) returns [attack.attackBonus] verbatim whenever that
    field is set. Otherwise, with the proficiency bonus
    [ceil(level / 4) + 1] (2 when [level] is absent or 0) and the governing
    ability ([attack.stat] if set, else dexterity when the attack is ranged
    or has a range above 1, else strength): it returns the proficiency bonus
    plus the modifier of the attacker's score in that ability; it returns
    the proficiency bonus alone when the attacker's stats hold no score for
    that ability; and it returns 0 when the attacker has no stats at all. *)
Theorem getAttackBonus_fuller_spec (character : Character) (weapon : Attack)
    (w : World) :
  (forall bonus, attackBonus weapon = Some bonus ->
     fst (CombatService.getAttackBonus character weapon w) = bonus) /\
  (attackBonus weapon = None ->
     (forall st score,
        stats character = Some st ->
        st !! CombatService.governingStat weapon = Some score ->
        fst (CombatService.getAttackBonus character weapon w)
        = CombatService.proficiencyBonus character + getModifier score) /\
     (forall st,
        stats character = Some st ->
        st !! CombatService.governingStat weapon = None ->
        fst (CombatService.getAttackBonus character weapon w)
        = CombatService.proficiencyBonus character) /\
     (stats character = None ->
        fst (CombatService.getAttackBonus character weapon w) = 0)) /\
  (forall l, level character = Some l -> l <> 0 ->
     CombatService.proficiencyBonus character = ceilQuarter l + 1 /\
     l <= 4 * ceilQuarter l < l + 4) /\
  (level character = None \/ level character = Some 0 ->
     CombatService.proficiencyBonus character = 2) /\
  (forall s, stat weapon = Some s -> s <> "" ->
     CombatService.governingStat weapon = s) /\
  (truthyString (stat weapon) = false ->
     category weapon = Some "ranged" \/ attackType weapon = Some "ranged" \/
     (exists r, range weapon = Some r /\ 1 < r) ->
     CombatService.governingStat weapon = "dexterite") /\
  (truthyString (stat weapon) = false ->
     category weapon <> Some "ranged" -> attackType weapon <> Some "ranged" ->
     (forall r, range weapon = Some r -> r <= 1) ->
     CombatService.governingStat weapon = "force").
Proof.
  split; [|split; [|split; [|split; [|split; [|split]]]]].
  - intros bonus Hb. unfold CombatService.getAttackBonus. now rewrite Hb.
  - intros Hb. unfold CombatService.getAttackBonus. rewrite Hb.
    split; [|split].
    + intros st score Hst Hscore. rewrite Hst, Hscore. cbn. lia.
    + intros st Hst Hscore. now rewrite Hst, Hscore.
    + intros Hst. now rewrite Hst.
  - intros l Hl Hl0. unfold CombatService.proficiencyBonus. rewrite Hl. cbn.
    apply Z.eqb_neq in Hl0. rewrite Hl0. cbn.
    split; [reflexivity | apply ceilQuarter_spec].
  - intros [Hl | Hl]; unfold CombatService.proficiencyBonus; now rewrite Hl.
  - intros s Hs Hne. unfold CombatService.governingStat. rewrite Hs.
    destruct s; [congruence | reflexivity].
  - intros Hs H. unfold CombatService.governingStat. rewrite Hs.
    destruct H as [H | [H | (r & Hr & Hlt)]].
    + rewrite H. reflexivity.
    + rewrite H. cbn. now rewrite orb_true_r.
    + rewrite Hr. cbn.
      assert (Hr0 : (r =? 0) = false) by (apply Z.eqb_neq; lia).
      assert (Hr1 : (1 <? r) = true) by (apply Z.ltb_lt; lia).
      rewrite Hr0, Hr1. cbn. now rewrite !orb_true_r.
  - intros Hs Hc Ht Hr. unfold CombatService.governingStat. rewrite Hs.
    rewrite (bool_decide_eq_false_2 _ Hc), (bool_decide_eq_false_2 _ Ht).
    cbn. destruct (range weapon) as [r|] eqn:Er; cbn; [|reflexivity].
    specialize (Hr r eq_refl).
    assert (Hr1 : (1 <? r) = false) by (apply Z.ltb_ge; lia).
    rewrite Hr1. now rewrite andb_false_r.
Qed.

(** X30 at work: a set [attackBonus], a ranged weapon, and a weapon whose
    governing ability the attacker has no score for. *)
Lemma getAttackBonus_fuller_spec_witness :
  let archer := sampleCharacter "player" Player 20 20 in
  let bow := mkAttack "Arc court" None None None (Some "ranged") (Some 6)
                      (Some "1d6") None None in
  let bite := mkAttack "Morsure" (Some 5) None None None None
                       (Some "1d6+2") None None in
  let psychic := mkAttack "Assaut mental" None (Some "sagesse") None None None
                          (Some "1d4") None None in
  fst (CombatService.getAttackBonus archer bite freshWorld) = 5 /\
  fst (CombatService.getAttackBonus archer bow freshWorld) = 2 + 1 /\
  fst (CombatService.getAttackBonus archer psychic freshWorld) = 2 /\
  CombatService.governingStat bow = "dexterite".
Proof.
  cbv zeta.
  pose (archer := sampleCharacter "player" Player 20 20).
  pose (bow := mkAttack "Arc court" None None None (Some "ranged") (Some 6)
                        (Some "1d6") None None).
  pose (psychic := mkAttack "Assaut mental" None (Some "sagesse") None None
                            None (Some "1d4") None None).
  split; [|split; [|split]].
  - apply (getAttackBonus_fuller_spec archer). reflexivity.
  - destruct (getAttackBonus_fuller_spec archer bow freshWorld) as (_ & H & _).
    destruct (H eq_refl) as (H1 & _).
    apply (H1 {[ "force" := 14; "dexterite" := 12; "constitution" := 13 ]} 12);
      reflexivity.
  - destruct (getAttackBonus_fuller_spec archer psychic freshWorld) as (_ & H & _).
    destruct (H eq_refl) as (_ & H2 & _).
    apply (H2 {[ "force" := 14; "dexterite" := 12; "constitution" := 13 ]});
      reflexivity.
  - destruct (getAttackBonus_fuller_spec archer bow freshWorld)
      as (_ & _ & _ & _ & _ & H & _).
    apply H; [reflexivity|]. right. left. reflexivity.
Defined.
